(** * Content-loss reconciliation scripts: a shallow embedding

    The four scripts [fix_content_loss.py], [fix_remaining_bibliography.py],
    [fix_keywords.py] and [fix_all_keywords.py] repair DocBook-like XML files
    from their XHTML sources with regular expressions and string
    substitution.  This development embeds

    - Python text as lists of characters,
    - the fragment of Python's [re] module the scripts use, as a
      backtracking matcher that enumerates matches in priority order,
    - [str.replace], [str.strip], [html.escape], [int] and the f-string
      number formats,
    - the bibliography, keyword, chapter-mapping and index-term functions,

    and proves the properties of the reconciliation engine over them.

    Characters.  A Python [str] is a sequence of code points; the model
    takes the code points below 256 (type [ascii]).  On that range [\d] is
    [0-9], [\s] and [str.isspace] are the twelve characters of
    [is_space], and case-insensitive matching against the ASCII letters
    of the patterns only identifies [A-Z] with [a-z]. *)

From Stdlib Require Import ZArith Ascii String List Bool Lia DecimalString.
From Stdlib Require Import DecimalN DecimalPos.
From stdpp Require Import gmap strings sorting.
Import ListNotations.

Local Open Scope nat_scope.
Local Open Scope list_scope.

(** ** Text *)

Module Text.

Abbreviation str := (list ascii).

(** A literal: [L "abc"] is the text abc. *)
Definition L (s : string) : str := list_ascii_of_string s.

(** The double quote, written by its code. *)
Definition dq : ascii := "034"%char.
Definition nl : ascii := "010"%char.

Definition code (a : ascii) : nat := nat_of_ascii a.

(** [str.isspace] on one character, and [\s] of [re], below 256. *)
Definition is_space (a : ascii) : bool :=
  let n := code a in
  ((9 <=? n) && (n <=? 13)) || ((28 <=? n) && (n <=? 32))
  || (n =? 133) || (n =? 160).

(** [\d] of [re], and the digits [int] accepts, below 256. *)
Definition is_digit (a : ascii) : bool :=
  let n := code a in (48 <=? n) && (n <=? 57).

Definition is_upper (a : ascii) : bool :=
  let n := code a in (65 <=? n) && (n <=? 90).

Definition is_lower (a : ascii) : bool :=
  let n := code a in (97 <=? n) && (n <=? 122).

Definition to_lower (a : ascii) : ascii :=
  if is_upper a then ascii_of_nat (code a + 32) else a.

Definition to_upper (a : ascii) : ascii :=
  if is_lower a then ascii_of_nat (code a - 32) else a.

Definition eqc (a b : ascii) : bool := Ascii.eqb a b.

(** [s.startswith(p)], returning the rest of [s] after [p]. *)
Fixpoint strip_prefix (eq : ascii -> ascii -> bool) (p s : str) : option str :=
  match p with
  | [] => Some s
  | a :: p' =>
      match s with
      | [] => None
      | b :: s' => if eq a b then strip_prefix eq p' s' else None
      end
  end.

Definition starts_with (p s : str) : bool :=
  match strip_prefix eqc p s with Some _ => true | None => false end.

(** [sub in s] *)
Fixpoint contains (sub s : str) : bool :=
  starts_with sub s ||
  match s with
  | [] => false
  | _ :: s' => contains sub s'
  end.

(** [s.replace(old, new, 1)]: the first occurrence only. *)
Fixpoint replace_first (old new s : str) : str :=
  match strip_prefix eqc old s with
  | Some rest => new ++ rest
  | None =>
      match s with
      | [] => []
      | a :: s' => a :: replace_first old new s'
      end
  end.



(** [s.lstrip()], [s.rstrip()], [s.strip()] *)
Fixpoint lstrip (s : str) : str :=
  match s with
  | a :: s' => if is_space a then lstrip s' else s
  | [] => []
  end.

Definition rstrip (s : str) : str := rev (lstrip (rev s)).

Definition strip (s : str) : str := rstrip (lstrip s).

(** [html.escape(s)] with its default [quote=True]: five replacements of
    one character each, the ampersand first. *)
Definition replace_char (c : ascii) (new : str) (s : str) : str :=
  flat_map (fun a => if eqc a c then new else [a]) s.

Definition escape (s : str) : str :=
  replace_char "'"%char (L "&#x27;")
    (replace_char dq (L "&quot;")
      (replace_char ">"%char (L "&gt;")
        (replace_char "<"%char (L "&lt;")
          (replace_char "&"%char (L "&amp;") s)))).

(** [int(s)] on a text of decimal digits. *)
Definition digit_val (a : ascii) : Z := Z.of_nat (code a - 48).

Definition int_of (s : str) : Z :=
  fold_left (fun acc a => (10 * acc + digit_val a)%Z) s 0%Z.

(** [f"{n}"], [f"{n:02d}"], [f"{n:03d}"] for [n >= 0]. *)
Definition fmt_d (n : Z) : str :=
  L (NilZero.string_of_uint (N.to_uint (Z.to_N n))).

Definition fmt_0d (width : nat) (n : Z) : str :=
  let d := fmt_d n in repeat "0"%char (width - length d) ++ d.

(** [s[:n] + '...' if len(s) > n else s] *)
Definition preview (n : nat) (s : str) : str :=
  if n <? length s then firstn n s ++ L "..." else s.

End Text.

(** ** The [re] fragment *)

Module Re.
Import Text.

(** One item of a bracket expression, or a class escape. *)
Inductive item :=
| IChar (c : ascii)            (* a character *)
| IRange (lo hi : ascii)       (* lo-hi *)
| IDigit                       (* \d *)
| ISpace.                      (* \s *)

(** The patterns of the scripts, as syntax trees.  A non-capturing group
    is plain nesting. *)
Inductive re :=
| Eps
| Str (l : str)                (* a run of literal characters *)
| Any                          (* . under re.DOTALL *)
| Set_ (items : list item)     (* [...] and the escapes \d \s *)
| NSet (items : list item)     (* [^...] *)
| Cat (r1 r2 : re)
| Alt (r1 r2 : re)             (* r1|r2 *)
| Star (r : re)                (* r* *)
| Plus (r : re)                (* r+ *)
| Opt (r : re)                 (* r? *)
| LazyStar (r : re)            (* r*? *)
| Group (n : nat) (r : re)     (* the n-th capturing group *)
| Eos.                         (* $ without re.MULTILINE *)

Definition in_range (lo hi a : ascii) : bool :=
  (code lo <=? code a) && (code a <=? code hi).

Definition item_match (i : item) (a : ascii) : bool :=
  match i with
  | IChar c => eqc c a
  | IRange lo hi => in_range lo hi a
  | IDigit => is_digit a
  | ISpace => is_space a
  end.

(** Under [re.IGNORECASE] a character belongs to a set when one of its
    case variants does. *)
Definition set_match (ic : bool) (items : list item) (a : ascii) : bool :=
  existsb (fun i =>
    item_match i a
    || (ic && (item_match i (to_lower a) || item_match i (to_upper a)))) items.

Definition lit_eq (ic : bool) (p a : ascii) : bool :=
  if ic then eqc (to_lower p) (to_lower a) else eqc p a.

(** Capture groups: number and captured text, the latest first. *)
Abbreviation caps := (list (nat * str)).
Abbreviation st := (str * caps)%type.

Fixpoint group (n : nat) (c : caps) : option str :=
  match c with
  | [] => None
  | (k, v) :: c' => if k =? n then Some v else group n c'
  end.

(** [m.group(n)] of a group that took part in the match. *)
Definition group_or_empty (n : nat) (c : caps) : str :=
  match group n c with Some v => v | None => [] end.

(** Greedy repetition: one more iteration first, then stop.  An iteration
    must consume a character; [fuel] bounds the iterations by the length
    of the text. *)
Fixpoint star_ms (step : str -> caps -> list st) (fuel : nat)
    (s : str) (c : caps) : list st :=
  match fuel with
  | O => [(s, c)]
  | S f =>
      flat_map (fun x : st =>
                  if length (fst x) <? length s
                  then star_ms step f (fst x) (snd x) else [])
               (step s c)
      ++ [(s, c)]
  end.

(** Lazy repetition: stop first, then one more iteration. *)
Fixpoint lazy_ms (step : str -> caps -> list st) (fuel : nat)
    (s : str) (c : caps) : list st :=
  match fuel with
  | O => [(s, c)]
  | S f =>
      (s, c) ::
      flat_map (fun x : st =>
                  if length (fst x) <? length s
                  then lazy_ms step f (fst x) (snd x) else [])
               (step s c)
  end.

(** [ms ic r s c]: every way [r] matches a prefix of [s], as the rest of
    the text and the captures, in the order a backtracking matcher tries
    them. *)
Fixpoint ms (ic : bool) (r : re) (s : str) (c : caps) : list st :=
  match r with
  | Eps => [(s, c)]
  | Str l =>
      match strip_prefix (lit_eq ic) l s with
      | Some s' => [(s', c)]
      | None => []
      end
  | Any => match s with _ :: s' => [(s', c)] | [] => [] end
  | Set_ items =>
      match s with
      | a :: s' => if set_match ic items a then [(s', c)] else []
      | [] => []
      end
  | NSet items =>
      match s with
      | a :: s' => if set_match ic items a then [] else [(s', c)]
      | [] => []
      end
  | Cat r1 r2 => flat_map (fun x : st => ms ic r2 (fst x) (snd x)) (ms ic r1 s c)
  | Alt r1 r2 => ms ic r1 s c ++ ms ic r2 s c
  | Star r1 => star_ms (ms ic r1) (length s) s c
  | Plus r1 =>
      flat_map (fun x : st => star_ms (ms ic r1) (length (fst x)) (fst x) (snd x))
               (ms ic r1 s c)
  | Opt r1 => ms ic r1 s c ++ [(s, c)]
  | LazyStar r1 => lazy_ms (ms ic r1) (length s) s c
  | Group n r1 =>
      map (fun x : st => (fst x, (n, firstn (length s - length (fst x)) s) :: snd x))
          (ms ic r1 s c)
  | Eos =>
      match s with
      | [] => [(s, c)]
      | [a] => if eqc a nl then [(s, c)] else []
      | _ => []
      end
  end.

(** [re.match(r, s)]: the first match in priority order. *)
Definition re_match (ic : bool) (r : re) (s : str) : option st :=
  head (ms ic r s []).

(** A match object: [m.start()], [m.group(0)] and the groups. *)
Record mobj := MObj { m_start : nat; m_whole : str; m_caps : caps }.

Definition m_end (m : mobj) : nat := m_start m + length (m_whole m).
Definition m_group (n : nat) (m : mobj) : str := group_or_empty n (m_caps m).

(** [list(re.finditer(r, s))]: matches from left to right without
    overlap.  [skip] counts the characters of the last match still to be
    passed, [pos] is the index of the head of [s] in the whole text.  No
    pattern of the scripts matches the empty text. *)
Fixpoint scan (ic : bool) (r : re) (skip pos : nat) (s : str) : list mobj :=
  match skip with
  | S k => match s with [] => [] | _ :: s' => scan ic r k (S pos) s' end
  | O =>
      match re_match ic r s with
      | Some (rest, c) =>
          let n := length s - length rest in
          MObj pos (firstn n s) c ::
          match s with [] => [] | _ :: s' => scan ic r (pred n) (S pos) s' end
      | None =>
          match s with [] => [] | _ :: s' => scan ic r O (S pos) s' end
      end
  end.

Definition finditer (ic : bool) (r : re) (s : str) : list mobj := scan ic r 0 0 s.

(** [re.search(r, s)]: the leftmost match. *)
Definition search (ic : bool) (r : re) (s : str) : option mobj :=
  head (finditer ic r s).

(** [re.findall(r, s)] for a pattern with one group. *)
Definition findall1 (ic : bool) (r : re) (s : str) : list str :=
  map (m_group 1) (finditer ic r s).

(** [re.sub(r, repl, s)]; [repl] builds the replacement from the groups. *)
Fixpoint sub_scan (ic : bool) (r : re) (repl : caps -> str) (skip : nat)
    (s : str) : str :=
  match skip with
  | S k => match s with [] => [] | _ :: s' => sub_scan ic r repl k s' end
  | O =>
      match re_match ic r s with
      | Some (rest, c) =>
          let n := length s - length rest in
          repl c ++
          match s with
          | [] => []
          | a :: s' =>
              (if n =? 0 then [a] else []) ++ sub_scan ic r repl (pred n) s'
          end
      | None =>
          match s with [] => [] | a :: s' => a :: sub_scan ic r repl O s' end
      end
  end.

Definition sub (ic : bool) (r : re) (repl : caps -> str) (s : str) : str :=
  sub_scan ic r repl O s.

(** [re.escape(t)] compiled: the literal text [t]. *)
Definition escaped (t : str) : re := Str t.

End Re.

(** ** IEEE double arithmetic of the truncation test

    [len(a) < len(b) * 0.7] multiplies the integer [len(b)] by the double
    nearest to 0.7 and compares the integer [len(a)] with the rounded
    product, exactly.  A finite double is [m * 2^e]. *)

Module Float.
Local Open Scope Z_scope.

(** 0.7 as a double is [m07 * 2^-53]. *)
Definition m07 : Z := 6305039478318694.

(** [m / 2^sh] rounded to the nearest integer, ties to even. *)
Definition round_shift (m sh : Z) : Z :=
  let q := m / 2 ^ sh in
  let r := m mod 2 ^ sh in
  if 2 * r <? 2 ^ sh then q
  else if 2 ^ sh <? 2 * r then q + 1
  else if Z.even q then q else q + 1.

(** [n * 0.7] for [0 <= n < 2^53]: the exact product [n * m07 * 2^-53]
    rounded to 53 significant bits, as mantissa and exponent. *)
Definition mul07 (n : Z) : Z * Z :=
  let m := n * m07 in
  let sh := Z.max 0 (Z.log2 m + 1 - 53) in
  (round_shift m sh, sh - 53).

(** [a < x] for an integer [a] and a double [x = m * 2^e]. *)
Definition int_lt (a : Z) (x : Z * Z) : bool :=
  let (m, e) := x in
  if 0 <=? e then a <? m * 2 ^ e else a * 2 ^ (- e) <? m.

(** [la < lb * 0.7] on two lengths. *)
Definition lt_07 (la lb : nat) : bool :=
  int_lt (Z.of_nat la) (mul07 (Z.of_nat lb)).

End Float.

(** ** Files and exceptions *)

Module Sys.
Import Text.

Inductive exn := FileNotFoundError | UnicodeDecodeError.

Inductive res (A : Type) :=
| Ok (a : A)
| Raise (e : exn).
Arguments Ok {A} a.
Arguments Raise {A} e.

Definition bind {A B} (x : res A) (f : A -> res B) : res B :=
  match x with
  | Ok a => f a
  | Raise e => Raise e
  end.

(** [try: body except Exception as e: handler] *)
Definition try_except {A} (body : res A) (handler : exn -> res A) : res A :=
  match body with
  | Ok a => Ok a
  | Raise e => handler e
  end.

Notation "'do' x <- c1 ; c2" := (bind c1 (fun x => c2))
  (at level 10, x name, c1 at level 100, c2 at level 200).

(** A file holds text, or bytes that are not UTF-8. *)
Inductive file :=
| TextFile (s : str)
| Undecodable.

(** A directory: file names to files. *)
Abbreviation dir := (gmap string file).

(** [open(path, 'r', encoding='utf-8').read()] *)
Definition read_text (d : dir) (path : string) : res str :=
  match d !! path with
  | None => Raise FileNotFoundError
  | Some Undecodable => Raise UnicodeDecodeError
  | Some (TextFile s) => Ok s
  end.

(** [open(path, 'w', encoding='utf-8').write(s)] *)
Definition write_text (d : dir) (path : string) (s : str) : dir :=
  <[path := TextFile s]> d.

End Sys.

Declare Scope re_scope.
Delimit Scope re_scope with re.
Bind Scope re_scope with Re.re.
Notation "r1 ;; r2" := (Re.Cat r1 r2) (at level 100, r2 at level 200) : re_scope.

(** ** Helpers shared by the scripts *)

Module Common.
Import Text Re Sys.
Local Open Scope re_scope.

(** [\d], [\s] and [[^c]] *)
Definition digit : re := Set_ [IDigit].
Definition space : re := Set_ [ISpace].
Definition not_char (c : ascii) : re := NSet [IChar c].

(** [f'<bibliomixed id=DQ{bib_id}DQ>{html.escape(full_citation)}</bibliomixed>'] *)
Definition new_entry (bib_id full_citation : str) : str :=
  L "<bibliomixed id=" ++ [dq] ++ bib_id ++ [dq] ++ L ">"
  ++ escape full_citation ++ L "</bibliomixed>".

(** The keyword list built by the three keyword fixers:
    ['<keywordset>\n'], one [f'      <keyword>{html.escape(keyword)}</keyword>\n']
    per keyword, ['   </keywordset>']. *)
Definition keywords_xml (keywords : list str) : str :=
  fold_left (fun acc keyword =>
               acc ++ L "      <keyword>" ++ escape keyword ++ L "</keyword>" ++ [nl])
            keywords (L "<keywordset>" ++ [nl])
  ++ L "   </keywordset>".

(** [r'<span class=DQ Keyword DQ[^>]*>([^<]+)</span>'] *)
Definition keyword_pattern : re :=
  Str (L "<span class=" ++ [dq] ++ L "Keyword" ++ [dq]) ;;
  Star (not_char ">") ;; Str (L ">") ;;
  Group 1 (Plus (not_char "<")) ;; Str (L "</span>").

(** [keywords = re.findall(keyword_pattern, content)]
    [keywords = [k.strip() for k in keywords if k.strip()]] *)
Definition keywords_of (content : str) : list str :=
  map strip
    (List.filter (fun k => negb (Nat.eqb (length (strip k)) 0))
            (findall1 false keyword_pattern content)).

(** [name.endswith(suffix)] *)
Definition ends_with (suffix s : str) : bool :=
  starts_with (rev suffix) (rev s).

(** [list(Path(d).glob(f'*_{chapter}_Chapter.xhtml'))], in the order the
    directory lists its files. *)
Definition glob_chapter (d : dir) (chapter : Z) : list string :=
  List.filter (fun name => ends_with (L "_" ++ fmt_d chapter ++ L "_Chapter.xhtml") (L name))
         (map fst (map_to_list d)).

(** [r'ch(\d+)'] *)
Definition ch_pattern : re := Str (L "ch") ;; Group 1 (Plus digit).

(** [match = re.search(r'ch(\d+)', name)]; [int(match.group(1))] *)
Definition chapter_of_name (name : str) : option Z :=
  match search false ch_pattern name with
  | Some m => Some (int_of (m_group 1 m))
  | None => None
  end.

End Common.

(** ** Citation extraction, shared by both bibliography scripts *)

Module Citations.
Import Text Re Sys Common.
Local Open Scope re_scope.

(** [r'<div class=DQ CitationContent DQ id=DQ(CR\d+)DQ>(.*?)</div>'] with
    [re.DOTALL].  In the comments that quote a pattern, DQ stands for the
    double quote (and is set off by blanks that are not in the pattern),
    and a blank separates a star from a closing parenthesis. *)
Definition citation_pattern : re :=
  Str (L "<div class=" ++ [dq] ++ L "CitationContent" ++ [dq] ++ L " id=" ++ [dq]) ;;
  Group 1 (Str (L "CR") ;; Plus digit) ;;
  Str (dq :: L ">") ;;
  Group 2 (LazyStar Any) ;;
  Str (L "</div>").

(** [r'<span class=DQ RefSource DQ>[^<]*</span>'] *)
Definition refsource_pattern : re :=
  Str (L "<span class=" ++ [dq] ++ L "RefSource" ++ [dq] ++ L ">") ;;
  Star (not_char "<") ;; Str (L "</span>").

(** [r'<span class=DQ Occurrence[^DQ]* DQ>[^<]*</span>'] *)
Definition occurrence_pattern : re :=
  Str (L "<span class=" ++ [dq] ++ L "Occurrence") ;;
  Star (not_char dq) ;; Str (dq :: L ">") ;;
  Star (not_char "<") ;; Str (L "</span>").

(** [r'<a[^>]*>([^<]* )</a>'], [r'<em[^>]*>([^<]* )</em>'],
    [r'<span[^>]*>([^<]* )</span>'] *)
Definition wrapper_pattern (tag : string) : re :=
  Str (L "<" ++ L tag) ;; Star (not_char ">") ;; Str (L ">") ;;
  Group 1 (Star (not_char "<")) ;;
  Str (L "</" ++ L tag ++ L ">").

(** [r'</?[a-z][^>]*>'] *)
Definition tag_pattern : re :=
  Str (L "<") ;; Opt (Str (L "/")) ;; Set_ [IRange "a" "z"] ;;
  Star (not_char ">") ;; Str (L ">").

(** [r'\s+'] *)
Definition spaces_pattern : re := Plus space.

Definition to_empty : caps -> str := fun _ => [].
Definition to_group1 : caps -> str := group_or_empty 1.
Definition to_space : caps -> str := fun _ => L " ".

(** The cleaning steps up to and including [.strip()]. *)
Definition clean_markup (cit_content : str) : str :=
  let clean_content := sub false refsource_pattern to_empty cit_content in
  let clean_content := sub false occurrence_pattern to_empty clean_content in
  let clean_content := sub false (wrapper_pattern "a") to_group1 clean_content in
  let clean_content := sub false (wrapper_pattern "em") to_group1 clean_content in
  let clean_content := sub false (wrapper_pattern "span") to_group1 clean_content in
  let clean_content := sub false tag_pattern to_empty clean_content in
  strip (sub false spaces_pattern to_space clean_content).

Section WithUnescape.

(** [html.unescape] of the Python library replaces character references;
    their table is not part of the scripts. *)
Variable unescape : str -> str.

Definition clean_citation (cit_content : str) : str :=
  unescape (clean_markup cit_content).

(** [matches = re.findall(citation_pattern, content, re.DOTALL)] and the
    loop over them, with the cleaned text of each. *)
Definition cleaned (content : str) : list (str * str) :=
  map (fun m => (m_group 1 m, clean_citation (m_group 2 m)))
      (finditer false citation_pattern content).

End WithUnescape.

End Citations.

(** ** fix_content_loss.py *)

Module FixContentLoss.
Import Text Re Sys Common Citations.
Local Open Scope re_scope.

Section WithUnescape.
Variable unescape : str -> str.

(** The body of the [try] of [extract_citations_with_regex] after the
    file is read. *)
Definition citations_and_keywords (content : str) : gmap str str * list str :=
  (fold_left (fun (citations : gmap str str) kv => <[fst kv := snd kv]> citations)
             (cleaned unescape content) ∅,
   keywords_of content).

Definition extract_citations_with_regex (d : dir) (xhtml_path : string)
  : res (gmap str str * list str) :=
  try_except
    (do content <- read_text d xhtml_path;
     Ok (citations_and_keywords content))
    (fun _ => Ok (∅, [])).

End WithUnescape.

(** [r'<bibliomixed id=DQ([^DQ]+)DQ>([^<]* )</bibliomixed>'] *)
Definition bibliomixed_pattern : re :=
  Str (L "<bibliomixed id=" ++ [dq]) ;;
  Group 1 (Plus (not_char dq)) ;;
  Str (dq :: L ">") ;;
  Group 2 (Star (not_char "<")) ;;
  Str (L "</bibliomixed>").

(** [r'bib(\d+)$'] *)
Definition bib_num_pattern : re := Str (L "bib") ;; Group 1 (Plus digit) ;; Eos.

Record bib_fix := BibFix { bib_id : str; original : str; restored : str }.

(** [possible_ids = [f"CR{bib_num}", f"CR{bib_num:02d}", f"CR{bib_num:03d}"]] *)
Definition possible_ids (bib_num : Z) : list str :=
  [L "CR" ++ fmt_d bib_num; L "CR" ++ fmt_0d 2 bib_num; L "CR" ++ fmt_0d 3 bib_num].

(** The first of [possible_ids] that is a key of [citations]; the loop
    over them ends at its [break]. *)
Fixpoint first_citation (citations : gmap str str) (ids : list str) : option str :=
  match ids with
  | [] => None
  | cit_id :: ids' =>
      match citations !! cit_id with
      | Some full_citation => Some full_citation
      | None => first_citation citations ids'
      end
  end.

(** One turn of [for match in matches]. *)
Definition bib_content_step (citations : gmap str str)
    (acc : str * list bib_fix) (m : mobj) : str * list bib_fix :=
  let (fixed_content, fixes_made) := acc in
  let bib_id := m_group 1 m in
  let current_content := m_group 2 m in
  match search false bib_num_pattern bib_id with
  | None => acc
  | Some bib_num_match =>
      let bib_num := int_of (m_group 1 bib_num_match) in
      match first_citation citations (possible_ids bib_num) with
      | None => acc
      | Some full_citation =>
          if Float.lt_07 (length current_content) (length full_citation)
          then
            let old_entry := m_whole m in
            (replace_first old_entry (new_entry bib_id full_citation) fixed_content,
             fixes_made ++ [BibFix bib_id (preview 100 current_content)
                                          (preview 100 full_citation)])
          else acc
      end
  end.

Definition fix_bibliography_content (xml_content : str) (citations : gmap str str)
  : str * list bib_fix :=
  fold_left (bib_content_step citations)
            (finditer false bibliomixed_pattern xml_content)
            (xml_content, []).

(** Lines 406-423 of [process_all_chapters]: the bibliography file of the
    output directory is read, fixed, and written back only when a fix was
    made. *)
Definition process_bibliography (out : dir) (bib_file : string)
    (citations : gmap str str) : res (dir * list bib_fix) :=
  do xml_content <- read_text out bib_file;
  let (fixed_content, bib_fixes) := fix_bibliography_content xml_content citations in
  match bib_fixes with
  | [] => Ok (out, [])
  | _ => Ok (write_text out bib_file fixed_content, bib_fixes)
  end.

(** [r'<para>([^<]*@[^<]*\.(edu|com|org)[^<]*(?:Depression|Dysthymia|Mood|Assessment|Anxiety|Disorder)[^<]* )</para>'] *)
Definition garbled_pattern : re :=
  Str (L "<para>") ;;
  Group 1 (Star (not_char "<") ;; Str (L "@") ;; Star (not_char "<") ;; Str (L ".") ;;
           Group 2 (Alt (Str (L "edu")) (Alt (Str (L "com")) (Str (L "org")))) ;;
           Star (not_char "<") ;;
           Alt (Str (L "Depression")) (Alt (Str (L "Dysthymia")) (Alt (Str (L "Mood"))
             (Alt (Str (L "Assessment")) (Alt (Str (L "Anxiety")) (Str (L "Disorder")))))) ;;
           Star (not_char "<")) ;;
  Str (L "</para>").



(** An entry of [analyze_chapter_mapping]'s list. *)
Record mapping := Mapping { xhtml_num : Z; title_ch_num : option Z }.


(** [r'<indexterm[^>]*>\s*<primary>([^<]+)</primary>\s*</indexterm>'] *)
Definition indexterm_pattern : re :=
  Str (L "<indexterm") ;; Star (not_char ">") ;; Str (L ">") ;; Star space ;;
  Str (L "<primary>") ;; Group 1 (Plus (not_char "<")) ;; Str (L "</primary>") ;;
  Star space ;; Str (L "</indexterm>").

(** [re.escape(indexterm_text) + r'\s*' + re.escape(full_match)] *)
Definition expected_pattern (indexterm_text full_match : str) : re :=
  escaped indexterm_text ;; Star space ;; escaped full_match.

(** [r'<para[^>]*>\s*' + re.escape(indexterm_text) + r'\s*' + re.escape(full_match[:20])] *)
Definition start_of_para_pattern (indexterm_text full_match : str) : re :=
  Str (L "<para") ;; Star (not_char ">") ;; Str (L ">") ;; Star space ;;
  escaped indexterm_text ;; Star space ;; escaped (firstn 20 full_match).

Record issue := Issue { i_text : str; i_context : str }.

Definition is_some {A} (o : option A) : bool :=
  match o with Some _ => true | None => false end.

(** The body of [for match in matches] of [verify_indexterm_fixes]: the
    issue recorded for a marker, if any. *)
Definition indexterm_issue (content : str) (m : mobj) : option issue :=
  let indexterm_text := m_group 1 m in
  let full_match := m_whole m in
  if negb (is_some (search false (expected_pattern indexterm_text full_match) content))
  then
    if negb (is_some (search false (start_of_para_pattern indexterm_text full_match) content))
    then Some (Issue indexterm_text
                 (firstn (m_start m - (m_start m - 50)) (skipn (m_start m - 50) content)))
    else None
  else None.

(** The issues of one file. *)
Definition indexterm_issues (content : str) : list issue :=
  omap (indexterm_issue content) (finditer false indexterm_pattern content).

End FixContentLoss.

(** ** fix_remaining_bibliography.py *)

Module FixRemainingBibliography.
Import Text Re Sys Common Citations.
Local Open Scope re_scope.

(** [r'CR(\d+)'] *)
Definition cr_pattern : re := Str (L "CR") ;; Group 1 (Plus digit).

Section WithUnescape.
Variable unescape : str -> str.

(** The loop of [extract_citations_from_xhtml]: citations keyed by number. *)
Definition citations_of (content : str) : gmap Z str :=
  fold_left (fun (citations : gmap Z str) kv =>
               match search false cr_pattern (fst kv) with
               | Some cit_num_match =>
                   <[int_of (m_group 1 cit_num_match) := snd kv]> citations
               | None => citations
               end)
            (cleaned unescape content) ∅.


End WithUnescape.

Definition bibliomixed_pattern : re := FixContentLoss.bibliomixed_pattern.
Definition bib_num_pattern : re := FixContentLoss.bib_num_pattern.

(** One turn of [for match in matches]. *)
Definition bib_file_step (citations : gmap Z str) (acc : str * nat) (m : mobj)
  : str * nat :=
  let (content, fixes_made) := acc in
  let bib_id := m_group 1 m in
  let current_content := m_group 2 m in
  match search false bib_num_pattern bib_id with
  | None => acc
  | Some bib_num_match =>
      let bib_num := int_of (m_group 1 bib_num_match) in
      match citations !! bib_num with
      | None => acc
      | Some full_citation =>
          if Float.lt_07 (length (strip current_content)) (length full_citation)
          then
            let old_entry := m_whole m in
            (replace_first old_entry (new_entry bib_id full_citation) content,
             S fixes_made)
          else acc
      end
  end.

(** Lines 55-81: the text and the count after the loop. *)
Definition fix_bibliography_text (content : str) (citations : gmap Z str) : str * nat :=
  fold_left (bib_file_step citations)
            (finditer false bibliomixed_pattern content)
            (content, 0).

(** [fix_bibliography_file]: the file is written only when a fix was
    made; the result is the directory after the call and the count. *)
Definition fix_bibliography_file (out : dir) (xml_path : string)
    (citations : gmap Z str) : res (dir * nat) :=
  do content <- read_text out xml_path;
  let (content', fixes_made) := fix_bibliography_text content citations in
  if 0 <? fixes_made
  then Ok (write_text out xml_path content', fixes_made)
  else Ok (out, fixes_made).





Section WithUnescape.
Variable unescape : str -> str.


End WithUnescape.

End FixRemainingBibliography.

(** ** fix_keywords.py *)

Module FixKeywords.
Import Text Re Sys Common.
Local Open Scope re_scope.

Definition extract_keywords_from_xhtml (d : dir) (xhtml_path : string) : res (list str) :=
  try_except
    (do content <- read_text d xhtml_path;
     Ok (keywords_of content))
    (fun _ => Ok []).

(** [[a-z0-9_.+-]], [[a-z0-9-]], [[a-z]], [[A-Z]], [[a-z-]], [[A-Za-z-]] *)
Definition local_part : list item :=
  [IRange "a" "z"; IRange "0" "9"; IChar "_"; IChar "."; IChar "+"; IChar "-"].
Definition local_part_sp : list item :=
  [IRange "a" "z"; IRange "0" "9"; IChar "_"; IChar "."; IChar " "; IChar "+"; IChar "-"].
Definition domain_part : list item := [IRange "a" "z"; IRange "0" "9"; IChar "-"].
Definition lower : list item := [IRange "a" "z"].
Definition upper : list item := [IRange "A" "Z"].
Definition lower_dash : list item := [IRange "a" "z"; IChar "-"].
Definition alpha_dash : list item := [IRange "A" "Z"; IRange "a" "z"; IChar "-"].

(** [r'<para>[a-z0-9_.+-]+\s*@\s*[a-z0-9-]+\.\s*[a-z]+\s+[A-Z][a-z-]+(\s+[A-Z][a-z-]+)+</para>']
    with [re.IGNORECASE] *)
Definition find_pattern : re :=
  Str (L "<para>") ;; Plus (Set_ local_part) ;; Star space ;; Str (L "@") ;;
  Star space ;; Plus (Set_ domain_part) ;; Str (L ".") ;; Star space ;;
  Plus (Set_ lower) ;; Plus space ;; Set_ upper ;; Plus (Set_ lower_dash) ;;
  Plus (Group 1 (Plus space ;; Set_ upper ;; Plus (Set_ lower_dash))) ;;
  Str (L "</para>").

(** The test of [find_garbled_keywords_files] on one file's text. *)
Definition is_garbled (content : str) : bool :=
  match search true find_pattern content with Some _ => true | None => false end.


(** [xhtml_chapter = xml_chapter - 2] and the first file of the glob. *)
Definition get_xhtml_chapter_file (xhtml : dir) (xml_chapter : Z) : option string :=
  head (glob_chapter xhtml (xml_chapter - 2)).

(** [r'<para>([a-z0-9_. +-]+@[a-z0-9-]+\.\s*[a-z]+\s+[A-Z][a-z-]+(?:\s+[A-Za-z-]+)* )</para>']
    with [re.IGNORECASE] *)
Definition garbled_pattern : re :=
  Str (L "<para>") ;;
  Group 1 (Plus (Set_ local_part_sp) ;; Str (L "@") ;; Plus (Set_ domain_part) ;;
           Str (L ".") ;; Star space ;; Plus (Set_ lower) ;; Plus space ;;
           Set_ upper ;; Plus (Set_ lower_dash) ;;
           Star (Plus space ;; Plus (Set_ alpha_dash))) ;;
  Str (L "</para>").

Record fix_record := FixRecord { file_name : string; original : str; keywords : list str }.

(** Lines 75-91: the new text and the original garbled text, if the
    pattern matches and there are keywords. *)
Definition fix_keywords_text (content : str) (keywords : list str) : option (str * str) :=
  match search true garbled_pattern content, keywords with
  | Some m, _ :: _ =>
      let original_content := m_group 1 m in
      let old_para := m_whole m in
      Some (replace_first old_para (keywords_xml keywords) content, original_content)
  | _, _ => None
  end.

Definition fix_keywords_in_file (out : dir) (xml_file : string) (keywords : list str)
  : res (dir * option fix_record) :=
  do content <- read_text out xml_file;
  match fix_keywords_text content keywords with
  | Some (new_content, original_content) =>
      Ok (write_text out xml_file new_content,
          Some (FixRecord xml_file (preview 100 original_content) keywords))
  | None => Ok (out, None)
  end.

End FixKeywords.

(** ** fix_all_keywords.py *)

Module FixAllKeywords.
Import Text Re Sys Common.
Local Open Scope re_scope.

Definition extract_keywords_from_xhtml := FixKeywords.extract_keywords_from_xhtml.
Definition get_xhtml_chapter_file := FixKeywords.get_xhtml_chapter_file.

(** [[a-z0-9_ -]], [[A-Za-z -]] *)
Definition domain_sp : list item :=
  [IRange "a" "z"; IRange "0" "9"; IChar "_"; IChar " "; IChar "-"].
Definition alpha_sp_dash : list item :=
  [IRange "A" "Z"; IRange "a" "z"; IChar " "; IChar "-"].

(** [r'<para>([a-z0-9_. +-]+@[a-z0-9_ -]+\.\s*[a-z]+)\s+([A-Z][A-Za-z -]+(?:\s+[A-Za-z -]+)* )</para>'] *)
Definition full_pattern : re :=
  Str (L "<para>") ;;
  Group 1 (Plus (Set_ FixKeywords.local_part_sp) ;; Str (L "@") ;;
           Plus (Set_ domain_sp) ;; Str (L ".") ;; Star space ;;
           Plus (Set_ FixKeywords.lower)) ;;
  Plus space ;;
  Group 2 (Set_ FixKeywords.upper ;; Plus (Set_ alpha_sp_dash) ;;
           Star (Plus space ;; Plus (Set_ alpha_sp_dash))) ;;
  Str (L "</para>").

(** [r'<para>([^<]+@[^<]+)</para>'] *)
Definition simple_pattern : re :=
  Str (L "<para>") ;;
  Group 1 (Plus (not_char "<") ;; Str (L "@") ;; Plus (not_char "<")) ;;
  Str (L "</para>").

Definition garbled_patterns : list re := [full_pattern; simple_pattern].

Record fix_record := FixRecord { file_name : string; original : str; keywords : list str }.

(** [for pattern, ptype in garbled_patterns], all under [re.IGNORECASE]:
    a [continue] moves on to the next pattern, the [break] after a fix
    ends the loop. *)
Fixpoint try_patterns (xhtml out : dir) (xml_file : string) (content : str)
    (patterns : list re) : res (dir * option fix_record) :=
  match patterns with
  | [] => Ok (out, None)
  | pattern :: rest =>
      match search true pattern content with
      | None => try_patterns xhtml out xml_file content rest
      | Some m =>
          match chapter_of_name (L xml_file) with
          | None => try_patterns xhtml out xml_file content rest
          | Some xml_ch =>
              match get_xhtml_chapter_file xhtml xml_ch with
              | None => try_patterns xhtml out xml_file content rest
              | Some xhtml_file =>
                  do keywords <- extract_keywords_from_xhtml xhtml xhtml_file;
                  match keywords with
                  | [] => try_patterns xhtml out xml_file content rest
                  | _ =>
                      let old_para := m_whole m in
                      let new_content :=
                        replace_first old_para (keywords_xml keywords) content in
                      Ok (write_text out xml_file new_content,
                          Some (FixRecord xml_file (firstn 100 (m_whole m)) keywords))
                  end
              end
          end
      end
  end.

(** The body of [for xml_file in xml_files] of [fix_all_garbled_keywords],
    inside its [try]. *)
Definition fix_file (xhtml out : dir) (xml_file : string) : res (dir * option fix_record) :=
  try_except
    (do content <- read_text out xml_file;
     if negb (contains (L "@") content) then Ok (out, None)
     else if contains (L "<keywordset>") content then Ok (out, None)
     else try_patterns xhtml out xml_file content garbled_patterns)
    (fun _ => Ok (out, None)).

End FixAllKeywords.

(** * The notions of the properties

    The predicates and functions in which the properties of the scripts
    are stated: occurrences of a text, the shape of a bibliography entry,
    the classification each fixer makes of a region, the substitution in
    place that the loops are compared with, the shape of a cleaned
    citation. *)

Module Notions.
Import Text Re Sys Common FixContentLoss.

(** ** Texts *)

(** [old] occurs in [s] at offset [length a]. *)
Definition occurs_at (old a s : str) : Prop := exists b, s = a ++ old ++ b.

(** A computable test that [old] does not start before offset [length a]. *)
Definition no_earlier (old a s : str) : bool :=
  forallb (fun k => negb (starts_with old (skipn k s))) (seq 0 (length a)).

(** ** Matches *)

(** What a match leaves is a suffix of the text. *)
Definition suffix_step (step : str -> caps -> list st) : Prop :=
  forall s c x, In x (step s c) -> exists w, s = w ++ fst x.

(** A pattern that matches one character, those satisfying [p]. *)
Definition one_char (ic : bool) (r : re) (p : ascii -> bool) : Prop :=
  forall s c, ms ic r s c =
    match s with a :: s' => if p a then [(s', c)] else [] | [] => [] end.

(** The offsets of the matches play no part in the scan. *)
Definition shift (d : nat) (m : mobj) : mobj :=
  MObj (m_start m + d) (m_whole m) (m_caps m).

(** A pattern that never matches the empty text. *)
Definition nonempty (ic : bool) (r : re) : Prop :=
  forall s rest c, re_match ic r s = Some (rest, c) -> length rest < length s.

(** A gap: a text in front of [t] in which no match starts. *)
Definition gap (ic : bool) (r : re) (g t : str) : Prop :=
  forall a b, g = a ++ b -> b <> [] -> re_match ic r (b ++ t) = None.

(** The literal a pattern ends with. *)
Fixpoint last_lit (r : re) : option str :=
  match r with
  | Str l => Some l
  | Cat _ r2 => last_lit r2
  | _ => None
  end.

(** Matching and substitution over texts whose characters satisfy [P]:
    the captured groups satisfy it, a matcher keeps it so, a replacement
    function produces such a text from such groups. *)

Section Characters.

Variable P : ascii -> Prop.

Definition caps_ok (c : caps) : Prop := forall n v, In (n, v) c -> Forall P v.

Definition keeps (step : str -> caps -> list st) : Prop :=
  forall s c x, Forall P s -> caps_ok c -> In x (step s c) -> caps_ok (snd x).

Definition repl_ok (repl : caps -> str) : Prop :=
  forall c, caps_ok c -> Forall P (repl c).

End Characters.

(** ** Bibliography entries *)

(** The entry [<bibliomixed id=DQ id DQ>txt</bibliomixed>], the text
    that opens it and the text that closes it. *)
Definition opener : str := L "<bibliomixed id=" ++ [dq].

Definition closer : str := L "</bibliomixed>".

Definition entry (id txt : str) : str := opener ++ id ++ dq :: L ">" ++ txt ++ closer.

(** A non-empty identifier without a double quote; a text without [<]. *)
Definition valid_id (id : str) : Prop := id <> [] /\ ~ In dq id.

Definition pure_text (txt : str) : Prop := ~ In "<"%char txt.

(** An entry after its first character and before its closing tag. *)
Definition entry_body (id txt : str) : str :=
  L "bibliomixed id=" ++ [dq] ++ id ++ dq :: L ">" ++ txt.

(** [re.search(r'bib(\d+)$', bib_id)] and [int(bib_num_match.group(1))] *)
Definition bib_number (bib_id : str) : option Z :=
  match search false bib_num_pattern bib_id with
  | Some bib_num_match => Some (int_of (m_group 1 bib_num_match))
  | None => None
  end.

(** The classification of a matched region by [fix_bibliography_file]:
    the clean text that replaces it, if it is found truncated. *)
Definition corrupted_file (citations : gmap Z str) (id txt : str) : option str :=
  match bib_number id with
  | None => None
  | Some bib_num =>
      match citations !! bib_num with
      | None => None
      | Some full_citation =>
          if Float.lt_07 (length (strip txt)) (length full_citation)
          then Some full_citation else None
      end
  end.

(** The same for [fix_bibliography_content]. *)
Definition corrupted_content (citations : gmap str str) (id txt : str) : option str :=
  match bib_number id with
  | None => None
  | Some bib_num =>
      match first_citation citations (possible_ids bib_num) with
      | None => None
      | Some full_citation =>
          if Float.lt_07 (length txt) (length full_citation)
          then Some full_citation else None
      end
  end.

(** The identifiers the pattern reports in [s] have no [<]. *)
Definition clean_ids (s : str) : Prop :=
  forall pos m, In m (scan false bibliomixed_pattern 0 pos s) -> pure_text (m_group 1 m).

(** [classify id txt] is the clean text for a region to be replaced.
    [loop_step] is one turn of the loop of either fixer, [in_place] the
    substitution of every such region where it stands, [re.sub] with a
    function of the match. *)

Section InPlace.

Variable classify : str -> str -> option str.

Definition loop_step (content : str) (m : mobj) : str :=
  match classify (m_group 1 m) (m_group 2 m) with
  | Some full => replace_first (m_whole m) (new_entry (m_group 1 m) full) content
  | None => content
  end.

Definition in_place_repl (c : caps) : str :=
  let id := group_or_empty 1 c in
  let txt := group_or_empty 2 c in
  match classify id txt with
  | Some full => new_entry id full
  | None => entry id txt
  end.

Definition in_place (content : str) : str :=
  sub false bibliomixed_pattern in_place_repl content.

(** The regions of [matches] that are replaced. *)
Definition replaced (matches : list mobj) : list mobj :=
  List.filter (fun m => is_some (classify (m_group 1 m) (m_group 2 m))) matches.

(** A rewritten prefix in which the loop finds nothing more to do. *)
Definition safe_prefix (p : str) : Prop :=
  forall id txt full y,
    valid_id id -> pure_text id -> pure_text txt -> classify id txt = Some full ->
    replace_first (entry id txt) (new_entry id full) (p ++ y)
    = p ++ replace_first (entry id txt) (new_entry id full) y.

End InPlace.

(** ** Keyword spans *)

(** [<span class=DQ Keyword DQ>k</span>] *)
Definition kw_open : str := L "<span class=" ++ [dq] ++ L "Keyword" ++ [dq].

Definition span (k : str) : str := kw_open ++ L ">" ++ k ++ L "</span>".

(** A source text: keyword spans, each after some text without the
    opening of a keyword span, and a tail without one. *)
Definition spans (items : list (str * str)) (tail : str) : str :=
  concat (map (fun it : str * str => fst it ++ span (snd it)) items) ++ tail.

(** The opening of a keyword span after its first character. *)
Definition kw_open_tail : str := L "span class=" ++ [dq] ++ L "Keyword" ++ [dq].

(** [if k.strip()] *)
Definition nonblank (k : str) : bool := negb (Nat.eqb (length (strip k)) 0).

(** ** Cleaned citations *)

(** A text without, and the text of, its longest prefix of characters
    satisfying [p]. *)
Fixpoint skip_while (p : ascii -> bool) (s : str) : str :=
  match s with
  | a :: s' => if p a then skip_while p s' else s
  | [] => []
  end.

Fixpoint take_while (p : ascii -> bool) (s : str) : str :=
  match s with
  | a :: s' => if p a then a :: take_while p s' else []
  | [] => []
  end.

(** What [re.sub(r'\s+', ' ', s)] computes: a blank for each run.
    [in_run] tells that the run has begun. *)
Fixpoint squeeze (in_run : bool) (s : str) : str :=
  match s with
  | [] => []
  | a :: s' =>
      if is_space a
      then if in_run then squeeze true s' else " "%char :: squeeze true s'
      else a :: squeeze false s'
  end.

(** Every whitespace character is a blank, and is followed by a
    character that is not whitespace unless it ends the text. *)
Fixpoint single_spaced (t : str) : bool :=
  match t with
  | [] => true
  | a :: t' =>
      (negb (is_space a)
       || (eqc a " "%char
           && match t' with b :: _ => negb (is_space b) | [] => true end))
      && single_spaced t'
  end.

(** The text neither starts nor ends with whitespace. *)
Definition trimmed (t : str) : Prop :=
  (forall a t', t = a :: t' -> is_space a = false)
  /\ (forall a t', t = t' ++ [a] -> is_space a = false).

(** The inside of a tag: an optional slash, a lower-case letter, and a
    rest without [<] and [>]. *)
Definition tag_body (b : str) : Prop :=
  exists c attrs,
    (b = c :: attrs \/ b = "/"%char :: c :: attrs)
    /\ in_range "a" "z" c = true
    /\ ~ In "<"%char attrs /\ ~ In ">"%char attrs.

(** A region in which every [<] opens such a tag. *)
Inductive well_tagged : str -> Prop :=
| wt_nil : well_tagged []
| wt_text a s : a <> "<"%char -> well_tagged s -> well_tagged (a :: s)
| wt_tag b s : tag_body b -> well_tagged s -> well_tagged ("<"%char :: b ++ ">"%char :: s).

(** ** Index terms *)

(** [<indexterm><primary>term</primary></indexterm>] *)
Definition marker (term : str) : str :=
  L "<indexterm><primary>" ++ term ++ L "</primary></indexterm>".

End Notions.

(** * Example data

    The documents, directories and citation tables on which the
    properties are instantiated. *)

Module Examples.
Import Text Re Sys Common Notions.

(** A bibliography file with one entry, and its clean text by number
    and by key. *)
Definition ex_entry (txt : str) : str := entry (L "ch0008s0009bib67") txt.

Definition ex_full : str :=
  L "Yesavage, J. A., Brink, T. L., Rose, T. L., et al. (1982). Development and validation of a geriatric depression screening scale: A preliminary report. Journal of Psychiatric Research, 17(1), 37-49.".

Definition ex_short : str := L "Journal of Psychiatric Research, 17...".

Definition ex_doc (txt : str) : str :=
  L "<bibliography>" ++ ex_entry txt ++ L "</bibliography>".

Definition ex_path : string := "sect1.9781071643624.ch0008s0009.xml".

Definition ex_out (txt : str) : dir := {[ ex_path := TextFile (ex_doc txt) ]}.

Definition ex_cit_file : gmap Z str := {[ 67%Z := ex_full ]}.

Definition ex_cit_content : gmap str str := {[ L "CR67" := ex_full ]}.


(** A clean text that opens with ten blanks, as [html.unescape] leaves
    them of a non-breaking-space reference after the strip. *)
Definition ex_padded : str := L "          Smith, J. (2001).".

Definition ex_padded_file : gmap Z str := {[ 67%Z := ex_padded ]}.

Definition ex_padded_content : gmap str str := {[ L "CR67" := ex_padded ]}.

(** A short clean text, and an entry text of 17 characters and 40
    blanks. *)
Definition ex_clean : str := L "Smith, J. (2001). Title. J.".

Definition ex_blanks : str := L "Smith, J. (2001)." ++ repeat " "%char 40.

(** A bibliography of three entries: the first truncated, the second
    complete, the third without a clean text; and the same bibliography
    repaired. *)
Definition ex_three : str :=
  L "<bibliography>" ++ ex_entry ex_short ++ [nl]
  ++ entry (L "ch0008s0009bib68") (L "Zung, W. (1965). A scale.") ++ [nl]
  ++ entry (L "ch0008s0009bib69") (L "Beck") ++ L "</bibliography>".

Definition ex_three_file : gmap Z str :=
  {[ 67%Z := ex_full; 68%Z := L "Zung, W. (1965). A scale." ]}.

Definition ex_three_content : gmap str str :=
  {[ L "CR67" := ex_full; L "CR68" := L "Zung, W. (1965). A scale." ]}.

Definition ex_three_fixed : str :=
  L "<bibliography>" ++ ex_entry ex_full ++ [nl]
  ++ entry (L "ch0008s0009bib68") (L "Zung, W. (1965). A scale.") ++ [nl]
  ++ entry (L "ch0008s0009bib69") (L "Beck") ++ L "</bibliography>".

(** The sources of chapters 6 and 9, and a derivative file named after
    chapter 11 whose title declares chapter 6. *)
Definition ex_xhtml : dir :=
  {[ "106097_6_En_6_Chapter.xhtml"%string :=
       TextFile (L "<div class=" ++ [dq] ++ L "CitationContent" ++ [dq] ++ L " id="
                 ++ [dq] ++ L "CR1" ++ [dq]
                 ++ L ">Smith, J. (2001). <em>A long title</em>. Journal.</div>");
     "106097_9_En_9_Chapter.xhtml"%string :=
       TextFile (L "<div class=" ++ [dq] ++ L "CitationContent" ++ [dq] ++ L " id="
                 ++ [dq] ++ L "CR1" ++ [dq]
                 ++ L ">Jones, K. (1999). Another chapter, another book.</div>") ]}.





(** The garbled keyword paragraph of the derivative chapter: the e-mail
    address has a blank after the period of its domain. *)
Definition ex_garbled_text : str := L "lfelicia@uccs. edu Depression Dysthymia Mood".

Definition ex_para : str := L "<para>" ++ ex_garbled_text ++ L "</para>".

Definition ex_garbled : str := L "<sect1info>" ++ ex_para ++ L "</sect1info>".

(** A source with the three keywords, one of them padded with blanks,
    and a blank span. *)
Definition ex_source_items : list (str * str) :=
  [ (L "<div class=" ++ [dq] ++ L "KeywordGroup" ++ [dq] ++ L ">", L "Depression");
    (L " ", L " Dysthymia ");
    ([], L "  ");
    ([nl], L "Mood") ].

Definition ex_keywords : list str := [L "Depression"; L "Dysthymia"; L "Mood"].

Definition ex_kw_file : string := "sect1.9781071643624.ch0008s0001.xml".

(** A citation with an emphasised journal name, a run of blanks and an
    occurrence marker around a source label. *)
Definition ex_region : str :=
  [nl] ++ L "  Yesavage, J. A. (1982). <em>Journal of   Psychiatric Research</em>, "
  ++ L "17(1), 37-49. <span class=" ++ [dq] ++ L "Occurrence" ++ [dq] ++ L ">"
  ++ L "<span class=" ++ [dq] ++ L "RefSource" ++ [dq] ++ L ">Crossref</span></span>"
  ++ [nl].

Definition ex_citation_source : str :=
  L "<li><div class=" ++ [dq] ++ L "CitationContent" ++ [dq] ++ L " id=" ++ [dq] ++ L "CR67"
  ++ [dq] ++ L ">" ++ ex_region ++ L "</div></li>".

Definition ex_cleaned : str :=
  L "Yesavage, J. A. (1982). Journal of Psychiatric Research, 17(1), 37-49.".


(** Two markers of the same term: the first follows its visible text, the
    second stands in the middle of a paragraph after other words. *)
Definition ex_index : str :=
  L "<para>Anxiety" ++ marker (L "Anxiety") ++ L " is common.</para>"
  ++ L "<para>Treatment of " ++ marker (L "Anxiety") ++ L " varies.</para>".

End Examples.

(** * The rest of the scripts

    The functions of the four scripts that walk the directories, the
    chapter numbers they read from file names, the parser class of
    [fix_content_loss.py], and the loops of the [main] functions. *)

(** ** Directory listings and loops *)

Module Listing.
Import Text Sys.

(** A glob pattern of the scripts: literal characters and stars.  The
    patterns are fixed texts and f-strings of numbers; they have no
    question mark and no bracket. *)
Inductive gtok :=
| GStar
| GLit (c : ascii).

Definition glob_pattern (pattern : str) : list gtok :=
  map (fun c => if eqc c "*"%char then GStar else GLit c) pattern.

(** A star takes any run of characters, none included. *)
Fixpoint star_match (rest_match : str -> bool) (s : str) : bool :=
  rest_match s
  || match s with
     | [] => false
     | _ :: s' => star_match rest_match s'
     end.

Fixpoint glob_match (p : list gtok) (s : str) : bool :=
  match p with
  | [] => match s with [] => true | _ => false end
  | GLit c :: p' =>
      match s with
      | a :: s' => eqc c a && glob_match p' s'
      | [] => false
      end
  | GStar :: p' => star_match (glob_match p') s
  end.

(** [Path(d).glob(pattern)]: the names of the directory that match, in
    the order the directory lists them. *)
Definition glob (d : dir) (pattern : str) : list string :=
  List.filter (fun name => glob_match (glob_pattern pattern) (L name))
              (map fst (map_to_list d)).

(** [sorted(paths)] for paths of one directory: by name, character by
    character in the order of the codes. *)
Definition name_le (a b : string) : Prop := String.leb a b = true.

#[global] Instance name_le_dec : RelDecision name_le :=
  fun a b => decide (String.leb a b = true).

Definition sorted (names : list string) : list string := merge_sort name_le names.


(** [if n:] on an optional number: [None] and [0] are false. *)
Definition truthy (o : option Z) : option Z :=
  match o with
  | Some n => if (n =? 0)%Z then None else Some n
  | None => None
  end.

(** [try: content = f.read() ... except: ...] around a test of the
    content of a file: a file that cannot be read fails the test. *)
Definition file_has (d : dir) (test : str -> bool) (name : string) : bool :=
  match read_text d name with
  | Ok content => test content
  | Raise _ => false
  end.

End Listing.

(** ** fix_content_loss.py: the parser class *)

Module CitationParser.
Import Text Re Sys Common Citations.

(** What [HTMLParser.feed] hands to the three handlers: a start tag with
    its attributes, of which one without a value has [None], an end tag,
    a run of text. *)
Inductive event :=
| StartTag (tag : str) (attrs : list (str * option str))
| EndTag (tag : str)
| Data (data : str).

(** [dict(attrs).get(key)]: of two attributes of one name the later one
    stays.  The result is [None] when there is no such attribute. *)
Fixpoint attrs_get (attrs : list (str * option str)) (key : str)
  : option (option str) :=
  match attrs with
  | [] => None
  | (k, v) :: attrs' =>
      match attrs_get attrs' key with
      | Some v' => Some v'
      | None => if decide (k = key) then Some v else None
      end
  end.

(** [attrs_dict.get('class') == name] *)
Definition class_is (attrs : list (str * option str)) (name : str) : bool :=
  match attrs_get attrs (L "class") with
  | Some (Some v) => bool_decide (v = name)
  | _ => false
  end.

(** The fields of the parser. *)
Record parser := Parser {
  citations : gmap str str;
  keywords : list str;
  in_citation : bool;
  in_keyword : bool;
  current_citation_id : option str;
  current_citation_text : list str;
  current_keyword_text : list str
}.

(** [__init__] *)
Definition init : parser := Parser ∅ [] false false None [] [].

Definition handle_starttag (self : parser) (tag : str)
    (attrs : list (str * option str)) : parser :=
  let self :=
    if bool_decide (tag = L "div") && class_is attrs (L "CitationContent")
    then Parser (citations self) (keywords self) true (in_keyword self)
           (match attrs_get attrs (L "id") with
            | Some v => v
            | None => Some []
            end)
           [] (current_keyword_text self)
    else self in
  if bool_decide (tag = L "span") && class_is attrs (L "Keyword")
  then Parser (citations self) (keywords self) (in_citation self) true
         (current_citation_id self) (current_citation_text self) []
  else self.

(** [re.sub(r'\s+', ' ', full_text).strip()] *)
Definition normalize (full_text : str) : str :=
  strip (sub false spaces_pattern to_space full_text).

Definition handle_endtag (self : parser) (tag : str) : parser :=
  let self :=
    if bool_decide (tag = L "div") && in_citation self
    then
      Parser
        (match current_citation_id self with
         | Some (c :: id) =>
             <[c :: id := normalize (concat (current_citation_text self))]>
               (citations self)
         | _ => citations self
         end)
        (keywords self) false (in_keyword self) None [] (current_keyword_text self)
    else self in
  if bool_decide (tag = L "span") && in_keyword self
  then
    let keyword_text := strip (concat (current_keyword_text self)) in
    Parser (citations self)
      (match keyword_text with
       | [] => keywords self
       | _ => keywords self ++ [keyword_text]
       end)
      (in_citation self) false (current_citation_id self)
      (current_citation_text self) []
  else self.

Definition handle_data (self : parser) (data : str) : parser :=
  let self :=
    if in_citation self
    then Parser (citations self) (keywords self) (in_citation self) (in_keyword self)
           (current_citation_id self) (current_citation_text self ++ [data])
           (current_keyword_text self)
    else self in
  if in_keyword self
  then Parser (citations self) (keywords self) (in_citation self) (in_keyword self)
         (current_citation_id self) (current_citation_text self)
         (current_keyword_text self ++ [data])
  else self.

Definition handle (self : parser) (e : event) : parser :=
  match e with
  | StartTag tag attrs => handle_starttag self tag attrs
  | EndTag tag => handle_endtag self tag
  | Data data => handle_data self data
  end.

(** The handlers called in the order of the events. *)
Definition run (self : parser) (events : list event) : parser :=
  fold_left handle events self.

Section WithTokens.

(** [HTMLParser.feed] of the Python library cuts the text into events;
    how it does so is not part of the scripts. *)
Variable tokens : str -> res (list event).

Definition parse_xhtml_citations (d : dir) (xhtml_path : string)
  : res (gmap str str * list str) :=
  try_except
    (do content <- read_text d xhtml_path;
     do events <- tokens content;
     let parser := run init events in
     Ok (citations parser, keywords parser))
    (fun _ => Ok (∅, [])).

End WithTokens.

End CitationParser.

(** ** fix_content_loss.py: chapters, files and the run over them *)

Module ContentLossRun.
Import Text Re Sys Common Citations Listing FixContentLoss.
Local Open Scope re_scope.

(** [r'_(\d+)_Chapter\.xhtml$'] *)
Definition xhtml_name_pattern : re :=
  Str (L "_") ;; Group 1 (Plus digit) ;; Str (L "_Chapter.xhtml") ;; Eos.

Definition get_chapter_number_from_xhtml (filename : str) : option Z :=
  match search false xhtml_name_pattern filename with
  | Some m => Some (int_of (m_group 1 m))
  | None => None
  end.

(** [re.search(r'ch(\d+)', filename)] and [int(match.group(1))] *)
Definition get_chapter_number_from_xml (filename : str) : option Z :=
  chapter_of_name filename.

(** An entry of the dictionary of [map_xhtml_to_xml_chapters]. *)
Record chapter_files := ChapterFiles { xhtml_chapter : Z; xml_files : list string }.

(** The grouping of the XML files by chapter, [xml_chapters], is built
    and not used. *)
Definition map_xhtml_to_xml_chapters (xhtml xml : dir) : gmap string chapter_files :=
  let xhtml_files := sorted (glob xhtml (L "*_Chapter.xhtml")) in
  let xml_files := sorted (glob xml (L "sect1.*.ch*.xml")) in
  let xml_chapters :=
    fold_left (fun (xml_chapters : gmap Z (list string)) xml_file =>
                 match truthy (get_chapter_number_from_xml (L xml_file)) with
                 | Some ch_num =>
                     <[ch_num := default [] (xml_chapters !! ch_num) ++ [xml_file]]>
                       xml_chapters
                 | None => xml_chapters
                 end)
              xml_files ∅ in
  fold_left (fun (mapping : gmap string chapter_files) xhtml_file =>
               match truthy (get_chapter_number_from_xhtml (L xhtml_file)) with
               | Some ch_num => <[xhtml_file := ChapterFiles ch_num []]> mapping
               | None => mapping
               end)
            xhtml_files ∅.

(** [f"sect1.9781071643624.ch{chapter_id:04d}s*.xml"], for [chapter_id >= 0] *)
Definition section_pattern (chapter_id : Z) : str :=
  L "sect1.9781071643624.ch" ++ fmt_0d 4 chapter_id ++ L "s*.xml".

(** ['<bibliography' in content or '<bibliomixed' in content] *)
Definition has_bibliography (content : str) : bool :=
  contains (L "<bibliography") content || contains (L "<bibliomixed") content.

(** The files are tried from the highest name down; one that cannot be
    read is passed over. *)
Definition find_xml_bibliography_file (xml : dir) (chapter_id : Z) : option string :=
  List.find (file_has xml has_bibliography)
            (rev (sorted (glob xml (section_pattern chapter_id)))).

(** [r'@.*\.(edu|com|org)'], where the period matches every character
    but the newline, and [r'Depression|Anxiety|Disorder|Symptom|Assessment'] *)
Definition address_pattern : re :=
  Str (L "@") ;; Star (not_char nl) ;; Str (L ".") ;;
  Group 1 (Alt (Str (L "edu")) (Alt (Str (L "com")) (Str (L "org")))).

Definition topic_pattern : re :=
  Alt (Str (L "Depression")) (Alt (Str (L "Anxiety")) (Alt (Str (L "Disorder"))
    (Alt (Str (L "Symptom")) (Str (L "Assessment"))))).

Definition has_garbled_keywords (content : str) : bool :=
  is_some (search false address_pattern content)
  && is_some (search false topic_pattern content).

Definition find_xml_keywords_file (xml : dir) (chapter_id : Z) : option string :=
  List.find (file_has xml has_garbled_keywords)
            (sorted (glob xml (section_pattern chapter_id))).











Section WithUnescape.
Variable unescape : str -> str.



End WithUnescape.

(** An entry of [indexterm_issues] with its file. *)
Record file_issue := FileIssue { issue_file : string; issue_found : issue }.

(** The body of [for xml_file in xml_files] of [verify_indexterm_fixes]. *)
Definition verify_file (out : dir) (indexterm_issues0 : list file_issue)
    (xml_file : string) : list file_issue :=
  match read_text out xml_file with
  | Ok content =>
      indexterm_issues0 ++ map (FileIssue xml_file) (indexterm_issues content)
  | Raise _ => indexterm_issues0
  end.

Definition verify_indexterm_fixes (out : dir) : list file_issue :=
  fold_left (verify_file out) (sorted (glob out (L "sect1.*.xml"))) [].

End ContentLossRun.

(** ** fix_remaining_bibliography.py: the run over the files *)

Module RemainingBibliographyRun.
Import Text Re Sys Common Listing FixRemainingBibliography.

Section WithDefaultEncoding.

(** [open(f).read()]: [main] opens the files without naming an
    encoding, so they are decoded with the encoding of the locale, while
    [fix_bibliography_file] reads the same files as UTF-8.  What the
    first way of reading returns is left open here. *)
Variable read_default : dir -> string -> res str.
Variable unescape : str -> str.




End WithDefaultEncoding.

End RemainingBibliographyRun.

(** ** fix_keywords.py: the files with garbled keywords *)

Module KeywordsRun.
Import Text Re Sys Common Listing FixKeywords.

Definition find_garbled_keywords_files (out : dir) : list string :=
  List.filter (file_has out is_garbled) (sorted (glob out (L "*.xml"))).

End KeywordsRun.

(** ** More notions of the properties *)

Module RunNotions.
Import Text Re Sys Common Listing Notions.

(** The number [extract_citations_from_xhtml] reads in a citation
    identifier: [re.search(r'CR(\d+)', cit_id)] and [int] of the group. *)
Definition citation_number (cit_id : str) : option Z :=
  match search false FixRemainingBibliography.cr_pattern cit_id with
  | Some cit_num_match => Some (int_of (m_group 1 cit_num_match))
  | None => None
  end.

(** A test that a text has no whitespace at either end. *)
Definition trimmedb (t : str) : bool :=
  match t with a :: _ => negb (is_space a) | [] => true end
  && match rev t with a :: _ => negb (is_space a) | [] => true end.

(** The files named in [names] are texts in [d], and the other files
    are those of [d0]. *)
Definition texts_in (names : list string) (d0 d : dir) : Prop :=
  (forall f, In f names -> exists content, d !! f = Some (TextFile content))
  /\ (forall g, ~ In g names -> d !! g = d0 !! g).

(** The last element of a list that passes a test. *)
Definition last_with {A : Type} (p : A -> bool) (l : list A) : option A :=
  List.find p (rev l).

(** What the parser has collected is clean: no identifier is empty, a
    citation is single-spaced and trimmed, a keyword is not empty and
    trimmed. *)
Definition clean_results (citations : gmap str str) (keywords : list str) : Prop :=
  (forall id text, citations !! id = Some text ->
     id <> [] /\ single_spaced text = true /\ trimmed text)
  /\ (forall k, In k keywords -> k <> [] /\ trimmed k).

(** An event that neither closes a [div] nor opens a citation. *)
Definition inside (e : CitationParser.event) : bool :=
  match e with
  | CitationParser.StartTag tag attrs =>
      negb (bool_decide (tag = L "div")
            && CitationParser.class_is attrs (L "CitationContent"))
  | CitationParser.EndTag tag => negb (bool_decide (tag = L "div"))
  | CitationParser.Data _ => true
  end.

(** The runs of text among the events. *)
Definition data_of (events : list CitationParser.event) : list str :=
  flat_map (fun e => match e with CitationParser.Data data => [data] | _ => [] end)
           events.

End RunNotions.

(** ** More example data *)

Module RunExamples.
Import Text Re Sys Common Notions Examples.

(** A source with two citations of the number 7. *)
Definition ex_two_sevens : str :=
  L "<div class=" ++ [dq] ++ L "CitationContent" ++ [dq] ++ L " id=" ++ [dq] ++ L "CR7"
  ++ [dq] ++ L ">First.</div>"
  ++ L "<div class=" ++ [dq] ++ L "CitationContent" ++ [dq] ++ L " id=" ++ [dq] ++ L "CR07"
  ++ [dq] ++ L ">Second.</div>".

Definition ex_garbled_edu : str :=
  L "<sect1info><para>lfelicia@uccs.edu Depression Dysthymia Mood</para></sect1info>".

(** The section files of chapter 8: one that cannot be read, one with
    the garbled keywords, two with a bibliography, and a file of another
    chapter. *)
Definition ex_sections : dir :=
  {[ "sect1.9781071643624.ch0008s0000.xml"%string := Undecodable;
     "sect1.9781071643624.ch0008s0001.xml"%string := TextFile ex_garbled_edu;
     "sect1.9781071643624.ch0008s0009.xml"%string := TextFile (ex_doc ex_short);
     "sect1.9781071643624.ch0008s0010.xml"%string := TextFile (ex_doc ex_full);
     "sect1.9781071643624.ch0009s0001.xml"%string := TextFile (ex_doc ex_short) ]}.

(** The events of a citation with a tag inside. *)
Definition ex_citation_attrs : list (str * option str) :=
  [(L "class", Some (L "CitationContent")); (L "id", Some (L "CR1"))].

Definition ex_citation_events : list CitationParser.event :=
  [CitationParser.Data (L "Smith,  J."); CitationParser.StartTag (L "em") [];
   CitationParser.Data (L " Mood "); CitationParser.EndTag (L "em");
   CitationParser.Data (L "2001. ")].

End RunExamples.

(** * Properties *)

(** ** Text *)

Module TextFacts.
Import Text.
Import Notions Examples.

Lemma eqc_true a b : eqc a b = true <-> a = b.
Proof. unfold eqc. apply Ascii.eqb_eq. Qed.

Lemma eqc_refl a : eqc a a = true.
Proof. apply eqc_true. reflexivity. Qed.

Lemma strip_prefix_spec p s r : strip_prefix eqc p s = Some r <-> s = p ++ r.
Proof.
  revert s. induction p as [|a p IH]; intros s; simpl.
  - split; [intros [= ->]; reflexivity | intros ->; reflexivity].
  - destruct s as [|b s]; [split; discriminate|].
    destruct (eqc a b) eqn:E.
    + apply eqc_true in E. subst b. rewrite IH. split; [intros ->; reflexivity|].
      intros [= ->]. reflexivity.
    + split; [discriminate|]. intros [= <- _]. rewrite eqc_refl in E. discriminate.
Qed.

Lemma strip_prefix_app p r : strip_prefix eqc p (p ++ r) = Some r.
Proof. apply strip_prefix_spec. reflexivity. Qed.

Lemma starts_with_spec p s : starts_with p s = true <-> exists r, s = p ++ r.
Proof.
  unfold starts_with. destruct (strip_prefix eqc p s) as [r|] eqn:E.
  - apply strip_prefix_spec in E. split; [eauto | reflexivity].
  - split; [discriminate|]. intros [r Hr]. apply strip_prefix_spec in Hr. congruence.
Qed.

(** Closes [~ In c l] for a constant list. *)
Ltac not_in := let H := fresh in intros H; vm_compute in H; intuition discriminate.

Lemma contains_spec sub s : contains sub s = true <-> exists a, occurs_at sub a s.
Proof.
  induction s as [|c s IH]; simpl.
  - rewrite orb_false_r, starts_with_spec. split.
    + intros [r Hr]. exists [], r. exact Hr.
    + intros [a [b Hb]]. destruct a; simpl in Hb; [eauto | discriminate].
  - rewrite orb_true_iff, starts_with_spec, IH. split.
    + intros [[r Hr] | [a [b Hb]]].
      * exists [], r. exact Hr.
      * exists (c :: a), b. simpl. congruence.
    + intros [[|c' a] [b Hb]]; simpl in Hb.
      * left. eauto.
      * right. injection Hb as -> Hb. exists a, b. exact Hb.
Qed.

(** [str.replace(old, new, 1)] passes a prefix in which [old] does not
    start. *)
Lemma replace_first_app old new x y :
  (forall a, length a < length x -> ~ occurs_at old a (x ++ y)) ->
  replace_first old new (x ++ y) = x ++ replace_first old new y.
Proof.
  induction x as [|c x IH]; intros H; [reflexivity|].
  simpl. destruct (strip_prefix eqc old (c :: x ++ y)) as [r|] eqn:E.
  - exfalso. apply (H []); [simpl; lia|]. exists r.
    apply strip_prefix_spec in E. exact E.
  - f_equal. apply IH. intros a Ha [b Hb]. apply (H (c :: a)); [simpl; lia|].
    exists b. simpl. congruence.
Qed.

Lemma replace_first_unfold old new s :
  replace_first old new s =
  match strip_prefix eqc old s with
  | Some rest => new ++ rest
  | None => match s with [] => [] | a :: s' => a :: replace_first old new s' end
  end.
Proof. destruct s; reflexivity. Qed.

Lemma replace_first_here old new r : replace_first old new (old ++ r) = new ++ r.
Proof. rewrite replace_first_unfold, strip_prefix_app. reflexivity. Qed.

Lemma replace_first_same x s : replace_first x x s = s.
Proof.
  induction s as [|c s IH]; simpl.
  - destruct (strip_prefix eqc x []) as [r|] eqn:E; [|reflexivity].
    apply strip_prefix_spec in E. symmetry. exact E.
  - destruct (strip_prefix eqc x (c :: s)) as [r|] eqn:E.
    + apply strip_prefix_spec in E. symmetry. exact E.
    + rewrite IH. reflexivity.
Qed.

(** The first occurrence, and only it, is replaced. *)
Lemma replace_first_first old new a b :
  (forall a', length a' < length a -> ~ occurs_at old a' (a ++ old ++ b)) ->
  replace_first old new (a ++ old ++ b) = a ++ new ++ b.
Proof.
  intros H. rewrite replace_first_app by exact H.
  rewrite replace_first_here. reflexivity.
Qed.

Lemma replace_first_absent old new s :
  contains old s = false -> replace_first old new s = s.
Proof.
  intros H. rewrite <- (app_nil_r s) at 1. rewrite replace_first_app.
  - simpl. destruct (strip_prefix eqc old []) as [r|] eqn:E.
    + apply strip_prefix_spec in E. exfalso.
      assert (contains old s = true); [|congruence].
      apply contains_spec. exists s, []. destruct old; [|discriminate].
      simpl. rewrite app_nil_r. reflexivity.
    + apply app_nil_r.
  - intros a _ Hocc. assert (contains old s = true); [|congruence].
    apply contains_spec. exists a. rewrite app_nil_r in Hocc. exact Hocc.
Qed.

Lemma no_earlier_spec old a s a' :
  no_earlier old a s = true -> length a' < length a -> ~ occurs_at old a' s.
Proof.
  unfold no_earlier. rewrite forallb_forall. intros H Hlen [b Hb].
  specialize (H (length a')). rewrite in_seq in H.
  assert (E : starts_with old (skipn (length a') s) = true).
  { apply starts_with_spec. exists b. rewrite Hb, skipn_app, Nat.sub_diag, skipn_all.
    reflexivity. }
  rewrite E in H. specialize (H ltac:(lia)). discriminate.
Qed.

(** After a replacement the new text is there. *)
Lemma replace_first_contains old new s :
  contains old s = true -> contains new (replace_first old new s) = true.
Proof.
  induction s as [|c s IH]; intros H.
  - simpl in *. destruct (strip_prefix eqc old []) as [r|] eqn:E.
    + apply contains_spec. exists [], r. reflexivity.
    + unfold starts_with in H. rewrite E in H. discriminate.
  - simpl in *. unfold starts_with in H.
    destruct (strip_prefix eqc old (c :: s)) as [r|] eqn:E.
    + apply contains_spec. exists [], r. reflexivity.
    + simpl in H. apply IH in H. apply contains_spec in H as [a [b Hb]].
      apply contains_spec. exists (c :: a), b. simpl. congruence.
Qed.



Lemma replace_char_absent c new s x :
  x <> c -> ~ In x new -> In x (replace_char c new s) -> In x s.
Proof.
  intros Hx Hnew. induction s as [|a s IH]; simpl; [tauto|].
  rewrite in_app_iff. intros [H|H]; [|right; auto].
  destruct (eqc a c); [contradiction|]. destruct H as [->|[]]. left. reflexivity.
Qed.

Lemma replace_char_gone c new s : ~ In c new -> ~ In c (replace_char c new s).
Proof.
  intros Hnew. induction s as [|a s IH]; simpl; [tauto|].
  rewrite in_app_iff. intros [H|H]; [|contradiction].
  destruct (eqc a c) eqn:E; [contradiction|]. destruct H as [->|[]].
  rewrite eqc_refl in E. discriminate.
Qed.

Lemma escape_no_lt s : ~ In "<"%char (escape s).
Proof.
  unfold escape. intros H.
  apply replace_char_absent in H; [|discriminate|vm_compute; intuition discriminate].
  apply replace_char_absent in H; [|discriminate|vm_compute; intuition discriminate].
  apply replace_char_absent in H; [|discriminate|vm_compute; intuition discriminate].
  revert H. apply replace_char_gone. vm_compute; intuition discriminate.
Qed.

End TextFacts.

(** ** The matcher *)

Module ReFacts.
Import Text Re TextFacts.
Import Notions Examples.

Lemma star_ms_suffix step : suffix_step step -> forall n, suffix_step (star_ms step n).
Proof.
  intros Hstep n. induction n as [|n IH]; intros s c x; simpl.
  - intros [<-|[]]. exists []. reflexivity.
  - rewrite in_app_iff, in_flat_map. intros [[y [Hy Hx]]|[<-|[]]].
    + destruct (length (fst y) <? length s); [|contradiction].
      apply Hstep in Hy as [w1 ->]. apply IH in Hx as [w2 Hw2].
      exists (w1 ++ w2). rewrite <- app_assoc. congruence.
    + exists []. reflexivity.
Qed.

Lemma lazy_ms_suffix step : suffix_step step -> forall n, suffix_step (lazy_ms step n).
Proof.
  intros Hstep n. induction n as [|n IH]; intros s c x; simpl.
  - intros [<-|[]]. exists []. reflexivity.
  - rewrite in_flat_map. intros [<-|[y [Hy Hx]]].
    + exists []. reflexivity.
    + destruct (length (fst y) <? length s); [|contradiction].
      apply Hstep in Hy as [w1 ->]. apply IH in Hx as [w2 Hw2].
      exists (w1 ++ w2). rewrite <- app_assoc. congruence.
Qed.

Lemma strip_prefix_suffix eq l s r :
  strip_prefix eq l s = Some r -> exists w, s = w ++ r.
Proof.
  revert s. induction l as [|a l IH]; intros s; simpl.
  - intros [= ->]. exists []. reflexivity.
  - destruct s as [|b s]; [discriminate|]. destruct (eq a b); [|discriminate].
    intros H. apply IH in H as [w ->]. exists (b :: w). reflexivity.
Qed.

Lemma ms_suffix ic r : suffix_step (ms ic r).
Proof.
  induction r; intros s c x; simpl.
  - intros [<-|[]]. exists []. reflexivity.
  - destruct (strip_prefix (lit_eq ic) l s) as [s'|] eqn:E; [|contradiction].
    intros [<-|[]]. simpl. eapply strip_prefix_suffix. exact E.
  - destruct s as [|a s]; [contradiction|]. intros [<-|[]]. exists [a]. reflexivity.
  - destruct s as [|a s]; [contradiction|].
    destruct (set_match ic items a); [|contradiction].
    intros [<-|[]]. exists [a]. reflexivity.
  - destruct s as [|a s]; [contradiction|].
    destruct (set_match ic items a); [contradiction|].
    intros [<-|[]]. exists [a]. reflexivity.
  - rewrite in_flat_map. intros [y [Hy Hx]].
    apply IHr1 in Hy as [w1 ->]. apply IHr2 in Hx as [w2 Hw2].
    exists (w1 ++ w2). rewrite <- app_assoc. congruence.
  - rewrite in_app_iff. intros [H|H]; [eapply IHr1 | eapply IHr2]; exact H.
  - apply star_ms_suffix. exact IHr.
  - rewrite in_flat_map. intros [y [Hy Hx]].
    apply IHr in Hy as [w1 ->].
    apply (star_ms_suffix _ IHr) in Hx as [w2 Hw2].
    exists (w1 ++ w2). rewrite <- app_assoc. congruence.
  - rewrite in_app_iff. intros [H|[<-|[]]]; [eapply IHr; exact H|].
    exists []. reflexivity.
  - apply lazy_ms_suffix. exact IHr.
  - rewrite in_map_iff. intros [y [<- Hy]]. simpl. eapply IHr. exact Hy.
  - destruct s as [|a [|b s]]; [intros [<-|[]]; exists []; reflexivity| |contradiction].
    destruct (eqc a nl); [|contradiction]. intros [<-|[]]. exists []. reflexivity.
Qed.

Lemma re_match_in ic r s x : re_match ic r s = Some x -> In x (ms ic r s []).
Proof.
  unfold re_match. destruct (ms ic r s []); simpl; [discriminate|].
  intros [= ->]. left. reflexivity.
Qed.

Lemma re_match_suffix ic r s rest c :
  re_match ic r s = Some (rest, c) -> exists w, s = w ++ rest.
Proof. intros H. apply re_match_in in H. apply ms_suffix in H. exact H. Qed.

(** When every match of [r] on [s] is the same, it is the one [re.match]
    returns. *)
Lemma re_match_unique ic r s x :
  In x (ms ic r s []) -> (forall y, In y (ms ic r s []) -> y = x) ->
  re_match ic r s = Some x.
Proof.
  unfold re_match. destruct (ms ic r s []) as [|y l]; simpl; [contradiction|].
  intros _ H. f_equal. apply H. left. reflexivity.
Qed.

Lemma re_match_none ic r s :
  (forall x, ~ In x (ms ic r s [])) -> re_match ic r s = None.
Proof.
  unfold re_match. destruct (ms ic r s []) as [|y l]; simpl; [reflexivity|].
  intros H. exfalso. apply (H y). left. reflexivity.
Qed.

(** *** Membership in the matches of each construct *)

Lemma ms_Str_in l s c x :
  In x (ms false (Str l) s c) <-> s = l ++ fst x /\ snd x = c.
Proof.
  simpl. change (lit_eq false) with eqc.
  destruct (strip_prefix eqc l s) as [s'|] eqn:E.
  - apply strip_prefix_spec in E. subst s. simpl. split.
    + intros [<-|[]]. simpl. auto.
    + intros [H1 H2]. apply app_inv_head in H1. left. destruct x; simpl in *; congruence.
  - split; [contradiction|]. intros [H1 H2]. apply strip_prefix_spec in H1. congruence.
Qed.

Lemma ms_Cat_in ic r1 r2 s c x :
  In x (ms ic (Cat r1 r2) s c) <->
  exists y, In y (ms ic r1 s c) /\ In x (ms ic r2 (fst y) (snd y)).
Proof. simpl. apply in_flat_map. Qed.

Lemma firstn_length_diff (w rest : str) :
  firstn (length (w ++ rest) - length rest) (w ++ rest) = w.
Proof.
  rewrite length_app. replace (length w + length rest - length rest) with (length w) by lia.
  rewrite firstn_app, Nat.sub_diag, firstn_all. simpl. apply app_nil_r.
Qed.

Lemma ms_Group_in ic n r s c x :
  In x (ms ic (Group n r) s c) <->
  exists w rest c', s = w ++ rest /\ In (rest, c') (ms ic r s c) /\ x = (rest, (n, w) :: c').
Proof.
  simpl. rewrite in_map_iff. split.
  - intros [[rest c'] [<- Hy]]. simpl.
    destruct (ms_suffix ic r s c _ Hy) as [w Hw]. simpl in Hw. subst s.
    exists w, rest, c'. rewrite firstn_length_diff. auto.
  - intros [w [rest [c' [-> [Hy ->]]]]]. exists (rest, c'). simpl.
    rewrite firstn_length_diff. auto.
Qed.

Lemma one_char_NSet ic items :
  one_char ic (NSet items) (fun a => negb (set_match ic items a)).
Proof. intros [|a s] c; simpl; [reflexivity|]. destruct (set_match ic items a); reflexivity. Qed.

Lemma one_char_Set ic items : one_char ic (Set_ items) (set_match ic items).
Proof. intros [|a s] c; reflexivity. Qed.

Lemma star_one_char_in ic r p n s c x :
  one_char ic r p -> length s <= n ->
  In x (star_ms (ms ic r) n s c) <->
  exists w, s = w ++ fst x /\ forallb p w = true /\ snd x = c.
Proof.
  intros Hr. revert s. induction n as [|n IH]; intros s Hn.
  - destruct s; [|simpl in Hn; lia]. simpl. split.
    + intros [<-|[]]. exists []. auto.
    + intros [w [Hw [_ Hc]]]. left. symmetry in Hw. apply app_eq_nil in Hw as [_ Hw].
      destruct x; simpl in *; congruence.
  - simpl. rewrite in_app_iff, in_flat_map. split.
    + intros [[y [Hy Hx]]|[<-|[]]]; [|exists []; auto].
      rewrite Hr in Hy. destruct s as [|a s]; [contradiction|].
      destruct (p a) eqn:Ep; [|contradiction]. destruct Hy as [<-|[]]. simpl in Hx.
      replace (length s <? S (length s)) with true in Hx
        by (symmetry; apply Nat.ltb_lt; lia).
      apply IH in Hx as [w [-> [Hw Hc]]]; [|simpl in Hn; lia].
      exists (a :: w). simpl. rewrite Ep. auto.
    + intros [[|a w] [-> [Hw Hc]]].
      * right. left. destruct x; simpl in *; congruence.
      * left. simpl in Hw. apply andb_true_iff in Hw as [Ep Hw].
        exists (w ++ fst x, c). rewrite Hr. simpl. rewrite Ep. split; [left; reflexivity|].
        replace (length (w ++ fst x) <? S (length (w ++ fst x))) with true
          by (symmetry; apply Nat.ltb_lt; lia).
        apply IH; [simpl in Hn; lia|]. exists w. auto.
Qed.

Lemma ms_Star_in ic r p s c x :
  one_char ic r p ->
  In x (ms ic (Star r) s c) <->
  exists w, s = w ++ fst x /\ forallb p w = true /\ snd x = c.
Proof. intros Hr. simpl. apply star_one_char_in; [exact Hr | lia]. Qed.

Lemma ms_Plus_in ic r p s c x :
  one_char ic r p ->
  In x (ms ic (Plus r) s c) <->
  exists w, s = w ++ fst x /\ w <> [] /\ forallb p w = true /\ snd x = c.
Proof.
  intros Hr. simpl. rewrite in_flat_map. split.
  - intros [y [Hy Hx]]. rewrite Hr in Hy. destruct s as [|a s]; [contradiction|].
    destruct (p a) eqn:Ep; [|contradiction]. destruct Hy as [<-|[]]. simpl in Hx.
    apply (star_one_char_in ic r p) in Hx as [w [-> [Hw Hc]]]; [|exact Hr|lia].
    exists (a :: w). simpl. rewrite Ep. repeat split; auto; discriminate.
  - intros [[|a w] [-> [Hne [Hw Hc]]]]; [contradiction|].
    simpl in Hw. apply andb_true_iff in Hw as [Ep Hw].
    exists (w ++ fst x, c). rewrite Hr. simpl. rewrite Ep. split; [left; reflexivity|].
    apply (star_one_char_in ic r p); [exact Hr|lia|]. exists w. auto.
Qed.

End ReFacts.

(** ** Scanning: [finditer] and [sub] *)

Module ScanFacts.
Import Text Re TextFacts ReFacts.
Import Notions Examples.

Lemma scan_skip ic r k pos s :
  k <= length s -> scan ic r k pos s = scan ic r 0 (pos + k) (skipn k s).
Proof.
  revert pos s. induction k as [|k IH]; intros pos s Hk.
  - rewrite Nat.add_0_r. reflexivity.
  - destruct s as [|a s]; [simpl in Hk; lia|]. simpl in Hk. simpl scan at 1.
    rewrite IH by lia. simpl skipn. f_equal. lia.
Qed.

Lemma sub_scan_skip ic r repl k s :
  k <= length s -> sub_scan ic r repl k s = sub_scan ic r repl 0 (skipn k s).
Proof.
  revert s. induction k as [|k IH]; intros s Hk; [reflexivity|].
  destruct s as [|a s]; [simpl in Hk; lia|]. simpl in Hk. simpl sub_scan at 1.
  rewrite IH by lia. reflexivity.
Qed.

Lemma scan_unfold ic r pos s :
  scan ic r 0 pos s =
  match re_match ic r s with
  | Some (rest, c) =>
      let n := length s - length rest in
      MObj pos (firstn n s) c ::
      match s with [] => [] | _ :: s' => scan ic r (pred n) (S pos) s' end
  | None => match s with [] => [] | _ :: s' => scan ic r 0 (S pos) s' end
  end.
Proof. destruct s; reflexivity. Qed.

Lemma sub_scan_unfold ic r repl s :
  sub_scan ic r repl 0 s =
  match re_match ic r s with
  | Some (rest, c) =>
      let n := length s - length rest in
      repl c ++
      match s with
      | [] => []
      | a :: s' => (if n =? 0 then [a] else []) ++ sub_scan ic r repl (pred n) s'
      end
  | None => match s with [] => [] | a :: s' => a :: sub_scan ic r repl 0 s' end
  end.
Proof. destruct s; reflexivity. Qed.

Lemma length_diff (w rest : str) : length (w ++ rest) - length rest = length w.
Proof. rewrite length_app. lia. Qed.

Lemma skipn_length_app (w rest : str) : skipn (length w) (w ++ rest) = rest.
Proof. rewrite skipn_app, Nat.sub_diag, skipn_all. reflexivity. Qed.

(** A match at the head of the text is reported, and the scan goes on
    after it. *)
Lemma scan_match ic r pos w rest c :
  re_match ic r (w ++ rest) = Some (rest, c) -> w <> [] ->
  scan ic r 0 pos (w ++ rest) = MObj pos w c :: scan ic r 0 (pos + length w) rest.
Proof.
  intros Hm Hw. rewrite scan_unfold, Hm. cbv zeta.
  rewrite firstn_length_diff, length_diff. f_equal.
  destruct w as [|b w]; [contradiction|]. simpl.
  rewrite scan_skip by (rewrite length_app; lia).
  rewrite skipn_length_app. f_equal. lia.
Qed.

Lemma scan_nomatch ic r pos a s :
  re_match ic r (a :: s) = None ->
  scan ic r 0 pos (a :: s) = scan ic r 0 (S pos) s.
Proof. intros H. simpl. rewrite H. reflexivity. Qed.

Lemma scan_end ic r pos : re_match ic r [] = None -> scan ic r 0 pos [] = [].
Proof. intros H. simpl. rewrite H. reflexivity. Qed.

Lemma sub_scan_match ic r repl w rest c :
  re_match ic r (w ++ rest) = Some (rest, c) -> w <> [] ->
  sub_scan ic r repl 0 (w ++ rest) = repl c ++ sub_scan ic r repl 0 rest.
Proof.
  intros Hm Hw. rewrite sub_scan_unfold, Hm. cbv zeta.
  rewrite length_diff. f_equal.
  destruct w as [|b w]; [contradiction|]. simpl.
  rewrite sub_scan_skip by (rewrite length_app; lia).
  rewrite skipn_length_app. reflexivity.
Qed.

Lemma sub_scan_nomatch ic r repl a s :
  re_match ic r (a :: s) = None ->
  sub_scan ic r repl 0 (a :: s) = a :: sub_scan ic r repl 0 s.
Proof. intros H. simpl. rewrite H. reflexivity. Qed.

Lemma sub_scan_end ic r repl : re_match ic r [] = None -> sub_scan ic r repl 0 [] = [].
Proof. intros H. simpl. rewrite H. reflexivity. Qed.

Lemma scan_shift ic r d : forall s k pos,
  scan ic r k (pos + d) s = map (shift d) (scan ic r k pos s).
Proof.
  induction s as [|a s IH]; intros k pos.
  - destruct k; [|reflexivity]. simpl. destruct (re_match ic r []) as [[rest c]|]; reflexivity.
  - destruct k as [|k].
    + simpl. destruct (re_match ic r (a :: s)) as [[rest c]|].
      * cbn [map]. f_equal. apply (IH _ (S pos)).
      * apply (IH _ (S pos)).
    + simpl. apply (IH _ (S pos)).
Qed.

(** Every reported match is a match of the pattern where it starts. *)
Lemma scan_in ic r m : nonempty ic r ->
  forall n pos s, length s <= n -> In m (scan ic r 0 pos s) ->
  exists pre rest, s = pre ++ m_whole m ++ rest
    /\ m_start m = pos + length pre
    /\ m_whole m <> []
    /\ re_match ic r (m_whole m ++ rest) = Some (rest, m_caps m).
Proof.
  intros Hne n. induction n as [|n IH]; intros pos s Hn Hin.
  - destruct s; [|simpl in Hn; lia]. simpl in Hin.
    destruct (re_match ic r []) as [[rest c]|] eqn:E; [|contradiction].
    apply Hne in E. simpl in E. lia.
  - destruct (re_match ic r s) as [[rest c]|] eqn:E.
    + pose proof (Hne _ _ _ E) as Hlen.
      destruct (re_match_suffix _ _ _ _ _ E) as [w ->].
      assert (Hw : w <> []) by (intros ->; simpl in Hlen; lia).
      rewrite (scan_match _ _ _ _ _ _ E Hw) in Hin. destruct Hin as [<-|Hin].
      * exists [], rest. simpl. rewrite Nat.add_0_r. auto.
      * apply IH in Hin as [pre [rest' [-> [Hs [Hw' Hm]]]]].
        -- exists (w ++ pre), rest'. rewrite <- app_assoc, length_app.
           repeat split; auto. lia.
        -- rewrite length_app in Hn. destruct w; [contradiction|]. simpl in Hn. lia.
    + destruct s as [|a s]; [rewrite scan_end in Hin by exact E; contradiction|].
      rewrite scan_nomatch in Hin by exact E.
      apply IH in Hin as [pre [rest' [-> [Hs [Hw' Hm]]]]]; [|simpl in Hn; lia].
      exists (a :: pre), rest'. simpl. repeat split; auto. lia.
Qed.

Lemma finditer_in ic r m s : nonempty ic r -> In m (finditer ic r s) ->
  exists pre rest, s = pre ++ m_whole m ++ rest
    /\ m_start m = length pre
    /\ m_whole m <> []
    /\ re_match ic r (m_whole m ++ rest) = Some (rest, m_caps m).
Proof.
  intros Hne Hin. apply (scan_in ic r m Hne (length s) 0 s) in Hin; [|lia].
  exact Hin.
Qed.

(** Without a match anywhere there is nothing to report and [sub] changes
    nothing. *)
Lemma scan_none ic r : forall s pos,
  (forall a b, s = a ++ b -> re_match ic r b = None) -> scan ic r 0 pos s = [].
Proof.
  induction s as [|c s IH]; intros pos H.
  - apply scan_end. apply (H [] []). reflexivity.
  - rewrite scan_nomatch by (apply (H [] (c :: s)); reflexivity).
    apply IH. intros a b ->. apply (H (c :: a) b). reflexivity.
Qed.

Lemma sub_scan_none ic r repl : forall s,
  (forall a b, s = a ++ b -> re_match ic r b = None) -> sub_scan ic r repl 0 s = s.
Proof.
  induction s as [|c s IH]; intros H.
  - apply sub_scan_end. apply (H [] []). reflexivity.
  - rewrite sub_scan_nomatch by (apply (H [] (c :: s)); reflexivity).
    f_equal. apply IH. intros a b ->. apply (H (c :: a) b). reflexivity.
Qed.

Lemma scan_gap ic r g t pos :
  gap ic r g t -> scan ic r 0 pos (g ++ t) = scan ic r 0 (pos + length g) t.
Proof.
  revert pos. induction g as [|x g IH]; intros pos H.
  - simpl. rewrite Nat.add_0_r. reflexivity.
  - cbn [app]. rewrite scan_nomatch by (apply (H [] (x :: g)); [reflexivity|discriminate]).
    rewrite IH.
    + replace (pos + length (x :: g)) with (S pos + length g) by (simpl; lia).
      reflexivity.
    + intros a b -> Hb. apply (H (x :: a) b); [reflexivity|exact Hb].
Qed.

Lemma sub_scan_gap ic r repl g t :
  gap ic r g t -> sub_scan ic r repl 0 (g ++ t) = g ++ sub_scan ic r repl 0 t.
Proof.
  induction g as [|x g IH]; intros H; [reflexivity|].
  cbn [app]. rewrite sub_scan_nomatch
    by (apply (H [] (x :: g)); [reflexivity|discriminate]).
  f_equal. apply IH. intros a b -> Hb. apply (H (x :: a) b); [reflexivity|exact Hb].
Qed.

(** A text has no match at all, or a first match after a gap. *)
Lemma first_match ic r : nonempty ic r -> forall s,
  (forall a b, s = a ++ b -> re_match ic r b = None)
  \/ exists g w rest c, s = g ++ w ++ rest /\ w <> []
       /\ re_match ic r (w ++ rest) = Some (rest, c) /\ gap ic r g (w ++ rest).
Proof.
  intros Hne. induction s as [|x s IH].
  - left. intros a b E. symmetry in E. apply app_eq_nil in E as [_ ->].
    destruct (re_match ic r []) as [[rest c]|] eqn:E; [|reflexivity].
    apply Hne in E. simpl in E. lia.
  - destruct (re_match ic r (x :: s)) as [[rest c]|] eqn:E.
    + right. pose proof (Hne _ _ _ E) as Hlen.
      destruct (re_match_suffix _ _ _ _ _ E) as [w Hw].
      exists [], w, rest, c. rewrite <- Hw. repeat split; auto.
      * intros ->. simpl in Hw. subst. lia.
      * intros a b Hab Hb. symmetry in Hab. apply app_eq_nil in Hab as [_ ->].
        contradiction.
    + destruct IH as [IH|[g [w [rest [c [-> [Hw [Hm Hg]]]]]]]].
      * left. intros [|y a] b Hab; simpl in Hab.
        -- subst b. exact E.
        -- injection Hab as _ ->. apply (IH a b). reflexivity.
      * right. exists (x :: g), w, rest, c. repeat split; auto.
        intros [|y a] b Hab Hb; simpl in Hab.
        -- subst b. exact E.
        -- injection Hab as _ ->. apply (Hg a b); [reflexivity|exact Hb].
Qed.

(** A pattern that opens with a literal whose first character does not
    come back in it cannot match across the end of a text free of that
    literal: the scan passes such a text. *)
Lemma match_needs_literal l r s :
  starts_with l s = false -> re_match false (Cat (Str l) r) s = None.
Proof.
  intros H. apply re_match_none. intros x Hx.
  apply ms_Cat_in in Hx as [y [Hy _]]. apply ms_Str_in in Hy as [Hy _].
  assert (starts_with l s = true); [|congruence].
  apply starts_with_spec. eauto.
Qed.

Lemma literal_not_across (c : ascii) (l' pre t : str) x :
  ~ In c l' -> contains (c :: l') (x :: pre) = false ->
  starts_with (c :: l') (x :: pre ++ c :: t) = false.
Proof.
  intros Hc Hpre. destruct (starts_with _ (x :: pre ++ c :: t)) eqn:E; [|reflexivity].
  exfalso. apply starts_with_spec in E as [r E]. simpl in E. injection E as -> E.
  apply app_eq_app in E as [l0 [[El E]|[El E]]].
  - subst pre. assert (contains (c :: l') (c :: l' ++ l0) = true); [|congruence].
    apply contains_spec. exists [], l0. reflexivity.
  - destruct l0 as [|d l0].
    + rewrite app_nil_r in El. subst l'.
      assert (contains (c :: pre) (c :: pre) = true); [|congruence].
      apply contains_spec. exists [], []. simpl. rewrite app_nil_r. reflexivity.
    + simpl in E. injection E as <- _. apply Hc. rewrite El, in_app_iff.
      right. left. reflexivity.
Qed.

Lemma scan_no_literal l r s pos :
  contains l s = false -> scan false (Cat (Str l) r) 0 pos s = [].
Proof.
  intros H. apply scan_none. intros a b ->. apply match_needs_literal.
  destruct (starts_with l b) eqn:E; [|reflexivity].
  apply starts_with_spec in E as [t ->].
  assert (contains l (a ++ l ++ t) = true); [|congruence].
  apply contains_spec. exists a, t. reflexivity.
Qed.

Lemma scan_pass_prefix (c : ascii) (l' : str) r pre t pos :
  ~ In c l' -> contains (c :: l') pre = false ->
  scan false (Cat (Str (c :: l')) r) 0 pos (pre ++ c :: t)
  = scan false (Cat (Str (c :: l')) r) 0 (pos + length pre) (c :: t).
Proof.
  intros Hc. revert pos. induction pre as [|x pre IH]; intros pos Hpre.
  - simpl. rewrite Nat.add_0_r. reflexivity.
  - cbn [app]. rewrite scan_nomatch.
    + rewrite IH;
        [replace (pos + length (x :: pre)) with (S pos + length pre)
           by (simpl; lia); reflexivity|].
      simpl in Hpre. apply orb_false_iff in Hpre as [_ Hpre]. exact Hpre.
    + apply match_needs_literal. apply literal_not_across; assumption.
Qed.

End ScanFacts.

(** ** The bibliography entry pattern *)

Module BibFacts.
Import Text Re Common TextFacts ReFacts ScanFacts.
Import FixContentLoss.
Import Notions Examples.

Lemma new_entry_entry id full : new_entry id full = entry id (escape full).
Proof. reflexivity. Qed.

Lemma pure_text_escape full : pure_text (escape full).
Proof. apply escape_no_lt. Qed.

Lemma forallb_not_char c w :
  forallb (fun a => negb (set_match false [IChar c] a)) w = true <-> ~ In c w.
Proof.
  induction w as [|a w IH]; simpl; [tauto|].
  rewrite andb_true_iff, IH, orb_false_r, orb_false_r.
  destruct (eqc c a) eqn:E; simpl.
  - apply eqc_true in E. subst a. split; [intros [? _]; discriminate | tauto].
  - split; [|tauto]. intros [_ H] [->|H']; [|tauto].
    rewrite eqc_refl in E. discriminate.
Qed.

(** Two splits of a text at a character the left parts do not contain. *)
Lemma split_unique (c : ascii) (a a' b b' : str) :
  ~ In c a -> ~ In c a' -> a ++ c :: b = a' ++ c :: b' -> a = a' /\ b = b'.
Proof.
  revert a'. induction a as [|x a IH]; intros [|x' a'] Ha Ha' H; simpl in *.
  - injection H as ->. auto.
  - injection H as <- _. tauto.
  - injection H as -> _. tauto.
  - injection H as <- H. apply IH in H as [-> ->]; tauto.
Qed.

Lemma split_first (c : ascii) (a b x z : str) :
  ~ In c a -> a ++ c :: b = x ++ c :: z ->
  (x = a /\ z = b) \/ exists w, x = a ++ c :: w /\ b = w ++ c :: z.
Proof.
  revert x. induction a as [|y a IH]; intros [|y' x] Ha H; simpl in *.
  - injection H as ->. auto.
  - injection H as <- ->. right. exists x. auto.
  - injection H as -> _. tauto.
  - injection H as <- H. apply IH in H as [[-> ->]|[w [-> ->]]]; [auto| |tauto].
    right. exists w. auto.
Qed.

Ltac norm :=
  unfold entry, opener, closer, L;
  repeat (rewrite <- ?app_assoc; cbn [app fst snd list_ascii_of_string]).

(** The matches of the pattern at the head of a text. *)
Lemma bib_ms_in s x :
  In x (ms false bibliomixed_pattern s []) <->
  exists id txt, s = entry id txt ++ fst x /\ valid_id id /\ pure_text txt
    /\ snd x = [(2, txt); (1, id)].
Proof.
  unfold bibliomixed_pattern. rewrite ms_Cat_in. split.
  - intros [y1 [H1 H]]. apply ms_Str_in in H1 as [-> Hc1].
    apply ms_Cat_in in H as [y2 [H2 H]].
    apply ms_Group_in in H2 as [id [r2 [c2 [E2 [H2 ->]]]]].
    apply (ms_Plus_in _ _ _ _ _ _ (one_char_NSet false [IChar dq])) in H2
      as [id' [E2' [Hne [Hid Hc2]]]].
    simpl in E2', Hc2. rewrite E2 in E2'. apply app_inv_tail in E2'. subst id'.
    apply ms_Cat_in in H as [y3 [H3 H]]. simpl fst in H3. simpl snd in H3.
    apply ms_Str_in in H3 as [-> Hc3].
    apply ms_Cat_in in H as [y4 [H4 H]].
    apply ms_Group_in in H4 as [txt [r4 [c4 [E4 [H4 ->]]]]].
    apply (ms_Star_in _ _ _ _ _ _ (one_char_NSet false [IChar "<"%char])) in H4
      as [txt' [E4' [Htxt Hc4]]].
    simpl in E4', Hc4. rewrite E4 in E4'. apply app_inv_tail in E4'. subst txt'.
    simpl fst in H. simpl snd in H. apply ms_Str_in in H as [-> Hc5].
    exists id, txt. rewrite E2, E4. apply forallb_not_char in Hid, Htxt.
    split; [norm; reflexivity|].
    unfold valid_id, pure_text; repeat split; auto; congruence.
  - intros [id [txt [-> [[Hne Hid] [Htxt Hc]]]]]. unfold entry.
    exists (id ++ dq :: L ">" ++ txt ++ closer ++ fst x, []). split.
    { apply ms_Str_in. split; [norm|]; reflexivity. }
    apply ms_Cat_in. exists (dq :: L ">" ++ txt ++ closer ++ fst x, [(1, id)]). split.
    { apply ms_Group_in. exists id, (dq :: L ">" ++ txt ++ closer ++ fst x), [].
      repeat split; auto.
      apply (ms_Plus_in _ _ _ _ _ _ (one_char_NSet false [IChar dq])).
      exists id. split; [reflexivity|]. split; [exact Hne|].
      split; [|reflexivity]. apply forallb_not_char. exact Hid. }
    apply ms_Cat_in. exists (txt ++ closer ++ fst x, [(1, id)]). split.
    { apply ms_Str_in. auto. }
    apply ms_Cat_in. exists (closer ++ fst x, [(2, txt); (1, id)]). split.
    { apply ms_Group_in. exists txt, (closer ++ fst x), [(1, id)].
      repeat split; auto.
      apply (ms_Star_in _ _ _ _ _ _ (one_char_NSet false [IChar "<"%char])).
      exists txt. split; [reflexivity|]. split; [|reflexivity].
      apply forallb_not_char. exact Htxt. }
    apply ms_Str_in. auto.
Qed.

(** An entry is read off a text in one way only. *)
Lemma entry_unique id txt r id' txt' r' :
  ~ In dq id -> pure_text txt -> ~ In dq id' -> pure_text txt' ->
  entry id txt ++ r = entry id' txt' ++ r' -> id = id' /\ txt = txt' /\ r = r'.
Proof.
  intros Hid Htxt Hid' Htxt' H. unfold entry in H.
  repeat (rewrite <- ?app_assoc in H; cbn [app] in H).
  apply app_inv_head in H. apply split_unique in H as [-> H]; auto.
  apply app_inv_head in H.
  change closer with ("<"%char :: L "/bibliomixed>") in H. cbn [app] in H.
  apply split_unique in H as [-> H]; auto. apply app_inv_head in H. auto.
Qed.

(** [re.match] with the pattern: exactly the entries that are one text
    node. *)
Lemma bib_match_spec s rest c :
  re_match false bibliomixed_pattern s = Some (rest, c) <->
  exists id txt, s = entry id txt ++ rest /\ valid_id id /\ pure_text txt
    /\ c = [(2, txt); (1, id)].
Proof.
  split.
  - intros H. apply re_match_in in H. apply bib_ms_in in H. exact H.
  - intros [id [txt [-> [Hid [Htxt ->]]]]]. apply re_match_unique.
    + apply bib_ms_in. exists id, txt. auto.
    + intros [r' c'] Hy. apply bib_ms_in in Hy as [id' [txt' [E [Hid' [Htxt' Hc']]]]].
      simpl in E, Hc'. destruct Hid as [_ Hid], Hid' as [_ Hid'].
      apply entry_unique in E as [-> [-> ->]]; auto. congruence.
Qed.

Lemma bib_match_entry id txt rest :
  valid_id id -> pure_text txt ->
  re_match false bibliomixed_pattern (entry id txt ++ rest)
  = Some (rest, [(2, txt); (1, id)]).
Proof. intros Hid Htxt. apply bib_match_spec. exists id, txt. auto. Qed.

Lemma entry_length id txt : 31 <= length (entry id txt).
Proof. unfold entry. rewrite !length_app. simpl. rewrite !length_app. simpl. lia. Qed.

Lemma bib_nonempty : nonempty false bibliomixed_pattern.
Proof.
  intros s rest c H. apply bib_match_spec in H as [id [txt [-> _]]].
  rewrite length_app. pose proof (entry_length id txt). lia.
Qed.


(** *** Where an entry can occur *)

Lemma entry_head id txt :
  entry id txt = "<"%char :: entry_body id txt ++ "<"%char :: L "/bibliomixed>".
Proof.
  unfold entry, entry_body, opener, closer.
  repeat (rewrite <- ?app_assoc; cbn [app L list_ascii_of_string]). reflexivity.
Qed.

Lemma entry_body_pure id txt : pure_text id -> pure_text txt -> pure_text (entry_body id txt).
Proof.
  unfold pure_text, entry_body. intros Hid Htxt H.
  rewrite !in_app_iff in H. cbn [In] in H. rewrite in_app_iff in H.
  destruct H as [H|[[H|[]]|[H|[H|[H|H]]]]]; try discriminate H; try tauto;
    revert H; not_in.
Qed.

(** Inside an entry whose identifier has no [<], the only [<] after the
    first opens the closing tag. *)
Lemma entry_lt id txt x z :
  pure_text id -> pure_text txt ->
  entry id txt = x ++ "<"%char :: z -> x <> [] -> z = L "/bibliomixed>".
Proof.
  intros Hid Htxt E Hx. rewrite entry_head in E.
  destruct x as [|c x]; [contradiction|]. cbn [app] in E.
  apply (f_equal (@tl ascii)) in E. cbn [tl] in E.
  apply split_first in E as [[_ ->]|[w [_ E]]]; [reflexivity| |].
  - exfalso. assert (H : In "<"%char (L "/bibliomixed>"))
      by (rewrite E, in_app_iff; right; left; reflexivity).
    revert H. not_in.
  - apply entry_body_pure; assumption.
Qed.

Lemma entry_second id txt t : entry id txt ++ t = "<"%char :: "b"%char :: skipn 2 (entry id txt ++ t).
Proof. reflexivity. Qed.

(** An entry does not start inside a gap: it would either be a match in
    the gap or run over the [<] that ends the gap. *)
Lemma gap_no_occurrence g t t' id1 txt1 a :
  gap false bibliomixed_pattern g t ->
  valid_id id1 -> pure_text id1 -> pure_text txt1 ->
  length a < length g ->
  ~ occurs_at (entry id1 txt1) a (g ++ "<"%char :: "b"%char :: t').
Proof.
  intros Hg Hv Hid Htxt Hlen [b E].
  apply app_eq_app in E as [l0 [[Eg E]|[Ea E]]].
  - (* g = a ++ l0 *)
    assert (Hl0 : l0 <> []) by (intros ->; rewrite app_nil_r in Eg; subst; lia).
    apply app_eq_app in E as [l1 [[E1 E2]|[E1 E2]]].
    + (* entry = l0 ++ l1: the entry runs to the end of the gap or over it *)
      destruct l1 as [|c l1].
      * rewrite app_nil_r in E1. specialize (Hg a l0 Eg Hl0). rewrite <- E1 in Hg.
        rewrite bib_match_entry in Hg by assumption. discriminate.
      * simpl in E2. injection E2 as <- E2.
        apply entry_lt in E1; auto. subst l1. discriminate.
    + (* l0 = entry ++ l1: the entry lies in the gap *)
      specialize (Hg a l0 Eg Hl0). rewrite E1, <- app_assoc in Hg.
      rewrite bib_match_entry in Hg by assumption. discriminate.
  - (* a = g ++ l0 *)
    subst a. rewrite length_app in Hlen. lia.
Qed.

(** Inside an entry another entry can only start at its head, and then
    it is that entry. *)
Lemma entry_occurrence id' txt' y id1 txt1 a :
  ~ In dq id' -> pure_text id' -> pure_text txt' ->
  ~ In dq id1 -> pure_text txt1 ->
  length a < length (entry id' txt') ->
  occurs_at (entry id1 txt1) a (entry id' txt' ++ y) ->
  a = [] /\ id1 = id' /\ txt1 = txt'.
Proof.
  intros Hq' Hid' Htxt' Hq1 Htxt1 Hlen [b E].
  destruct a as [|c a].
  - simpl in E. apply entry_unique in E as [-> [-> _]]; auto.
  - exfalso. apply app_eq_app in E as [l0 [[Ee E]|[Ea E]]].
    + assert (Hl0 : l0 <> []) by (intros ->; rewrite app_nil_r in Ee; rewrite Ee in Hlen; lia).
      rewrite (entry_second id1 txt1 b) in E.
      destruct l0 as [|d l0]; [contradiction|]. cbn [app] in E. injection E as <- E.
      apply entry_lt in Ee; auto; try discriminate. subst l0. discriminate.
    + rewrite Ea, length_app in Hlen. lia.
Qed.

End BibFacts.

(** ** The truncation test in integers *)

Module FloatFacts.
Import Float.
Import Notions Examples.
Local Open Scope Z_scope.

Lemma round_shift_bounds m sh :
  0 <= m -> 0 <= sh ->
  2 * m - 2 ^ sh <= 2 * (round_shift m sh * 2 ^ sh) <= 2 * m + 2 ^ sh.
Proof.
  intros Hm Hsh. unfold round_shift.
  assert (HP : 0 < 2 ^ sh) by (apply Z.pow_pos_nonneg; lia).
  pose proof (Z.div_mod m (2 ^ sh) ltac:(lia)) as Hdm.
  pose proof (Z.mod_pos_bound m (2 ^ sh) HP) as Hr.
  set (P := 2 ^ sh) in *. set (q := m / P) in *. set (r := m mod P) in *.
  destruct (2 * r <? P) eqn:E1; [apply Z.ltb_lt in E1; nia|].
  apply Z.ltb_ge in E1.
  destruct (P <? 2 * r) eqn:E2; [apply Z.ltb_lt in E2; nia|].
  apply Z.ltb_ge in E2.
  destruct (Z.even q); nia.
Qed.

(** Below [2^31] the rounded product compares with an integer as the
    exact seven tenths do. *)
Lemma int_lt_mul07 a n :
  0 <= a -> 0 <= n < 2 ^ 31 -> int_lt a (mul07 n) = (10 * a <? 7 * n).
Proof.
  intros Ha Hn. unfold mul07, int_lt.
  set (m := n * m07). set (sh := Z.max 0 (Z.log2 m + 1 - 53)).
  assert (Hm : 0 <= m < 2 ^ 84) by (unfold m, m07; lia).
  assert (Hsh : 0 <= sh <= 31).
  { unfold sh. destruct (Z.eq_dec m 0) as [->|Hm0]; [simpl; lia|].
    assert (Z.log2 m < 84) by (apply Z.log2_lt_pow2; lia). lia. }
  pose proof (round_shift_bounds m sh ltac:(lia) ltac:(lia)) as Hq.
  set (q := round_shift m sh) in *.
  replace (0 <=? sh - 53) with false by (symmetry; apply Z.leb_gt; lia).
  replace (- (sh - 53)) with (53 - sh) by lia.
  assert (HPQ : 2 ^ (53 - sh) * 2 ^ sh = 2 ^ 53)
    by (rewrite <- Z.pow_add_r by lia; f_equal; lia).
  assert (HP : 0 < 2 ^ sh <= 2 ^ 31)
    by (split; [apply Z.pow_pos_nonneg; lia | apply Z.pow_le_mono_r; lia]).
  set (P := 2 ^ sh) in *. set (Q := 2 ^ (53 - sh)) in *.
  assert (HU : a * Q * P = a * 2 ^ 53) by (rewrite <- Z.mul_assoc, HPQ; reflexivity).
  assert (H10 : 10 * m = 7 * (n * 2 ^ 53) - 4 * n) by (unfold m, m07; lia).
  destruct (Z.ltb_spec (a * Q) q) as [H1|H1];
    destruct (Z.ltb_spec (10 * a) (7 * n)) as [H2|H2]; try reflexivity; exfalso.
  - assert (HV : (a * Q + 1) * P <= q * P) by (apply Z.mul_le_mono_nonneg_r; lia).
    lia.
  - assert (HV : q * P <= a * Q * P) by (apply Z.mul_le_mono_nonneg_r; lia).
    lia.
Qed.

Lemma lt_07_spec (la lb : nat) :
  Z.of_nat lb < 2 ^ 31 -> lt_07 la lb = (10 * la <? 7 * lb)%nat.
Proof.
  intros H. unfold lt_07. rewrite int_lt_mul07 by lia.
  destruct (Z.ltb_spec (10 * Z.of_nat la) (7 * Z.of_nat lb));
    destruct (Nat.ltb_spec (10 * la) (7 * lb)); try reflexivity; lia.
Qed.

End FloatFacts.

(** ** The bibliography loops *)

Module BibLoop.
Import Text Re Sys Common TextFacts ReFacts ScanFacts BibFacts.
Import FixContentLoss.
Import Notions Examples.

Lemma bib_file_step_spec citations content n m :
  FixRemainingBibliography.bib_file_step citations (content, n) m =
  match corrupted_file citations (m_group 1 m) (m_group 2 m) with
  | Some full =>
      (replace_first (m_whole m) (new_entry (m_group 1 m) full) content, S n)
  | None => (content, n)
  end.
Proof.
  unfold FixRemainingBibliography.bib_file_step, corrupted_file, bib_number.
  change FixRemainingBibliography.bib_num_pattern with bib_num_pattern.
  destruct (search false bib_num_pattern (m_group 1 m)); [|reflexivity].
  destruct (citations !! _); [|reflexivity].
  destruct (Float.lt_07 _ _); reflexivity.
Qed.

Lemma bib_content_step_spec citations content fixes m :
  bib_content_step citations (content, fixes) m =
  match corrupted_content citations (m_group 1 m) (m_group 2 m) with
  | Some full =>
      (replace_first (m_whole m) (new_entry (m_group 1 m) full) content,
       fixes ++ [BibFix (m_group 1 m) (preview 100 (m_group 2 m)) (preview 100 full)])
  | None => (content, fixes)
  end.
Proof.
  unfold bib_content_step, corrupted_content, bib_number.
  destruct (search false bib_num_pattern (m_group 1 m)); [|reflexivity].
  destruct (first_citation _ _); [|reflexivity].
  destruct (Float.lt_07 _ _); reflexivity.
Qed.

(** A loop whose every turn leaves the state alone leaves it alone. *)
Lemma fold_left_id {A B} (f : A -> B -> A) (l : list B) (a : A) :
  (forall x, In x l -> f a x = a) -> fold_left f l a = a.
Proof.
  induction l as [|x l IH]; intros H; simpl; [reflexivity|].
  rewrite (H x) by (left; reflexivity). apply IH. intros y Hy. apply H. right. exact Hy.
Qed.

(** *** The loop replaces in place

    [classify id txt] is the clean text for a region to be replaced.  In
    a text whose reported identifiers have no [<], replacing the first
    occurrence of each such region in turn is the substitution of every
    region where it stands, [re.sub] with a function of the match. *)

Section InPlace.

Variable classify : str -> str -> option str.

Hypothesis classify_fun : forall id t1 t2 f1 f2,
  classify id t1 = Some f1 -> classify id t2 = Some f2 -> f1 = f2.

Lemma safe_nil : safe_prefix classify [].
Proof. intros id txt full y _ _ _ _. reflexivity. Qed.

Lemma safe_extend p g t id' txt' :
  safe_prefix classify p -> gap false bibliomixed_pattern g t ->
  valid_id id' -> pure_text id' -> pure_text txt' ->
  (classify id' txt' = None
   \/ exists full' t0, txt' = escape full' /\ classify id' t0 = Some full') ->
  safe_prefix classify (p ++ g ++ entry id' txt').
Proof.
  intros Hp Hg [_ Hq'] Hid' Htxt' Hcls id txt full y Hv Hid Htxt Hc.
  rewrite <- !app_assoc. rewrite (Hp id txt full _ Hv Hid Htxt Hc). f_equal.
  rewrite replace_first_app.
  2:{ intros a Ha. rewrite (entry_second id' txt' y).
      apply (gap_no_occurrence g t); assumption. }
  f_equal.
  destruct (decide (entry id txt = entry id' txt')) as [E|E].
  - assert (E' : entry id txt ++ [] = entry id' txt' ++ []) by (rewrite E; reflexivity).
    destruct Hv as [_ Hq].
    apply entry_unique in E' as [-> [-> _]]; auto.
    destruct Hcls as [Hn|[full' [t0 [-> Hc']]]]; [congruence|].
    rewrite (classify_fun _ _ _ _ _ Hc Hc'), new_entry_entry.
    rewrite !replace_first_same. reflexivity.
  - apply replace_first_app. intros a Ha Hocc. destruct Hv as [_ Hq].
    apply entry_occurrence in Hocc as [_ [-> ->]]; auto.
Qed.

Lemma clean_ids_first g id txt rest c pos :
  gap false bibliomixed_pattern g (entry id txt ++ rest) ->
  re_match false bibliomixed_pattern (entry id txt ++ rest) = Some (rest, c) ->
  scan false bibliomixed_pattern 0 pos (g ++ entry id txt ++ rest)
  = MObj (pos + length g) (entry id txt) c
    :: scan false bibliomixed_pattern 0 (pos + length g + length (entry id txt)) rest.
Proof.
  intros Hg Hm. rewrite scan_gap by exact Hg.
  rewrite (scan_match _ _ _ _ _ _ Hm); [reflexivity|].
  intros E. pose proof (entry_length id txt) as H. rewrite E in H. simpl in H. lia.
Qed.

Lemma clean_ids_rest g id txt rest c :
  gap false bibliomixed_pattern g (entry id txt ++ rest) ->
  re_match false bibliomixed_pattern (entry id txt ++ rest) = Some (rest, c) ->
  clean_ids (g ++ entry id txt ++ rest) -> clean_ids rest.
Proof.
  intros Hg Hm H pos m Hin.
  replace pos with (0 + pos) in Hin by lia. rewrite scan_shift in Hin.
  apply in_map_iff in Hin as [m0 [<- Hin]].
  apply (H 0 (shift (length g + length (entry id txt)) m0)).
  rewrite (clean_ids_first g id txt rest c 0 Hg Hm). right.
  replace (0 + length g + length (entry id txt))
    with (0 + (length g + length (entry id txt))) by lia.
  rewrite scan_shift. apply in_map. exact Hin.
Qed.

Lemma in_place_fold n : forall s p pos,
  length s <= n -> safe_prefix classify p -> clean_ids s ->
  fold_left (loop_step classify) (scan false bibliomixed_pattern 0 pos s) (p ++ s)
  = p ++ sub_scan false bibliomixed_pattern (in_place_repl classify) 0 s.
Proof.
  induction n as [|n IH]; intros s p pos Hn Hp Hclean.
  - destruct s; [|simpl in Hn; lia].
    rewrite scan_none, sub_scan_none; [reflexivity| |];
      intros a b E; symmetry in E; apply app_eq_nil in E as [_ ->];
      apply re_match_none; intros x Hx; apply bib_ms_in in Hx as [id [txt [E _]]];
      pose proof (entry_length id txt) as Hl;
      apply (f_equal (@length ascii)) in E; rewrite length_app in E; simpl in E; lia.
  - destruct (first_match false bibliomixed_pattern bib_nonempty s)
      as [Hnone|[g [w [rest [c [-> [Hw [Hm Hg]]]]]]]].
    + rewrite scan_none, sub_scan_none by exact Hnone. reflexivity.
    + pose proof Hm as Hm'.
      apply bib_match_spec in Hm' as [id [txt [E [Hv [Htxt ->]]]]].
      apply app_inv_tail in E. subst w.
      assert (Hid : pure_text id).
      { apply (Hclean 0 (MObj (0 + length g) (entry id txt) [(2, txt); (1, id)])).
        rewrite (clean_ids_first g id txt rest _ 0 Hg Hm). left. reflexivity. }
      pose proof (clean_ids_rest g id txt rest _ Hg Hm Hclean) as Hrest.
      assert (Hlen : length rest <= n).
      { rewrite !length_app in Hn. pose proof (entry_length id txt). lia. }
      rewrite (clean_ids_first g id txt rest _ pos Hg Hm).
      rewrite (sub_scan_gap _ _ _ _ _ Hg), (sub_scan_match _ _ _ _ _ _ Hm Hw).
      cbn [fold_left]. unfold loop_step at 2, in_place_repl.
      change (m_group 1 (MObj (pos + length g) (entry id txt) [(2, txt); (1, id)]))
        with id.
      change (m_group 2 (MObj (pos + length g) (entry id txt) [(2, txt); (1, id)]))
        with txt.
      change (group_or_empty 1 [(2, txt); (1, id)]) with id.
      change (group_or_empty 2 [(2, txt); (1, id)]) with txt.
      cbn [m_whole].
      destruct (classify id txt) as [full|] eqn:Ec.
      * rewrite (Hp id txt full _ Hv Hid Htxt Ec).
        rewrite replace_first_app.
        2:{ intros a Ha. rewrite (entry_second id txt rest).
            apply (gap_no_occurrence g (entry id txt ++ rest)); assumption. }
        rewrite replace_first_here.
        replace (p ++ g ++ new_entry id full ++ rest)
          with ((p ++ g ++ new_entry id full) ++ rest)
          by (rewrite <- !app_assoc; reflexivity).
        rewrite (IH rest _ _ Hlen); [rewrite <- !app_assoc; reflexivity| |exact Hrest].
        rewrite new_entry_entry.
        apply (safe_extend p g (entry id txt ++ rest)); auto.
        -- apply pure_text_escape.
        -- right. exists full, txt. auto.
      * replace (p ++ g ++ entry id txt ++ rest)
          with ((p ++ g ++ entry id txt) ++ rest)
          by (rewrite <- !app_assoc; reflexivity).
        rewrite (IH rest _ _ Hlen); [rewrite <- !app_assoc; reflexivity| |exact Hrest].
        apply (safe_extend p g (entry id txt ++ rest)); auto.
Qed.

Lemma in_place_loop content :
  (forall m, In m (finditer false bibliomixed_pattern content) -> pure_text (m_group 1 m)) ->
  fold_left (loop_step classify) (finditer false bibliomixed_pattern content) content
  = in_place classify content.
Proof.
  intros H. unfold finditer, in_place, sub.
  apply (in_place_fold (length content) content [] 0); [lia|exact safe_nil|].
  intros pos m Hin. replace pos with (0 + pos) in Hin by lia. rewrite scan_shift in Hin.
  apply in_map_iff in Hin as [m0 [<- Hin]]. apply (H m0). exact Hin.
Qed.

End InPlace.

(** Both loops are instances. *)
Lemma corrupted_file_fun citations id t1 t2 f1 f2 :
  corrupted_file citations id t1 = Some f1 ->
  corrupted_file citations id t2 = Some f2 -> f1 = f2.
Proof.
  unfold corrupted_file. destruct (bib_number id); [|discriminate].
  destruct (citations !! z); [|discriminate].
  destruct (Float.lt_07 _ _), (Float.lt_07 _ _); congruence.
Qed.

Lemma corrupted_content_fun citations id t1 t2 f1 f2 :
  corrupted_content citations id t1 = Some f1 ->
  corrupted_content citations id t2 = Some f2 -> f1 = f2.
Proof.
  unfold corrupted_content. destruct (bib_number id); [|discriminate].
  destruct (first_citation _ _); [|discriminate].
  destruct (Float.lt_07 _ _), (Float.lt_07 _ _); congruence.
Qed.

Lemma fold_file_steps citations matches : forall content n,
  fold_left (FixRemainingBibliography.bib_file_step citations) matches (content, n)
  = (fold_left (loop_step (corrupted_file citations)) matches content,
     n + length (replaced (corrupted_file citations) matches)).
Proof.
  induction matches as [|m matches IH]; intros content n; cbn [fold_left].
  - simpl. f_equal. lia.
  - rewrite bib_file_step_spec. unfold loop_step at 2, replaced. cbn [List.filter].
    fold (replaced (corrupted_file citations) matches).
    destruct (corrupted_file citations (m_group 1 m) (m_group 2 m)); cbn [is_some];
      rewrite IH; f_equal; simpl; lia.
Qed.

Lemma fold_content_steps citations matches : forall content fixes,
  fst (fold_left (bib_content_step citations) matches (content, fixes))
  = fold_left (loop_step (corrupted_content citations)) matches content
  /\ length (snd (fold_left (bib_content_step citations) matches (content, fixes)))
    = length fixes + length (replaced (corrupted_content citations) matches).
Proof.
  induction matches as [|m matches IH]; intros content fixes; cbn [fold_left].
  - simpl. split; [reflexivity | lia].
  - rewrite bib_content_step_spec. unfold loop_step at 2, replaced. cbn [List.filter].
    fold (replaced (corrupted_content citations) matches).
    destruct (corrupted_content citations (m_group 1 m) (m_group 2 m)) as [full|];
      cbn [is_some].
    + destruct (IH (replace_first (m_whole m) (new_entry (m_group 1 m) full) content)
                   (fixes ++ [BibFix (m_group 1 m) (preview 100 (m_group 2 m))
                                     (preview 100 full)])) as [H1 H2].
      rewrite H1, H2, length_app. simpl. split; [reflexivity | lia].
    + destruct (IH content fixes) as [H1 H2]. rewrite H1, H2. split; [reflexivity | lia].
Qed.

End BibLoop.

(** ** The cleaning steps *)

Module CleaningFacts.
Import Text Re Common Citations TextFacts ReFacts ScanFacts BibFacts.
Import Notions Examples.

(** *** Whitespace *)

Lemma take_skip p s : take_while p s ++ skip_while p s = s.
Proof.
  induction s as [|a s IH]; simpl; [reflexivity|].
  destruct (p a); simpl; [rewrite IH|]; reflexivity.
Qed.

(** Greedy repetition of a one-character pattern takes the longest run
    first. *)
Lemma star_one_char_head ic r p n : one_char ic r p -> forall s c,
  length s <= n -> head (star_ms (ms ic r) n s c) = Some (skip_while p s, c).
Proof.
  intros Hr. induction n as [|n IH]; intros s c Hn.
  - destruct s; [reflexivity | simpl in Hn; lia].
  - simpl. rewrite Hr. destruct s as [|a s]; [reflexivity|].
    simpl. destruct (p a); [|reflexivity]. simpl.
    replace (length s <? S (length s)) with true by (symmetry; apply Nat.ltb_lt; lia).
    rewrite app_nil_r. specialize (IH s c ltac:(simpl in Hn; lia)).
    destruct (star_ms (ms ic r) n s c); simpl in *; [discriminate | exact IH].
Qed.

Lemma plus_one_char_match ic r p s : one_char ic r p ->
  re_match ic (Plus r) s =
  match s with
  | a :: s' => if p a then Some (skip_while p s', []) else None
  | [] => None
  end.
Proof.
  intros Hr. unfold re_match. simpl. rewrite Hr.
  destruct s as [|a s]; [reflexivity|]. destruct (p a); [|reflexivity].
  simpl. rewrite app_nil_r. apply star_one_char_head; [exact Hr | lia].
Qed.

Lemma set_match_space a : set_match false [ISpace] a = is_space a.
Proof. simpl. rewrite !orb_false_r. reflexivity. Qed.

Lemma one_char_space : one_char false space is_space.
Proof.
  intros s c. unfold space. rewrite (one_char_Set false [ISpace]).
  destruct s as [|a s]; [reflexivity|]. rewrite set_match_space. reflexivity.
Qed.

Lemma squeeze_run s : squeeze true s = squeeze false (skip_while is_space s).
Proof.
  induction s as [|a s IH]; [reflexivity|]. simpl.
  destruct (is_space a) eqn:E; [exact IH|]. simpl. rewrite E. reflexivity.
Qed.

Lemma sub_spaces s : sub false spaces_pattern to_space s = squeeze false s.
Proof.
  unfold sub, spaces_pattern.
  remember (length s) as n eqn:Hn. assert (Hle : length s <= n) by lia. clear Hn.
  revert s Hle. induction n as [|n IH]; intros s Hle.
  - destruct s; [|simpl in Hle; lia]. apply sub_scan_end.
    rewrite (plus_one_char_match _ _ _ _ one_char_space). reflexivity.
  - destruct s as [|a s]; [apply sub_scan_end;
      rewrite (plus_one_char_match _ _ _ _ one_char_space); reflexivity|].
    pose proof (plus_one_char_match false space is_space (a :: s) one_char_space) as Hm.
    simpl in Hm. simpl squeeze. destruct (is_space a) eqn:E.
    + rewrite <- (take_skip is_space s) in Hm at 1.
      change (a :: take_while is_space s ++ skip_while is_space s)
        with ((a :: take_while is_space s) ++ skip_while is_space s) in Hm.
      rewrite <- (take_skip is_space s) at 1.
      change (a :: take_while is_space s ++ skip_while is_space s)
        with ((a :: take_while is_space s) ++ skip_while is_space s).
      rewrite (sub_scan_match _ _ _ _ _ _ Hm) by discriminate.
      rewrite IH, squeeze_run; [reflexivity|].
      assert (length (skip_while is_space s) <= length s)
        by (rewrite <- (take_skip is_space s) at 2; rewrite length_app; lia).
      simpl in Hle. lia.
    + rewrite sub_scan_nomatch by exact Hm. rewrite IH by (simpl in Hle; lia).
      reflexivity.
Qed.

Lemma squeeze_spaced s : forall in_run,
  single_spaced (squeeze in_run s) = true
  /\ (in_run = true ->
      match squeeze in_run s with b :: _ => is_space b = false | [] => True end).
Proof.
  induction s as [|a s IH]; intros in_run; simpl; [auto|].
  destruct (is_space a) eqn:E.
  - destruct (IH true) as [H1 H2]. destruct in_run.
    + split; [exact H1 | intros _; apply H2; reflexivity].
    + split; [|discriminate]. simpl. rewrite H1, andb_true_r.
      specialize (H2 eq_refl). destruct (squeeze true s); [reflexivity|].
      rewrite H2. reflexivity.
  - destruct (IH false) as [H1 _]. simpl. rewrite E, H1. simpl. auto.
Qed.

Lemma single_spaced_tail a t : single_spaced (a :: t) = true -> single_spaced t = true.
Proof. simpl. intros H. apply andb_true_iff in H. tauto. Qed.

Lemma single_spaced_suffix x y : single_spaced (x ++ y) = true -> single_spaced y = true.
Proof.
  induction x as [|a x IH]; [auto|]. intros H. apply IH.
  apply (single_spaced_tail a). exact H.
Qed.

Lemma single_spaced_prefix x y : single_spaced (x ++ y) = true -> single_spaced x = true.
Proof.
  induction x as [|a x IH]; [reflexivity|]. simpl. intros H.
  apply andb_true_iff in H as [H1 H2]. rewrite (IH H2), andb_true_r.
  destruct (is_space a); [|reflexivity]. simpl in *.
  apply andb_true_iff in H1 as [-> H1]. simpl.
  destruct x as [|b x]; [reflexivity|]. exact H1.
Qed.

Lemma lstrip_suffix s : exists w, s = w ++ lstrip s.
Proof.
  induction s as [|a s [w IH]]; [exists []; reflexivity|]. simpl.
  destruct (is_space a); [|exists []; reflexivity].
  exists (a :: w). simpl. f_equal. exact IH.
Qed.

Lemma lstrip_head s a t : lstrip s = a :: t -> is_space a = false.
Proof.
  induction s as [|b s IH]; simpl; [discriminate|].
  destruct (is_space b) eqn:E; [exact IH|]. intros [= <- _]. exact E.
Qed.

Lemma rstrip_prefix s : exists w, s = rstrip s ++ w.
Proof.
  unfold rstrip. destruct (lstrip_suffix (rev s)) as [w Hw].
  exists (rev w). rewrite <- rev_app_distr, <- Hw, rev_involutive. reflexivity.
Qed.

Lemma strip_trimmed s : trimmed (strip s).
Proof.
  unfold strip. split.
  - intros a t' E. destruct (rstrip_prefix (lstrip s)) as [w Hw].
    rewrite E in Hw. simpl in Hw. apply (lstrip_head s a (t' ++ w)). exact Hw.
  - intros a t' E. unfold rstrip in E.
    apply (f_equal (@rev ascii)) in E. rewrite rev_involutive, rev_app_distr in E.
    simpl in E. apply (lstrip_head _ _ _ E).
Qed.

Lemma strip_spaced s : single_spaced s = true -> single_spaced (strip s) = true.
Proof.
  intros H. unfold strip.
  destruct (lstrip_suffix s) as [w1 H1]. destruct (rstrip_prefix (lstrip s)) as [w2 H2].
  rewrite H1 in H. apply single_spaced_suffix in H. rewrite H2 in H.
  apply single_spaced_prefix in H. exact H.
Qed.

(** The text after the whitespace steps is in normal form, whatever came
    before. *)
Lemma clean_markup_spaced c :
  single_spaced (clean_markup c) = true /\ trimmed (clean_markup c).
Proof.
  unfold clean_markup. split; [|apply strip_trimmed].
  apply strip_spaced. rewrite sub_spaces. apply (squeeze_spaced _ false).
Qed.

(** *** Tags *)

Lemma lower_not_lt c : in_range "a" "z" c = true -> c <> "<"%char /\ c <> ">"%char.
Proof. intros H. split; intros ->; discriminate. Qed.

Lemma tag_body_pure b : tag_body b -> ~ In "<"%char b /\ ~ In ">"%char b.
Proof.
  intros [c [attrs [[->| ->] [Hc [H1 H2]]]]]; apply lower_not_lt in Hc as [Hc1 Hc2];
    simpl; split; intros H; intuition (congruence || discriminate).
Qed.

(** At every [<] of a well-tagged text a tag begins, and what follows
    the tag is well tagged. *)
Lemma wt_at_lt s : well_tagged s -> forall x y,
  s = x ++ "<"%char :: y ->
  exists b s', y = b ++ ">"%char :: s' /\ tag_body b /\ well_tagged s'.
Proof.
  induction 1 as [|a s Ha Hs IH|b s Hb Hs IH]; intros x y E.
  - destruct x; discriminate.
  - destruct x as [|c x]; simpl in E; injection E as -> E; [contradiction|].
    apply (IH x y E).
  - destruct x as [|c x]; simpl in E.
    + injection E as E. exists b, s. auto.
    + injection E as _ E'. destruct (tag_body_pure b Hb) as [Hlt Hgt].
      apply app_eq_app in E' as [l [[E1 E2]|[E1 E2]]].
      * destruct l as [|d l].
        -- simpl in E2. discriminate.
        -- simpl in E2. injection E2 as <- E2. exfalso. apply Hlt.
           rewrite E1, in_app_iff. right. left. reflexivity.
      * destruct l as [|d l]; simpl in E2.
        -- discriminate.
        -- injection E2 as _ E2. apply (IH l y E2).
Qed.

Lemma wt_after_close s x name rest :
  well_tagged s -> ~ In ">"%char name ->
  s = x ++ ("<"%char :: "/"%char :: name) ++ ">"%char :: rest -> well_tagged rest.
Proof.
  intros Hs Hname E. cbn [app] in E.
  destruct (wt_at_lt s Hs x _ E) as [b [s' [E' [Hb Hs']]]].
  destruct (tag_body_pure b Hb) as [_ Hgt].
  change ("/"%char :: name ++ ">"%char :: rest)
    with (("/"%char :: name) ++ ">"%char :: rest) in E'.
  apply split_unique in E' as [_ ->]; [exact Hs'| |exact Hgt].
  intros [H|H]; [discriminate|contradiction].
Qed.

Lemma wt_app_pure w s : pure_text w -> well_tagged s -> well_tagged (w ++ s).
Proof.
  unfold pure_text. induction w as [|a w IH]; intros Hw Hs; [exact Hs|].
  simpl. apply wt_text.
  - intros ->. apply Hw. left. reflexivity.
  - apply IH; [|exact Hs]. intros H. apply Hw. right. exact H.
Qed.

(** A substitution keeps a text well tagged when its pattern only
    matches at a [<], ends its matches where a tag ends, and writes text
    without [<]. *)
Lemma sub_well_tagged r repl :
  (forall a s, a <> "<"%char -> re_match false r (a :: s) = None) ->
  re_match false r [] = None ->
  (forall s rest c, well_tagged s -> re_match false r s = Some (rest, c) ->
     well_tagged rest /\ pure_text (repl c) /\ length rest < length s) ->
  forall s, well_tagged s -> well_tagged (sub false r repl s).
Proof.
  intros Hlt Hnil Hm s. unfold sub.
  remember (length s) as n eqn:Hn. assert (Hle : length s <= n) by lia. clear Hn.
  revert s Hle. induction n as [|n IH]; intros s Hle Hs.
  - destruct s; [|simpl in Hle; lia]. rewrite sub_scan_end by exact Hnil. constructor.
  - destruct (re_match false r s) as [[rest c]|] eqn:E.
    + destruct (Hm s rest c Hs E) as [Hrest [Hpure Hlen]].
      destruct (re_match_suffix _ _ _ _ _ E) as [w ->].
      rewrite (sub_scan_match _ _ _ _ _ _ E)
        by (intros ->; simpl in Hlen; lia).
      apply wt_app_pure; [exact Hpure|]. apply IH; [lia|exact Hrest].
    + inversion Hs as [|a s' Ha Hs' Es|b s' Hb Hs' Es]; subst s.
      * rewrite sub_scan_end by exact Hnil. constructor.
      * rewrite sub_scan_nomatch by exact E. apply wt_text; [exact Ha|].
        apply IH; [simpl in Hle; lia | exact Hs'].
      * rewrite sub_scan_nomatch by exact E.
        change (b ++ ">"%char :: s') with (b ++ [">"%char] ++ s').
        rewrite app_assoc. rewrite sub_scan_gap.
        -- rewrite <- app_assoc. apply wt_tag; [exact Hb|].
           apply IH; [|exact Hs']. simpl in Hle. rewrite length_app in Hle.
           simpl in Hle. lia.
        -- intros a0 b0 Eg Hb0. destruct b0 as [|d b0]; [contradiction|].
           apply Hlt. intros ->. destruct (tag_body_pure b Hb) as [Hb1 _].
           assert (Hin : In "<"%char (b ++ [">"%char]))
             by (rewrite Eg, in_app_iff; right; left; reflexivity).
           rewrite in_app_iff in Hin. destruct Hin as [Hin|[Hin|[]]];
             [contradiction|discriminate].
Qed.

(** *** The patterns of the cleaning steps *)

Lemma lit_guard l r :
  (forall a s, a <> "<"%char -> re_match false (Cat (Str ("<"%char :: l)) r) (a :: s) = None)
  /\ re_match false (Cat (Str ("<"%char :: l)) r) [] = None.
Proof.
  split.
  - intros a s Ha. apply match_needs_literal. unfold starts_with.
    cbn [strip_prefix].
    destruct (eqc "<" a) eqn:E; [|reflexivity]. apply eqc_true in E. congruence.
  - apply match_needs_literal. reflexivity.
Qed.

Lemma ms_last_lit r l : last_lit r = Some l -> forall s c x,
  In x (ms false r s c) -> exists w, s = w ++ l ++ fst x.
Proof.
  induction r; try discriminate; simpl last_lit.
  - intros [= ->] s c x Hx. apply ms_Str_in in Hx as [-> _]. exists []. reflexivity.
  - intros Hl s c x Hx. apply ms_Cat_in in Hx as [y [Hy Hx]].
    apply ms_suffix in Hy as [w1 ->]. apply (IHr2 Hl) in Hx as [w2 ->].
    exists (w1 ++ w2). rewrite <- app_assoc. reflexivity.
Qed.

(** A pattern that ends with a closing tag ends its matches, in a
    well-tagged text, in front of a well-tagged text. *)
Lemma close_well_tagged r name s rest c :
  last_lit r = Some (("<"%char :: "/"%char :: name) ++ [">"%char]) ->
  ~ In ">"%char name ->
  well_tagged s -> re_match false r s = Some (rest, c) ->
  well_tagged rest /\ length rest < length s.
Proof.
  intros Hl Hname Hs Hm. apply re_match_in in Hm.
  apply (ms_last_lit r _ Hl) in Hm as [w E]. simpl fst in E. split.
  - apply (wt_after_close s w name rest Hs Hname). rewrite E, <- app_assoc. reflexivity.
  - rewrite E, !length_app. simpl. lia.
Qed.

Lemma ms_Opt_in ic r s c x :
  In x (ms ic (Opt r) s c) <-> In x (ms ic r s c) \/ x = (s, c).
Proof. simpl. rewrite in_app_iff. simpl. intuition congruence. Qed.

Lemma ms_one_char_in ic r p s c x : one_char ic r p ->
  In x (ms ic r s c) <-> exists a, s = a :: fst x /\ p a = true /\ snd x = c.
Proof.
  intros Hr. rewrite Hr. destruct s as [|a s].
  - split; [contradiction|]. intros [a [E _]]. discriminate.
  - destruct (p a) eqn:Ep; simpl.
    + split.
      * intros [<-|[]]. exists a. auto.
      * intros [a' [[= <- ->] [_ Hc]]]. left. destruct x; simpl in *; congruence.
    + split; [contradiction|]. intros [a' [[= <- _] [Hp _]]]. congruence.
Qed.

Lemma wrapper_group tag s x :
  In x (ms false (wrapper_pattern tag) s []) ->
  exists w, snd x = [(1, w)] /\ pure_text w.
Proof.
  unfold wrapper_pattern. intros H.
  apply ms_Cat_in in H as [y1 [H1 H]]. apply ms_Str_in in H1 as [_ Hc1].
  apply ms_Cat_in in H as [y2 [H2 H]].
  apply (ms_Star_in _ _ _ _ _ _ (one_char_NSet false [IChar ">"%char])) in H2
    as [a [_ [_ Hc2]]].
  apply ms_Cat_in in H as [y3 [H3 H]]. apply ms_Str_in in H3 as [_ Hc3].
  apply ms_Cat_in in H as [y4 [H4 H]].
  apply ms_Group_in in H4 as [w [r4 [c4 [E4 [H4 ->]]]]].
  apply (ms_Star_in _ _ _ _ _ _ (one_char_NSet false [IChar "<"%char])) in H4
    as [w' [E4' [Hp Hc4]]].
  simpl fst in E4'. simpl snd in Hc4. rewrite E4 in E4'.
  apply app_inv_tail in E4'. subst w'.
  simpl fst in H. simpl snd in H. apply ms_Str_in in H as [_ Hc5].
  exists w. apply forallb_not_char in Hp. split; [congruence | exact Hp].
Qed.

Lemma wt_refsource s :
  well_tagged s -> well_tagged (sub false refsource_pattern to_empty s).
Proof.
  apply sub_well_tagged;
    try apply (lit_guard (L "span class=" ++ [dq] ++ L "RefSource" ++ [dq] ++ L ">")).
  intros s0 rest c Hs Hm.
  destruct (close_well_tagged refsource_pattern (L "span") s0 rest c
              eq_refl ltac:(not_in) Hs Hm).
  repeat split; auto. unfold pure_text, to_empty. simpl. tauto.
Qed.

Lemma wt_occurrence s :
  well_tagged s -> well_tagged (sub false occurrence_pattern to_empty s).
Proof.
  apply sub_well_tagged;
    try apply (lit_guard (L "span class=" ++ [dq] ++ L "Occurrence")).
  intros s0 rest c Hs Hm.
  destruct (close_well_tagged occurrence_pattern (L "span") s0 rest c
              eq_refl ltac:(not_in) Hs Hm).
  repeat split; auto. unfold pure_text, to_empty. simpl. tauto.
Qed.

Lemma wt_wrapper (tag : string) s :
  ~ In ">"%char (L tag) ->
  well_tagged s -> well_tagged (sub false (wrapper_pattern tag) to_group1 s).
Proof.
  intros Htag.
  apply sub_well_tagged; try apply (lit_guard (L tag)).
  intros s0 rest c Hs Hm.
  assert (Hl : last_lit (wrapper_pattern tag)
               = Some (("<"%char :: "/"%char :: L tag) ++ [">"%char]))
    by reflexivity.
  destruct (close_well_tagged _ (L tag) s0 rest c Hl Htag Hs Hm).
  repeat split; auto.
  apply re_match_in, wrapper_group in Hm as [w [Hc Hw]]. simpl in Hc. subst c.
  exact Hw.
Qed.

(** The tag pattern takes, at a tag, the tag and nothing more. *)
Lemma set_match_lower a : set_match false [IRange "a" "z"] a = in_range "a" "z" a.
Proof. simpl. rewrite !orb_false_r. reflexivity. Qed.

Lemma one_char_lower : one_char false (Set_ [IRange "a" "z"]) (in_range "a" "z").
Proof.
  intros s c. rewrite (one_char_Set false [IRange "a" "z"]).
  destruct s as [|a s]; [reflexivity|]. rewrite set_match_lower. reflexivity.
Qed.

Lemma tag_ms_in s x :
  In x (ms false tag_pattern s []) <->
  exists c w, (s = "<"%char :: c :: w ++ ">"%char :: fst x
               \/ s = "<"%char :: "/"%char :: c :: w ++ ">"%char :: fst x)
    /\ in_range "a" "z" c = true /\ ~ In ">"%char w /\ snd x = [].
Proof.
  unfold tag_pattern. rewrite ms_Cat_in. split.
  - intros [y1 [H1 H]]. apply ms_Str_in in H1 as [E1 Hc1].
    apply ms_Cat_in in H as [y2 [H2 H]]. apply ms_Opt_in in H2.
    apply ms_Cat_in in H as [y3 [H3 H]].
    apply (ms_one_char_in _ _ _ _ _ _ one_char_lower) in H3 as [c [E3 [Hlow Hc3]]].
    apply ms_Cat_in in H as [y4 [H4 H]].
    apply (ms_Star_in _ _ _ _ _ _ (one_char_NSet false [IChar ">"%char])) in H4
      as [w [E4 [Hw Hc4]]].
    apply ms_Str_in in H as [E5 Hc5]. apply forallb_not_char in Hw.
    exists c, w. split; [|repeat split; auto].
    + destruct H2 as [H2| ->].
      * apply ms_Str_in in H2 as [E2 Hc2]. right.
        rewrite E1, E2, E3, E4, E5. reflexivity.
      * left. simpl fst in E3. rewrite E1, E3, E4, E5. reflexivity.
    + destruct H2 as [H2| ->]; [apply ms_Str_in in H2 as [_ Hc2]|]; simpl in *; congruence.
  - intros [c [w [E [Hlow [Hw Hc]]]]].
    assert (Htail : forall t, t = c :: w ++ ">"%char :: fst x ->
              In x (ms false (Set_ [IRange "a" "z"] ;; Star (not_char ">") ;; Str (L ">"))%re
                      t [])).
    { intros t ->. apply ms_Cat_in. exists (w ++ ">"%char :: fst x, []). split.
      - apply (ms_one_char_in _ _ _ _ _ _ one_char_lower). exists c. auto.
      - apply ms_Cat_in. exists (">"%char :: fst x, []). split.
        + apply (ms_Star_in _ _ _ _ _ _ (one_char_NSet false [IChar ">"%char])).
          exists w. split; [reflexivity|]. split; [|reflexivity].
          apply forallb_not_char. exact Hw.
        + apply ms_Str_in. auto. }
    destruct E as [-> | ->].
    + exists (c :: w ++ ">"%char :: fst x, []). split; [apply ms_Str_in; auto|].
      apply ms_Cat_in. exists (c :: w ++ ">"%char :: fst x, []). split.
      * apply ms_Opt_in. right. reflexivity.
      * apply Htail. reflexivity.
    + exists ("/"%char :: c :: w ++ ">"%char :: fst x, []). split; [apply ms_Str_in; auto|].
      apply ms_Cat_in. exists (c :: w ++ ">"%char :: fst x, []). split.
      * apply ms_Opt_in. left. apply ms_Str_in. auto.
      * apply Htail. reflexivity.
Qed.

Lemma tag_match b s :
  tag_body b -> re_match false tag_pattern ("<"%char :: b ++ ">"%char :: s) = Some (s, []).
Proof.
  intros Hb. destruct (tag_body_pure b Hb) as [_ Hgt].
  apply re_match_unique.
  - apply tag_ms_in. destruct Hb as [c [attrs [[->| ->] [Hc [_ Ha]]]]];
      exists c, attrs; auto.
  - intros [r c0] Hy. apply tag_ms_in in Hy as [c [w [E [Hlow [Hw Hc]]]]].
    simpl in E, Hc. subst c0. f_equal.
    apply lower_not_lt in Hlow as [_ Hc2].
    destruct E as [E|E]; injection E as E.
    + change (c :: w ++ ">"%char :: r) with ((c :: w) ++ ">"%char :: r) in E.
      apply split_unique in E as [_ ->]; auto. intros [H|H]; congruence.
    + change ("/"%char :: c :: w ++ ">"%char :: r)
        with (("/"%char :: c :: w) ++ ">"%char :: r) in E.
      apply split_unique in E as [_ ->]; auto. intros [H|[H|H]]; congruence.
Qed.

(** Stripping the tags of a well-tagged text leaves no [<]. *)
Lemma strip_tags_pure s :
  well_tagged s -> pure_text (sub false tag_pattern to_empty s).
Proof.
  unfold sub, pure_text. induction 1 as [|a s Ha Hs IH|b s Hb Hs IH].
  - rewrite sub_scan_end by (apply (lit_guard [])). simpl. tauto.
  - rewrite sub_scan_nomatch by (apply (lit_guard []); exact Ha).
    intros [H|H]; [congruence | contradiction].
  - change ("<"%char :: b ++ ">"%char :: s) with (("<"%char :: b ++ [">"%char]) ++ s)
      || replace ("<"%char :: b ++ ">"%char :: s) with (("<"%char :: b ++ [">"%char]) ++ s)
           by (simpl; rewrite <- app_assoc; reflexivity).
    rewrite (sub_scan_match false tag_pattern to_empty _ s []); [exact IH| |discriminate].
    simpl. rewrite <- app_assoc. apply tag_match. exact Hb.
Qed.

(** *** Characters are only removed, or blanks written

    A property [P] of characters that holds of the blank and of every
    character of a region holds of every character of its cleaned text. *)

Section Characters.

Variable P : ascii -> Prop.

Lemma suffix_forall (s w r : str) : s = w ++ r -> Forall P s -> Forall P r.
Proof. intros -> H. apply Forall_app in H. tauto. Qed.

Lemma star_ms_keeps step : suffix_step step -> keeps P step -> forall n, keeps P (star_ms step n).
Proof.
  intros Hsuf Hstep n. induction n as [|n IH]; intros s c x Hs Hc; simpl.
  - intros [<-|[]]. exact Hc.
  - rewrite in_app_iff, in_flat_map. intros [[y [Hy Hx]]|[<-|[]]]; [|exact Hc].
    destruct (length (fst y) <? length s); [|contradiction].
    apply (IH (fst y) (snd y) x); auto.
    + destruct (Hsuf _ _ _ Hy) as [w Hw]. apply (suffix_forall _ _ _ Hw Hs).
    + apply (Hstep s c y); assumption.
Qed.

Lemma lazy_ms_keeps step : suffix_step step -> keeps P step -> forall n, keeps P (lazy_ms step n).
Proof.
  intros Hsuf Hstep n. induction n as [|n IH]; intros s c x Hs Hc; simpl.
  - intros [<-|[]]. exact Hc.
  - rewrite in_flat_map. intros [<-|[y [Hy Hx]]]; [exact Hc|].
    destruct (length (fst y) <? length s); [|contradiction].
    apply (IH (fst y) (snd y) x); auto.
    + destruct (Hsuf _ _ _ Hy) as [w Hw]. apply (suffix_forall _ _ _ Hw Hs).
    + apply (Hstep s c y); assumption.
Qed.

Lemma ms_keeps ic r : keeps P (ms ic r).
Proof.
  induction r; intros s c x Hs Hc; simpl.
  - intros [<-|[]]. exact Hc.
  - destruct (strip_prefix (lit_eq ic) l s); [|contradiction]. intros [<-|[]]. exact Hc.
  - destruct s; [contradiction|]. intros [<-|[]]. exact Hc.
  - destruct s; [contradiction|]. destruct (set_match ic items a); [|contradiction].
    intros [<-|[]]. exact Hc.
  - destruct s; [contradiction|]. destruct (set_match ic items a); [contradiction|].
    intros [<-|[]]. exact Hc.
  - rewrite in_flat_map. intros [y [Hy Hx]]. apply (IHr2 (fst y) (snd y) x); auto.
    + destruct (ms_suffix ic r1 _ _ _ Hy) as [w Hw]. apply (suffix_forall _ _ _ Hw Hs).
    + apply (IHr1 s c y); assumption.
  - rewrite in_app_iff. intros [H|H]; [eapply IHr1 | eapply IHr2]; eauto.
  - apply (star_ms_keeps _ (ms_suffix ic r) IHr); assumption.
  - rewrite in_flat_map. intros [y [Hy Hx]].
    apply (star_ms_keeps _ (ms_suffix ic r) IHr (length (fst y)) (fst y) (snd y) x); auto.
    + destruct (ms_suffix ic r _ _ _ Hy) as [w Hw]. apply (suffix_forall _ _ _ Hw Hs).
    + apply (IHr s c y); assumption.
  - rewrite in_app_iff. intros [H|[<-|[]]]; [eapply IHr; eauto | exact Hc].
  - apply (lazy_ms_keeps _ (ms_suffix ic r) IHr); assumption.
  - rewrite in_map_iff. intros [y [<- Hy]]. simpl. intros k v [[= <- <-]|Hin].
    + apply Forall_take. exact Hs.
    + apply (IHr s c y Hs Hc Hy k v Hin).
  - destruct s as [|a [|b s]]; [intros [<-|[]]; exact Hc| |contradiction].
    destruct (eqc a nl); [|contradiction]. intros [<-|[]]. exact Hc.
Qed.

Lemma group_or_empty_ok n c : caps_ok P c -> Forall P (group_or_empty n c).
Proof.
  unfold group_or_empty. induction c as [|[k v] c IH]; intros Hc; simpl; [constructor|].
  destruct (k =? n).
  - apply (Hc k v). left. reflexivity.
  - apply IH. intros k' v' H. apply (Hc k' v'). right. exact H.
Qed.

Lemma sub_forall r repl : repl_ok P repl -> forall s,
  Forall P s -> Forall P (sub false r repl s).
Proof.
  intros Hrepl s. unfold sub. generalize 0 as k. induction s as [|a s IH]; intros k Hs.
  - destruct k; [|constructor]. simpl.
    destruct (re_match false r []) as [[rest c]|] eqn:E; [|constructor].
    rewrite app_nil_r. apply Hrepl. apply re_match_in in E.
    apply (ms_keeps false r [] [] (rest, c) Hs); [intros n v []|exact E].
  - destruct k as [|k]; [|simpl; apply IH; inversion Hs; assumption].
    rewrite sub_scan_unfold.
    destruct (re_match false r (a :: s)) as [[rest c]|] eqn:E.
    + cbv zeta. apply Forall_app. split.
      * apply Hrepl. apply re_match_in in E.
        apply (ms_keeps false r (a :: s) [] (rest, c) Hs); [intros n v []|exact E].
      * apply Forall_app. split.
        -- destruct (_ =? 0); [|constructor]. inversion Hs. repeat constructor. assumption.
        -- apply IH. inversion Hs; assumption.
    + inversion Hs. constructor; [assumption|]. apply IH. assumption.
Qed.

Lemma lstrip_forall s : Forall P s -> Forall P (lstrip s).
Proof.
  intros H. destruct (lstrip_suffix s) as [w Hw]. rewrite Hw in H.
  apply Forall_app in H. tauto.
Qed.

Lemma strip_forall s : Forall P s -> Forall P (strip s).
Proof.
  intros H. unfold strip, rstrip. apply Forall_rev. apply lstrip_forall.
  apply Forall_rev. apply lstrip_forall. exact H.
Qed.

Lemma clean_markup_forall c : P " "%char -> Forall P c -> Forall P (clean_markup c).
Proof.
  intros Hblank Hc. unfold clean_markup.
  assert (He : repl_ok P to_empty) by (intros c0 _; constructor).
  assert (Hg : repl_ok P to_group1) by (intros c0 H0; apply group_or_empty_ok; exact H0).
  assert (Hs : repl_ok P to_space) by (intros c0 _; repeat constructor; exact Hblank).
  apply strip_forall. repeat (apply sub_forall; [assumption|]). exact Hc.
Qed.

End Characters.

Lemma not_in_forall (x : ascii) (s : str) : ~ In x s <-> Forall (fun a => a <> x) s.
Proof.
  rewrite List.Forall_forall. split.
  - intros H a Ha ->. contradiction.
  - intros H Hin. apply (H x Hin). reflexivity.
Qed.

(** A well-tagged region leaves no [<] after the seven steps. *)
Lemma clean_markup_pure c : well_tagged c -> pure_text (clean_markup c).
Proof.
  intros Hc. unfold clean_markup, pure_text.
  apply not_in_forall. apply strip_forall. apply sub_forall.
  { intros c0 _. repeat constructor. discriminate. }
  apply not_in_forall. apply strip_tags_pure.
  apply wt_wrapper; [not_in|]. apply wt_wrapper; [not_in|]. apply wt_wrapper; [not_in|].
  apply wt_occurrence. apply wt_refsource. exact Hc.
Qed.

End CleaningFacts.

(** * The claims *)

Module BibliographyClaims.
Import Text Re Sys Common TextFacts ReFacts ScanFacts BibFacts BibLoop.
Import FixContentLoss.
Import Notions Examples.

(** C7.  A bibliography file in which no matched region is classified
    truncated comes back byte-identical from both bibliography fixers:
    the text after the loop is the input text, no fix is counted or
    recorded, and the output directory is not written to. *)
Theorem unchanged_when_nothing_corrupted
    (out : dir) (path : string) (content : str)
    (cit_file : gmap Z str) (cit_content : gmap str str) :
  out !! path = Some (TextFile content) ->
  (forall m, In m (finditer false bibliomixed_pattern content) ->
     corrupted_file cit_file (m_group 1 m) (m_group 2 m) = None) ->
  (forall m, In m (finditer false bibliomixed_pattern content) ->
     corrupted_content cit_content (m_group 1 m) (m_group 2 m) = None) ->
  FixRemainingBibliography.fix_bibliography_text content cit_file = (content, 0)
  /\ FixRemainingBibliography.fix_bibliography_file out path cit_file = Ok (out, 0)
  /\ fix_bibliography_content content cit_content = (content, [])
  /\ process_bibliography out path cit_content = Ok (out, []).
Proof.
  intros Hread Hfile Hcontent.
  assert (E1 : FixRemainingBibliography.fix_bibliography_text content cit_file
               = (content, 0)).
  { unfold FixRemainingBibliography.fix_bibliography_text.
    apply fold_left_id. intros m Hm. rewrite bib_file_step_spec.
    rewrite (Hfile m Hm). reflexivity. }
  assert (E2 : fix_bibliography_content content cit_content = (content, [])).
  { unfold fix_bibliography_content.
    apply fold_left_id. intros m Hm. rewrite bib_content_step_spec.
    rewrite (Hcontent m Hm). reflexivity. }
  repeat split; try assumption.
  - unfold FixRemainingBibliography.fix_bibliography_file, read_text.
    rewrite Hread. simpl. rewrite E1. reflexivity.
  - unfold process_bibliography, read_text. rewrite Hread. simpl. rewrite E2.
    reflexivity.
Qed.

(** On the one-entry bibliography whose entry already has the complete
    text, both fixers return the file as it is. *)
Lemma unchanged_when_nothing_corrupted_witness :
  FixRemainingBibliography.fix_bibliography_text (ex_doc ex_full) ex_cit_file
    = (ex_doc ex_full, 0)
  /\ FixRemainingBibliography.fix_bibliography_file (ex_out ex_full) ex_path ex_cit_file
    = Ok (ex_out ex_full, 0)
  /\ fix_bibliography_content (ex_doc ex_full) ex_cit_content = (ex_doc ex_full, [])
  /\ process_bibliography (ex_out ex_full) ex_path ex_cit_content
    = Ok (ex_out ex_full, []).
Proof.
  apply (unchanged_when_nothing_corrupted (ex_out ex_full) ex_path (ex_doc ex_full)).
  - vm_compute. reflexivity.
  - intros m Hm. vm_compute in Hm. destruct Hm as [<-|[]]. vm_compute. reflexivity.
  - intros m Hm. vm_compute in Hm. destruct Hm as [<-|[]]. vm_compute. reflexivity.
Defined.





(** C3 on a citation that opens with blanks.  The first run repairs the
    entry; the second run finds the repaired entry shorter than 70 per
    cent of the clean text once its blanks are stripped, replaces it by
    itself, counts a fix and writes the file again.  The sibling
    [fix_bibliography_content], which measures the text as it is, counts
    nothing on the repaired file. *)
Lemma second_run_counts_again :
  FixRemainingBibliography.fix_bibliography_text (ex_doc (L "Smith")) ex_padded_file
    = (ex_doc ex_padded, 1)
  /\ FixRemainingBibliography.fix_bibliography_text (ex_doc ex_padded) ex_padded_file
    = (ex_doc ex_padded, 1)
  /\ FixRemainingBibliography.fix_bibliography_file (ex_out ex_padded) ex_path
       ex_padded_file
    = Ok (write_text (ex_out ex_padded) ex_path (ex_doc ex_padded), 1)
  /\ fix_bibliography_content (ex_doc ex_padded) ex_padded_content
    = (ex_doc ex_padded, []).
Proof. vm_compute. repeat split; reflexivity. Qed.

(** C1 as stated fails on an empty region: the pattern reports an entry
    with no text at all, and both fixers replace it.  And
    [fix_bibliography_file] measures a region after stripping it: an entry
    of 17 characters and 40 blanks against a clean text of 27 characters
    is above the threshold as it stands, is left by
    [fix_bibliography_content], and is replaced by [fix_bibliography_file]. *)
Lemma empty_region_is_replaced :
  finditer false bibliomixed_pattern (ex_doc [])
    = [MObj 14 (ex_entry []) [(2, []); (1, L "ch0008s0009bib67")]]
  /\ FixRemainingBibliography.fix_bibliography_text (ex_doc []) ex_cit_file
     = (ex_doc ex_full, 1)
  /\ fst (fix_bibliography_content (ex_doc []) ex_cit_content) = ex_doc ex_full
  /\ (length ex_blanks = 57 /\ length ex_clean = 27)
  /\ fix_bibliography_content (ex_doc ex_blanks) {[ L "CR67" := ex_clean ]}
     = (ex_doc ex_blanks, [])
  /\ FixRemainingBibliography.fix_bibliography_text (ex_doc ex_blanks)
       {[ 67%Z := ex_clean ]}
     = (ex_doc ex_clean, 1).
Proof. vm_compute. repeat split; reflexivity. Qed.

(** C1, amended.  A region the pattern reports (a text node without
    [<], possibly empty, under the tag, with a non-empty identifier) that
    has a matched clean text of fewer than [2^31] characters is
    classified truncated exactly when ten times its length is less than
    seven times the length of the clean text; [fix_bibliography_file]
    takes the length of the stripped text, [fix_bibliography_content] the
    length of the text as it is.  In a document whose reported
    identifiers have no [<], each loop returns the document with every
    region so classified replaced where it stands by the entry around the
    escaped clean text, and every other region and all text between the
    regions copied. *)
Theorem truncated_regions_replaced_in_place
    (content : str) (cit_file : gmap Z str) (cit_content : gmap str str) :
  (forall m, In m (finditer false bibliomixed_pattern content) ->
     pure_text (m_group 1 m)) ->
  (forall id txt n full,
     bib_number id = Some n -> cit_file !! n = Some full ->
     (Z.of_nat (length full) < 2 ^ 31)%Z ->
     corrupted_file cit_file id txt
     = if 10 * length (strip txt) <? 7 * length full then Some full else None)
  /\ (forall id txt n full,
        bib_number id = Some n ->
        first_citation cit_content (possible_ids n) = Some full ->
        (Z.of_nat (length full) < 2 ^ 31)%Z ->
        corrupted_content cit_content id txt
        = if 10 * length txt <? 7 * length full then Some full else None)
  /\ FixRemainingBibliography.fix_bibliography_text content cit_file
     = (in_place (corrupted_file cit_file) content,
        length (replaced (corrupted_file cit_file)
                  (finditer false bibliomixed_pattern content)))
  /\ fst (fix_bibliography_content content cit_content)
     = in_place (corrupted_content cit_content) content
  /\ length (snd (fix_bibliography_content content cit_content))
     = length (replaced (corrupted_content cit_content)
                 (finditer false bibliomixed_pattern content)).
Proof.
  intros Hids. split; [|split; [|split; [|split]]].
  - intros id txt n full Hn Hfull Hlen. unfold corrupted_file.
    rewrite Hn, Hfull, FloatFacts.lt_07_spec by exact Hlen. reflexivity.
  - intros id txt n full Hn Hfull Hlen. unfold corrupted_content.
    rewrite Hn, Hfull, FloatFacts.lt_07_spec by exact Hlen. reflexivity.
  - unfold FixRemainingBibliography.fix_bibliography_text.
    change FixRemainingBibliography.bibliomixed_pattern with bibliomixed_pattern.
    rewrite fold_file_steps.
    rewrite (in_place_loop _ (corrupted_file_fun cit_file) content Hids). reflexivity.
  - unfold fix_bibliography_content.
    rewrite (proj1 (fold_content_steps cit_content _ content [])).
    apply (in_place_loop _ (corrupted_content_fun cit_content) content Hids).
  - unfold fix_bibliography_content.
    rewrite (proj2 (fold_content_steps cit_content _ content [])). reflexivity.
Qed.

(** On the bibliography of three entries the first is replaced, the
    second, complete, and the third, without a clean text, are kept. *)
Lemma truncated_regions_replaced_in_place_witness :
  corrupted_file ex_three_file (L "ch0008s0009bib67") ex_short = Some ex_full
  /\ corrupted_content ex_three_content (L "ch0008s0009bib68")
       (L "Zung, W. (1965). A scale.") = None
  /\ FixRemainingBibliography.fix_bibliography_text ex_three ex_three_file
     = (ex_three_fixed, 1)
  /\ fst (fix_bibliography_content ex_three ex_three_content) = ex_three_fixed.
Proof.
  destruct (truncated_regions_replaced_in_place ex_three ex_three_file ex_three_content)
    as [Hfile [Hcontent [Htext [Hfst _]]]].
  - intros m Hm. vm_compute in Hm. unfold pure_text.
    destruct Hm as [<-|[<-|[<-|[]]]]; not_in.
  - split; [|split; [|split]].
    + rewrite (Hfile _ _ 67%Z ex_full); [reflexivity|reflexivity|reflexivity|].
      vm_compute. reflexivity.
    + rewrite (Hcontent _ _ 68%Z (L "Zung, W. (1965). A scale."));
        [reflexivity|reflexivity|reflexivity|].
      vm_compute. reflexivity.
    + rewrite Htext. vm_compute. reflexivity.
    + rewrite Hfst. vm_compute. reflexivity.
Defined.

End BibliographyClaims.

(** ** Chapter identity *)

Module MappingClaims.
Import Text Re Sys Common TextFacts ReFacts ScanFacts BibFacts.
Import FixRemainingBibliography.
Import Notions Examples.

Lemma set_match_digit a : set_match false [IDigit] a = is_digit a.
Proof. simpl. rewrite !orb_false_r. reflexivity. Qed.


Lemma forallb_ext_eq {A} (p q : A -> bool) l :
  (forall a, p a = q a) -> forallb p l = forallb q l.
Proof. intros H. induction l as [|a l IH]; simpl; [reflexivity|]. rewrite H, IH. reflexivity. Qed.





End MappingClaims.

(** ** Keywords *)

Module KeywordClaims.
Import Text Re Sys Common TextFacts ReFacts ScanFacts BibFacts.
Import Notions Examples.

Lemma fold_left_app_concat {A} (f : A -> str) (l : list A) (init : str) :
  fold_left (fun acc a => acc ++ f a) l init = init ++ concat (map f l).
Proof.
  revert init. induction l as [|a l IH]; intros init; simpl.
  - symmetry. apply app_nil_r.
  - rewrite IH, <- app_assoc. reflexivity.
Qed.

(** The keyword list is one line per keyword, in the order of the list. *)
Lemma keywords_xml_lines keywords :
  keywords_xml keywords =
  L "<keywordset>" ++ [nl]
  ++ concat (map (fun k => L "      <keyword>" ++ escape k ++ L "</keyword>" ++ [nl])
                 keywords)
  ++ L "   </keywordset>".
Proof.
  unfold keywords_xml.
  rewrite (fold_left_app_concat
             (fun k => L "      <keyword>" ++ escape k ++ L "</keyword>" ++ [nl])).
  rewrite <- app_assoc. reflexivity.
Qed.

(** The pattern at a keyword span. *)
Lemma span_match k rest :
  k <> [] -> pure_text k ->
  re_match false keyword_pattern (span k ++ rest) = Some (rest, [(1, k)]).
Proof.
  intros Hne Hk. unfold keyword_pattern.
  assert (Hin : forall x, In x (ms false (Str kw_open ;; Star (not_char ">") ;;
                  Str (L ">") ;; Group 1 (Plus (not_char "<")) ;; Str (L "</span>"))%re
                  (span k ++ rest) []) <->
                exists a w, L ">" ++ k ++ L "</span>" ++ rest
                            = a ++ L ">" ++ w ++ L "</span>" ++ fst x
                  /\ ~ In ">"%char a /\ w <> [] /\ pure_text w /\ snd x = [(1, w)]).
  { intros x. rewrite ms_Cat_in. split.
    - intros [y1 [H1 H]]. apply ms_Str_in in H1 as [E1 Hc1].
      unfold span in E1. rewrite <- !app_assoc in E1. apply app_inv_head in E1.
      apply ms_Cat_in in H as [y2 [H2 H]].
      apply (ms_Star_in _ _ _ _ _ _ (one_char_NSet false [IChar ">"%char])) in H2
        as [a [E2 [Ha Hc2]]].
      apply ms_Cat_in in H as [y3 [H3 H]]. apply ms_Str_in in H3 as [E3 Hc3].
      apply ms_Cat_in in H as [y4 [H4 H]].
      apply ms_Group_in in H4 as [w [r4 [c4 [E4 [H4 ->]]]]].
      apply (ms_Plus_in _ _ _ _ _ _ (one_char_NSet false [IChar "<"%char])) in H4
        as [w' [E4' [Hw [Hp Hc4]]]].
      simpl fst in E4'. simpl snd in Hc4. rewrite E4 in E4'.
      apply app_inv_tail in E4'. subst w'.
      simpl fst in H. simpl snd in H. apply ms_Str_in in H as [E5 Hc5].
      exists a, w. apply forallb_not_char in Ha, Hp.
      rewrite E1, E2, E3, E4, E5. repeat split; auto. congruence.
    - intros [a [w [E [Ha [Hw [Hp Hc]]]]]].
      exists (L ">" ++ k ++ L "</span>" ++ rest, []). split.
      { apply ms_Str_in. unfold span. rewrite <- !app_assoc. auto. }
      apply ms_Cat_in. exists (L ">" ++ w ++ L "</span>" ++ fst x, []). split.
      { apply (ms_Star_in _ _ _ _ _ _ (one_char_NSet false [IChar ">"%char])).
        exists a. split; [exact E|]. split; [|reflexivity].
        apply forallb_not_char. exact Ha. }
      apply ms_Cat_in. exists (w ++ L "</span>" ++ fst x, []). split.
      { apply ms_Str_in. auto. }
      apply ms_Cat_in. exists (L "</span>" ++ fst x, [(1, w)]). split.
      { apply ms_Group_in. exists w, (L "</span>" ++ fst x), []. repeat split; auto.
        apply (ms_Plus_in _ _ _ _ _ _ (one_char_NSet false [IChar "<"%char])).
        exists w. split; [reflexivity|]. split; [exact Hw|]. split; [|reflexivity].
        apply forallb_not_char. exact Hp. }
      apply ms_Str_in. auto. }
  apply re_match_unique.
  - apply Hin. exists [], k. repeat split; auto.
  - intros [r c] Hy. apply Hin in Hy as [a [w [E [Ha [Hw [Hp Hc]]]]]].
    simpl in E, Hc.
    apply (split_unique ">"%char [] a) in E as [<- E]; auto.
    apply split_unique in E as [<- E]; auto. injection E as <-. congruence.
Qed.

(** [re.findall] over a text of keyword spans returns their texts in the
    order of the spans, repeated texts included. *)
Lemma findall_spans items tail :
  Forall (fun it : str * str =>
            contains kw_open (fst it) = false /\ snd it <> [] /\ pure_text (snd it))
         items ->
  contains kw_open tail = false ->
  findall1 false keyword_pattern (spans items tail) = map snd items.
Proof.
  intros Hitems Htail. unfold findall1, finditer.
  enough (H : forall pos, map (m_group 1)
                (scan false keyword_pattern 0 pos (spans items tail)) = map snd items)
    by apply H.
  induction Hitems as [|[sep k] items [Hsep [Hne Hk]] _ IH]; intros pos.
  - unfold spans, keyword_pattern. simpl concat. cbn [app].
    rewrite scan_no_literal by exact Htail. reflexivity.
  - unfold spans. cbn [map concat fst snd]. rewrite <- !app_assoc.
    fold (spans items tail). unfold keyword_pattern at 1.
    change (L "<span class=" ++ [dq] ++ L "Keyword" ++ [dq])
      with ("<"%char :: kw_open_tail).
    cbn [fst snd] in Hsep, Hne, Hk.
    change (span k ++ spans items tail)
      with ("<"%char :: (kw_open_tail ++ L ">" ++ k ++ L "</span>") ++ spans items tail).
    rewrite scan_pass_prefix; [|unfold kw_open_tail; not_in|exact Hsep].
    change ("<"%char :: (kw_open_tail ++ L ">" ++ k ++ L "</span>") ++ spans items tail)
      with (span k ++ spans items tail).
    change ("<"%char :: kw_open_tail)
      with (L "<span class=" ++ [dq] ++ L "Keyword" ++ [dq]). fold keyword_pattern.
    rewrite (scan_match _ _ _ _ _ _ (span_match k (spans items tail) Hne Hk))
      by discriminate.
    cbn [map]. rewrite IH. reflexivity.
Qed.

(** C4.  Keyword extraction returns, for the keyword spans of a source
    text, their trimmed texts in order of appearance, blank ones dropped
    and repeated ones kept; the garbled paragraph with the split e-mail
    address is detected, and [fix_keywords_in_file] replaces exactly that
    paragraph by the keyword list: one escaped entry per token, in the
    order of the list, nothing of the paragraph left. *)
Theorem keyword_round_trip :
  (forall items tail,
     Forall (fun it : str * str =>
               contains kw_open (fst it) = false /\ snd it <> [] /\ pure_text (snd it))
            items ->
     contains kw_open tail = false ->
     keywords_of (spans items tail) = map strip (List.filter nonblank (map snd items)))
  /\ FixKeywords.is_garbled ex_garbled = true
  /\ (forall keywords,
        keywords_xml keywords =
        L "<keywordset>" ++ [nl]
        ++ concat (map (fun k => L "      <keyword>" ++ escape k ++ L "</keyword>" ++ [nl])
                       keywords)
        ++ L "   </keywordset>")
  /\ (forall keywords (out : dir) (xml_file : string),
        keywords <> [] ->
        out !! xml_file = Some (TextFile ex_garbled) ->
        FixKeywords.fix_keywords_text ex_garbled keywords
          = Some (L "<sect1info>" ++ keywords_xml keywords ++ L "</sect1info>",
                  ex_garbled_text)
        /\ FixKeywords.fix_keywords_in_file out xml_file keywords
          = Ok (<[xml_file := TextFile (L "<sect1info>" ++ keywords_xml keywords
                                        ++ L "</sect1info>")]> out,
                Some (FixKeywords.FixRecord xml_file ex_garbled_text keywords))).
Proof.
  split; [|split; [|split]].
  - intros items tail Hitems Htail. unfold keywords_of.
    rewrite (findall_spans items tail Hitems Htail). reflexivity.
  - vm_compute. reflexivity.
  - exact keywords_xml_lines.
  - intros keywords out xml_file Hne Hread.
    assert (Hs : search true FixKeywords.garbled_pattern ex_garbled
                 = Some (MObj 11 ex_para [(1, ex_garbled_text)]))
      by (vm_compute; reflexivity).
    assert (Ht : FixKeywords.fix_keywords_text ex_garbled keywords
                 = Some (L "<sect1info>" ++ keywords_xml keywords ++ L "</sect1info>",
                         ex_garbled_text)).
    { unfold FixKeywords.fix_keywords_text. rewrite Hs.
      destruct keywords as [|k ks]; [contradiction|].
      cbn [m_whole]. unfold ex_garbled at 1.
      rewrite replace_first_first; [reflexivity|].
      intros a'. apply no_earlier_spec. vm_compute. reflexivity. }
    split; [exact Ht|].
    unfold FixKeywords.fix_keywords_in_file, read_text. rewrite Hread. cbn [bind].
    rewrite Ht. reflexivity.
Qed.

(** The derivative file with the garbled paragraph is repaired with the
    list extracted from the example source. *)
Lemma keyword_round_trip_witness :
  keywords_of (spans ex_source_items (L "</div>")) = ex_keywords
  /\ FixKeywords.fix_keywords_in_file {[ ex_kw_file := TextFile ex_garbled ]}
       ex_kw_file ex_keywords
     = Ok ({[ ex_kw_file :=
               TextFile (L "<sect1info><keywordset>" ++ [nl]
                         ++ L "      <keyword>Depression</keyword>" ++ [nl]
                         ++ L "      <keyword>Dysthymia</keyword>" ++ [nl]
                         ++ L "      <keyword>Mood</keyword>" ++ [nl]
                         ++ L "   </keywordset></sect1info>") ]},
           Some (FixKeywords.FixRecord ex_kw_file ex_garbled_text ex_keywords))
  /\ contains (L "@") (L "<sect1info>" ++ keywords_xml ex_keywords ++ L "</sect1info>")
     = false.
Proof.
  destruct keyword_round_trip as [Hextract [_ [_ Hfix]]].
  split; [|split].
  - rewrite (Hextract ex_source_items (L "</div>")).
    + vm_compute. reflexivity.
    + repeat constructor; try discriminate; unfold pure_text; cbn [snd]; not_in.
    + vm_compute. reflexivity.
  - destruct (Hfix ex_keywords {[ ex_kw_file := TextFile ex_garbled ]} ex_kw_file)
      as [_ Hfile].
    + discriminate.
    + vm_compute. reflexivity.
    + rewrite Hfile. vm_compute. reflexivity.
  - vm_compute. reflexivity.
Defined.

(** A file that already has a keyword list is passed over by
    [fix_all_garbled_keywords], whatever else it contains. *)
Lemma keywordset_skipped (xhtml out : dir) (xml_file : string) (content : str) :
  out !! xml_file = Some (TextFile content) ->
  contains (L "<keywordset>") content = true ->
  FixAllKeywords.fix_file xhtml out xml_file = Ok (out, None).
Proof.
  intros Hread Hk. unfold FixAllKeywords.fix_file, read_text. rewrite Hread.
  cbn [bind try_except]. rewrite Hk. destruct (negb _); reflexivity.
Qed.

End KeywordClaims.

(** ** Extraction failures *)

Module ExtractionClaims.
Import Text Re Sys Common Citations TextFacts BibFacts CleaningFacts.
Import Notions Examples.

(** C6 as stated fails on regions without an ampersand, on which
    [html.unescape] returns its argument.  The tag pattern wants a
    lower-case letter after [<], so upper-case tags and comments stay;
    and removing a tag can put a tag together from the text around it. *)
Lemma tags_can_survive :
  clean_markup (L "Smith <B>bold</B> 2001") = L "Smith <B>bold</B> 2001"
  /\ clean_markup (L "Smith <!-- checked --> 2001") = L "Smith <!-- checked --> 2001"
  /\ clean_markup (L "Smith <<em>em>x</<em>em> 2001") = L "Smith <em>x</em> 2001"
  /\ search false tag_pattern (L "Smith <em>x</em> 2001")
     = Some (MObj 6 (L "<em>") [])
  /\ contains (L "&") (L "Smith <B>bold</B> 2001") = false
  /\ contains (L "&") (L "Smith <!-- checked --> 2001") = false
  /\ contains (L "&") (L "Smith <<em>em>x</<em>em> 2001") = false.
Proof. vm_compute. repeat split; reflexivity. Qed.

(** C6, amended.  The text extracted for a citation is [html.unescape]
    of the text [t] that the seven earlier steps leave, applied to the
    region in the stated order.  In [t] every whitespace character is a
    blank followed by a character that is not whitespace, and [t]
    neither starts nor ends with whitespace.  When every [<] of the
    region opens a tag with a lower-case name and no [<] or [>] inside,
    [t] has no [<].  When the region has no ampersand the extracted text
    is [t]; [html.unescape] changes character references only. *)
Theorem cleaning_normal_form (unescape : str -> str) (content id text : str) :
  In (id, text) (cleaned unescape content) ->
  exists m region,
    In m (finditer false citation_pattern content)
    /\ id = m_group 1 m /\ region = m_group 2 m
    /\ text =
       unescape
         (strip
            (sub false spaces_pattern to_space
               (sub false tag_pattern to_empty
                  (sub false (wrapper_pattern "span") to_group1
                     (sub false (wrapper_pattern "em") to_group1
                        (sub false (wrapper_pattern "a") to_group1
                           (sub false occurrence_pattern to_empty
                              (sub false refsource_pattern to_empty region))))))))
    /\ single_spaced (clean_markup region) = true
    /\ trimmed (clean_markup region)
    /\ (well_tagged region -> pure_text (clean_markup region))
    /\ ((forall s, ~ In "&"%char s -> unescape s = s) ->
        ~ In "&"%char region -> text = clean_markup region).
Proof.
  unfold cleaned. rewrite in_map_iff. intros [m [[= <- <-] Hm]].
  exists m, (m_group 2 m).
  destruct (clean_markup_spaced (m_group 2 m)) as [Hsp Htr].
  repeat split; try assumption; try reflexivity.
  - apply Htr.
  - apply Htr.
  - apply clean_markup_pure.
  - intros Hun Hamp. unfold clean_citation. apply Hun.
    apply not_in_forall. apply clean_markup_forall; [discriminate|].
    apply not_in_forall. exact Hamp.
Qed.

(** On the example citation, with [html.unescape] the identity, as it
    is on a text without ampersand. *)
Lemma cleaning_normal_form_witness :
  exists m region,
    In m (finditer false citation_pattern ex_citation_source)
    /\ L "CR67" = m_group 1 m /\ region = m_group 2 m
    /\ ex_cleaned =
       (fun s => s)
         (strip
            (sub false spaces_pattern to_space
               (sub false tag_pattern to_empty
                  (sub false (wrapper_pattern "span") to_group1
                     (sub false (wrapper_pattern "em") to_group1
                        (sub false (wrapper_pattern "a") to_group1
                           (sub false occurrence_pattern to_empty
                              (sub false refsource_pattern to_empty region))))))))
    /\ single_spaced (clean_markup region) = true
    /\ trimmed (clean_markup region)
    /\ (well_tagged region -> pure_text (clean_markup region))
    /\ ((forall s, ~ In "&"%char s -> (fun s : str => s) s = s) ->
        ~ In "&"%char region -> ex_cleaned = clean_markup region).
Proof.
  apply (cleaning_normal_form (fun s => s) ex_citation_source (L "CR67") ex_cleaned).
  vm_compute. left. reflexivity.
Defined.



End ExtractionClaims.

(** ** Index terms *)

Module IndexClaims.
Import Text Re Sys Common TextFacts.
Import FixContentLoss.
Import Notions Examples.

(** C9 on [ex_index].  The second marker is reported by [re.finditer];
    the text before it ends with [Treatment of ], not with the term, and
    no paragraph opens there; yet no issue is recorded for it, because
    the expected text is searched in the whole file and found at the
    first marker. *)
Lemma indexterm_check_is_global :
  finditer false indexterm_pattern ex_index
    = [ MObj 13 (marker (L "Anxiety")) [(1, L "Anxiety")];
        MObj 99 (marker (L "Anxiety")) [(1, L "Anxiety")] ]
  /\ firstn 99 ex_index
     = L "<para>Anxiety" ++ marker (L "Anxiety") ++ L " is common.</para>"
       ++ L "<para>Treatment of "
  /\ indexterm_issue ex_index (MObj 99 (marker (L "Anxiety")) [(1, L "Anxiety")]) = None
  /\ indexterm_issues ex_index = []
  /\ indexterm_issues (skipn 80 ex_index)
     = [ Issue (L "Anxiety") (L "<para>Treatment of ") ].
Proof. vm_compute. repeat split; reflexivity. Qed.

End IndexClaims.

(** * Further properties of the scripts *)

(** ** A second run of the bibliography fixers *)

Module SecondRunFacts.
Import Text Re Sys Common TextFacts ReFacts ScanFacts BibFacts FloatFacts BibLoop.
Import FixContentLoss.
Import Notions Examples.







Section Stable.

Variable classify : str -> str -> option str.

(** A replaced region is not one to replace. *)
Hypothesis stable : forall id txt full,
  classify id txt = Some full -> classify id (escape full) = None.



End Stable.






Lemma lstrip_id t : (forall a t', t = a :: t' -> is_space a = false) -> lstrip t = t.
Proof.
  intros H. destruct t as [|a t]; [reflexivity|].
  simpl. rewrite (H a t eq_refl). reflexivity.
Qed.

Lemma strip_id t : trimmed t -> strip t = t.
Proof.
  intros [Hh Hl]. unfold strip, rstrip. rewrite (lstrip_id t Hh).
  rewrite lstrip_id; [apply rev_involutive|].
  intros a t' E. apply (Hl a (rev t')).
  rewrite <- (rev_involutive t), E. reflexivity.
Qed.






End SecondRunFacts.

Module SecondRun.
Import Text Re Sys Common TextFacts ReFacts ScanFacts BibFacts FloatFacts BibLoop.
Import FixContentLoss SecondRunFacts.
Import Notions Examples.





End SecondRun.

(** ** What the extraction stores *)

Module ExtractionFacts.
Import Text Re Sys Common Citations TextFacts ReFacts ScanFacts BibFacts CleaningFacts.
Import SecondRunFacts.
Import Notions Examples RunNotions RunExamples.
Local Open Scope re_scope.

(** Every match of a scan is a match of the pattern at some place. *)
Lemma scan_caps ic r m : forall s k pos,
  In m (scan ic r k pos s) ->
  exists t rest, re_match ic r t = Some (rest, m_caps m).
Proof.
  induction s as [|a s IH]; intros k pos H.
  - destruct k; [|destruct H]. cbn [scan] in H.
    destruct (re_match ic r []) as [[rest c]|] eqn:E; [|destruct H].
    destruct H as [<-|[]]. exists [], rest. exact E.
  - destruct k as [|k]; cbn [scan] in H.
    + destruct (re_match ic r (a :: s)) as [[rest c]|] eqn:E.
      * destruct H as [<-|H]; [exists (a :: s), rest; exact E|].
        apply (IH _ _ H).
      * apply (IH _ _ H).
    + apply (IH _ _ H).
Qed.

Lemma ms_Str_app l s c : ms false (Str l) (l ++ s) c = [(s, c)].
Proof.
  cbn [ms]. change (lit_eq false) with eqc. rewrite strip_prefix_app. reflexivity.
Qed.

Lemma ms_Cat_single ic r1 r2 s c y :
  ms ic r1 s c = [y] -> ms ic (Cat r1 r2) s c = ms ic r2 (fst y) (snd y).
Proof. intros E. cbn [ms]. rewrite E. cbn [flat_map]. apply app_nil_r. Qed.

Lemma head_map {A B} (f : A -> B) (l : list A) :
  head (map f l) = option_map f (head l).
Proof. destruct l; reflexivity. Qed.

(** The greedy match of [r+] for a pattern [r] of one character. *)
Lemma ms_Plus_head ic r p s c : one_char ic r p ->
  head (ms ic (Plus r) s c) =
  match s with
  | a :: s' => if p a then Some (skip_while p s', c) else None
  | [] => None
  end.
Proof.
  intros H. cbn [ms]. rewrite (H s c). destruct s as [|a s']; [reflexivity|].
  destruct (p a); [|reflexivity]. cbn [flat_map fst snd]. rewrite app_nil_r.
  apply (star_one_char_head ic r p _ H). lia.
Qed.

Lemma skip_while_all p (ds rest : str) :
  forallb p ds = true ->
  match rest with a :: _ => p a = false | [] => True end ->
  skip_while p (ds ++ rest) = rest.
Proof.
  intros Hds Hrest. induction ds as [|d ds IH]; cbn [app skip_while].
  - destruct rest as [|a rest]; [reflexivity|]. cbn [skip_while]. rewrite Hrest. reflexivity.
  - cbn [forallb] in Hds. apply andb_true_iff in Hds as [Hd Hds]. rewrite Hd. auto.
Qed.

Lemma one_char_digit : one_char false digit is_digit.
Proof.
  intros s c. destruct s as [|a s]; [reflexivity|].
  unfold digit. cbn [ms]. rewrite MappingClaims.set_match_digit. reflexivity.
Qed.

(** A group around the digits of a number, after a literal. *)
Lemma number_after_literal l n ds rest :
  ds <> [] -> forallb is_digit ds = true ->
  match rest with a :: _ => is_digit a = false | [] => True end ->
  re_match false (Str l ;; Group n (Plus digit)) (l ++ ds ++ rest)
  = Some (rest, [(n, ds)]).
Proof.
  intros Hne Hds Hrest. unfold re_match.
  rewrite (ms_Cat_single _ _ _ _ _ _ (ms_Str_app l (ds ++ rest) [])).
  cbn [fst snd]. cbn [ms]. rewrite head_map.
  change (flat_map _ (ms false digit (ds ++ rest) []))
    with (ms false (Plus digit) (ds ++ rest) []).
  rewrite (ms_Plus_head false digit is_digit _ _ one_char_digit).
  destruct ds as [|d ds]; [congruence|]. cbn [app].
  cbn [forallb] in Hds. apply andb_true_iff in Hds as [Hd Hds]. rewrite Hd.
  rewrite (skip_while_all is_digit ds rest Hds Hrest). cbn [option_map fst snd].
  change (d :: ds ++ rest) with ((d :: ds) ++ rest).
  rewrite firstn_length_diff. reflexivity.
Qed.

(** [re.search] finds a match that starts the text. *)
Lemma search_at_start ic r s rest c :
  re_match ic r s = Some (rest, c) ->
  search ic r s = Some (MObj 0 (firstn (length s - length rest) s) c).
Proof.
  intros E. unfold search, finditer. rewrite scan_unfold, E. reflexivity.
Qed.

(** The number of a citation identifier, as [extract_citations_from_xhtml]
    reads it. *)
Lemma citation_number_digits ds :
  ds <> [] -> forallb is_digit ds = true ->
  citation_number (L "CR" ++ ds) = Some (int_of ds).
Proof.
  intros Hne Hds. unfold citation_number, FixRemainingBibliography.cr_pattern.
  pose proof (number_after_literal (L "CR") 1 ds [] Hne Hds I) as Hm.
  rewrite app_nil_r in Hm.
  rewrite (search_at_start _ _ _ _ _ Hm). reflexivity.
Qed.

(** Lazy and greedy runs of any character keep the groups. *)
Lemma lazy_any_caps n : forall s c x,
  In x (lazy_ms (ms false Any) n s c) -> snd x = c.
Proof.
  induction n as [|n IH]; intros s c x H; cbn [lazy_ms] in H.
  - destruct H as [<-|[]]. reflexivity.
  - destruct H as [<-|H]; [reflexivity|].
    apply in_flat_map in H as [y [Hy H]].
    destruct (length (fst y) <? length s); [|destruct H].
    apply IH in H. rewrite H. cbn [ms] in Hy. destruct s; [destruct Hy|].
    destruct Hy as [<-|[]]. reflexivity.
Qed.

(** What the citation pattern captures: an identifier made of CR and
    digits. *)
Lemma citation_ms_in s x :
  In x (ms false citation_pattern s []) ->
  exists ds txt, snd x = [(2, txt); (1, L "CR" ++ ds)]
    /\ ds <> [] /\ forallb is_digit ds = true
    /\ exists w, s = w ++ fst x /\ w <> [].
Proof.
  unfold citation_pattern. intros H.
  apply ms_Cat_in in H as [y1 [H1 H]]. apply ms_Str_in in H1 as [E1 Hc1].
  apply ms_Cat_in in H as [y2 [H2 H]].
  apply ms_Group_in in H2 as [w2 [r2 [c2 [E2 [H2 ->]]]]].
  apply ms_Cat_in in H2 as [y3 [H3 H2]]. apply ms_Str_in in H3 as [E3 Hc3].
  apply (ms_Plus_in _ _ _ _ _ _ (one_char_Set false [IDigit])) in H2
    as [ds [E4 [Hne [Hd Hc4]]]].
  cbn [fst snd] in *.
  apply ms_Cat_in in H as [y5 [H5 H]]. apply ms_Str_in in H5 as [E5 Hc5].
  cbn [fst snd] in *.
  apply ms_Cat_in in H as [y6 [H6 H]].
  apply ms_Group_in in H6 as [w6 [r6 [c6 [E6 [H6 ->]]]]].
  cbn [ms] in H6. apply lazy_any_caps in H6. cbn [fst snd] in *.
  apply ms_Str_in in H as [E7 Hc7]. cbn [fst snd] in *.
  exists ds, w6. split; [|split; [exact Hne|split]].
  - rewrite Hc7, H6, Hc5, Hc4, Hc3, Hc1.
    assert (E : w2 = L "CR" ++ ds).
    { rewrite E3, E4, app_assoc in E2. apply app_inv_tail in E2. auto. }
    rewrite E. reflexivity.
  - rewrite (MappingClaims.forallb_ext_eq _ _ _ MappingClaims.set_match_digit) in Hd.
    exact Hd.
  - exists ((L "<div class=" ++ [dq] ++ L "CitationContent" ++ [dq] ++ L " id=" ++ [dq])
            ++ w2 ++ (dq :: L ">") ++ w6 ++ L "</div>").
    split; [|discriminate].
    rewrite E1, E2, E5, E6, E7. rewrite <- !app_assoc. reflexivity.
Qed.

Lemma citation_nonempty : nonempty false citation_pattern.
Proof.
  intros s rest c H. apply re_match_in in H. apply citation_ms_in in H
    as [_ [_ [_ [_ [_ [w [-> Hw]]]]]]].
  cbn [fst]. rewrite length_app. destruct w; [congruence|]. simpl. lia.
Qed.

(** The identifiers of the cleaned citations. *)
Lemma cleaned_id unescape content id text :
  In (id, text) (cleaned unescape content) ->
  exists ds, id = L "CR" ++ ds /\ ds <> [] /\ forallb is_digit ds = true.
Proof.
  unfold cleaned. rewrite in_map_iff. intros [m [[= <- _] Hm]].
  apply scan_caps in Hm as [t [rest Hm]]. apply re_match_in in Hm.
  apply citation_ms_in in Hm as [ds [txt [Hc [Hne [Hd _]]]]]. cbn [snd] in Hc.
  exists ds. unfold m_group. rewrite Hc. auto.
Qed.

(** A dictionary filled in a loop holds for each key the value of the
    last element that has the key. *)
Lemma fold_insert_lookup {K V A : Type} `{Countable K}
    (key : A -> option K) (val : A -> V) (f : gmap K V -> A -> gmap K V)
    (l : list A) (m0 : gmap K V) (k : K) (p : A -> bool) :
  (forall m a, f m a = match key a with Some k' => <[k' := val a]> m | None => m end) ->
  (forall a, p a = bool_decide (key a = Some k)) ->
  fold_left f l m0 !! k
  = match last_with p l with
    | Some a => Some (val a)
    | None => m0 !! k
    end.
Proof.
  intros Hf Hp. unfold last_with. induction l as [|x l IH] using rev_ind; [reflexivity|].
  rewrite fold_left_app, rev_app_distr. cbn [fold_left rev app List.find].
  rewrite Hf, Hp. destruct (key x) as [k'|].
  - destruct (decide (k' = k)) as [->|Hne].
    + rewrite lookup_insert_eq, bool_decide_eq_true_2 by reflexivity. reflexivity.
    + rewrite lookup_insert_ne by exact Hne.
      rewrite bool_decide_eq_false_2 by congruence. exact IH.
  - rewrite bool_decide_eq_false_2 by discriminate. exact IH.
Qed.

(** *** Text without markup *)

Lemma no_lt_no_start l s :
  pure_text s -> starts_with ("<"%char :: l) s = false.
Proof.
  intros H. destruct (starts_with ("<"%char :: l) s) eqn:E; [|reflexivity].
  apply starts_with_spec in E as [r ->]. exfalso. apply H. left. reflexivity.
Qed.

Lemma pure_text_suffix a b : pure_text (a ++ b) -> pure_text b.
Proof. intros H Hin. apply H. apply in_or_app. right. exact Hin. Qed.

(** A substitution whose pattern starts with [<] leaves a text without
    [<] as it is. *)
Lemma sub_pure l r repl s :
  pure_text s -> sub false (Str ("<"%char :: l) ;; r) repl s = s.
Proof.
  intros H. unfold sub. apply sub_scan_none. intros a b ->.
  apply match_needs_literal. apply no_lt_no_start. apply (pure_text_suffix a b H).
Qed.

Lemma squeeze_single_spaced t :
  single_spaced t = true -> squeeze false t = t.
Proof.
  induction t as [|a t IH]; [reflexivity|]. intros H.
  pose proof (single_spaced_tail a t H) as Ht. cbn [single_spaced] in H.
  apply andb_true_iff in H as [H _]. cbn [squeeze].
  destruct (is_space a) eqn:Ea.
  - cbn [negb orb] in H. apply andb_true_iff in H as [Hb Hn].
    apply eqc_true in Hb. subst a. f_equal. rewrite squeeze_run.
    destruct t as [|b t]; [reflexivity|].
    cbn [skip_while]. apply negb_true_iff in Hn. rewrite Hn. apply IH. exact Ht.
  - f_equal. apply IH. exact Ht.
Qed.

Lemma clean_markup_of_pure t :
  pure_text t -> clean_markup t = strip (squeeze false t).
Proof.
  intros H. unfold clean_markup, refsource_pattern, occurrence_pattern,
    wrapper_pattern, tag_pattern.
  change (L "<span class=" ++ [dq] ++ L "RefSource" ++ [dq] ++ L ">")
    with ("<"%char :: L "span class=" ++ [dq] ++ L "RefSource" ++ [dq] ++ L ">").
  change (L "<span class=" ++ [dq] ++ L "Occurrence")
    with ("<"%char :: L "span class=" ++ [dq] ++ L "Occurrence").
  change (L "<" ++ L "a") with ("<"%char :: L "a").
  change (L "<" ++ L "em") with ("<"%char :: L "em").
  change (L "<" ++ L "span") with ("<"%char :: L "span").
  change (L "<") with ("<"%char :: []).
  do 6 rewrite (sub_pure _ _ _ t H). rewrite sub_spaces. reflexivity.
Qed.

(** What the keyword pattern captures. *)
Lemma keyword_ms_in s x :
  In x (ms false keyword_pattern s []) ->
  exists k, snd x = [(1, k)] /\ k <> [] /\ pure_text k.
Proof.
  unfold keyword_pattern. intros H.
  apply ms_Cat_in in H as [y1 [H1 H]]. apply ms_Str_in in H1 as [_ Hc1].
  apply ms_Cat_in in H as [y2 [H2 H]].
  apply (ms_Star_in _ _ _ _ _ _ (one_char_NSet false [IChar ">"%char])) in H2
    as [_ [_ [_ Hc2]]].
  apply ms_Cat_in in H as [y3 [H3 H]]. apply ms_Str_in in H3 as [_ Hc3].
  apply ms_Cat_in in H as [y4 [H4 H]].
  apply ms_Group_in in H4 as [w [r4 [c4 [E4 [H4 ->]]]]].
  apply (ms_Plus_in _ _ _ _ _ _ (one_char_NSet false [IChar "<"%char])) in H4
    as [w' [E4' [Hne [Hp Hc4]]]].
  cbn [fst snd] in *. apply ms_Str_in in H as [_ Hc5]. cbn [fst snd] in *.
  rewrite E4 in E4'. apply app_inv_tail in E4'. subst w'.
  exists w. split; [|split; [exact Hne|]].
  - rewrite Hc5, Hc4, Hc3, Hc2, Hc1. reflexivity.
  - apply forallb_not_char. exact Hp.
Qed.

(** A test for [trimmed]. *)
Lemma trimmed_check t : trimmedb t = true -> trimmed t.
Proof.
  unfold trimmedb. intros H. apply andb_true_iff in H as [H1 H2]. split.
  - intros a t' ->. apply negb_true_iff. exact H1.
  - intros a t' ->. rewrite rev_app_distr in H2. apply negb_true_iff. exact H2.
Qed.

End ExtractionFacts.

Module ExtractionProperties.
Import Text Re Sys Common Citations TextFacts ReFacts ScanFacts BibFacts CleaningFacts.
Import SecondRunFacts ExtractionFacts.
Import Notions Examples RunNotions RunExamples.

(** X3.  Every citation the extraction cleans has an identifier made of
    CR and digits, and so a number; the dictionary of
    [extract_citations_with_regex] holds under each identifier, and that
    of [extract_citations_from_xhtml] under each number, the cleaned text
    of the last citation of the source that has it, and nothing else. *)
Theorem citations_stored (unescape : str -> str) (content : str) :
  (forall id text, In (id, text) (cleaned unescape content) ->
     exists ds, id = L "CR" ++ ds /\ ds <> [] /\ forallb is_digit ds = true
       /\ citation_number id = Some (int_of ds))
  /\ (forall cit_id,
        fst (FixContentLoss.citations_and_keywords unescape content) !! cit_id
        = option_map snd
            (last_with (fun kv : str * str => bool_decide (fst kv = cit_id))
                       (cleaned unescape content)))
  /\ (forall n,
        FixRemainingBibliography.citations_of unescape content !! n
        = option_map snd
            (last_with (fun kv : str * str =>
                          bool_decide (citation_number (fst kv) = Some n))
                       (cleaned unescape content))).
Proof.
  split; [|split].
  - intros id text Hin. destruct (cleaned_id unescape content id text Hin)
      as [ds [-> [Hne Hd]]].
    exists ds. repeat split; auto. apply citation_number_digits; assumption.
  - intros cit_id. unfold FixContentLoss.citations_and_keywords. cbn [fst].
    rewrite (fold_insert_lookup (fun kv : str * str => Some (fst kv)) snd _ _ _ cit_id
               (fun kv : str * str => bool_decide (fst kv = cit_id))).
    + rewrite lookup_empty. destruct (last_with _ _); reflexivity.
    + reflexivity.
    + intros a. apply bool_decide_ext. split; congruence.
  - intros n. unfold FixRemainingBibliography.citations_of.
    rewrite (fold_insert_lookup (fun kv : str * str => citation_number (fst kv)) snd
               _ _ _ n
               (fun kv : str * str => bool_decide (citation_number (fst kv) = Some n))).
    + rewrite lookup_empty. destruct (last_with _ _); reflexivity.
    + intros m a. unfold citation_number.
      destruct (search false FixRemainingBibliography.cr_pattern (fst a)); reflexivity.
    + reflexivity.
Qed.

(** A source with two citations of the number 7, written CR7 and CR07:
    the dictionary by identifier holds both, the dictionary by number the
    second. *)
Lemma citations_stored_witness :
  fst (FixContentLoss.citations_and_keywords (fun s => s) ex_two_sevens) !! L "CR7"
    = Some (L "First.")
  /\ fst (FixContentLoss.citations_and_keywords (fun s => s) ex_two_sevens) !! L "CR07"
    = Some (L "Second.")
  /\ FixRemainingBibliography.citations_of (fun s => s) ex_two_sevens !! 7%Z
    = Some (L "Second.").
Proof.
  destruct (citations_stored (fun s => s) ex_two_sevens) as [_ [H1 H2]].
  rewrite !H1, H2. vm_compute. repeat split; reflexivity.
Defined.

(** X4.  Cleaning a text that has no [<] only collapses its whitespace
    and trims it; a text without [<] in which whitespace is single
    blanks between other characters is left as it is; so the cleaning
    of a region in which every [<] opens a lower-case tag is idempotent. *)
Theorem cleaning_is_idempotent :
  (forall t, pure_text t -> clean_markup t = strip (squeeze false t))
  /\ (forall t, pure_text t -> single_spaced t = true -> trimmed t -> clean_markup t = t)
  /\ (forall region, well_tagged region ->
        clean_markup (clean_markup region) = clean_markup region).
Proof.
  assert (H2 : forall t, pure_text t -> single_spaced t = true -> trimmed t ->
                 clean_markup t = t).
  { intros t Hp Hs Ht. rewrite clean_markup_of_pure by exact Hp.
    rewrite squeeze_single_spaced by exact Hs. apply strip_id. exact Ht. }
  split; [exact clean_markup_of_pure|]. split; [exact H2|].
  intros region Hwt. destruct (clean_markup_spaced region) as [Hs Ht].
  apply H2; [apply clean_markup_pure; exact Hwt|exact Hs|exact Ht].
Qed.

(** The cleaned example citation is left as it is. *)
Lemma cleaning_is_idempotent_witness : clean_markup ex_cleaned = ex_cleaned.
Proof.
  apply (proj1 (proj2 cleaning_is_idempotent)).
  - unfold pure_text. not_in.
  - vm_compute. reflexivity.
  - apply trimmed_check. vm_compute. reflexivity.
Defined.

(** X5.  Every keyword the extraction returns is not empty, has no
    whitespace at either end and has no [<]; so for the keyword lists of
    [extract_keywords_from_xhtml] and [extract_citations_with_regex]. *)
Theorem keywords_are_clean :
  (forall content k, In k (keywords_of content) ->
     k <> [] /\ trimmed k /\ pure_text k)
  /\ (forall d xhtml_path keywords k,
        FixKeywords.extract_keywords_from_xhtml d xhtml_path = Ok keywords ->
        In k keywords -> k <> [] /\ trimmed k /\ pure_text k)
  /\ (forall unescape d xhtml_path citations keywords k,
        FixContentLoss.extract_citations_with_regex unescape d xhtml_path
        = Ok (citations, keywords) ->
        In k keywords -> k <> [] /\ trimmed k /\ pure_text k).
Proof.
  assert (H1 : forall content k, In k (keywords_of content) ->
                 k <> [] /\ trimmed k /\ pure_text k).
  { intros content k Hin. unfold keywords_of in Hin.
    apply in_map_iff in Hin as [k0 [<- Hin]].
    apply filter_In in Hin as [Hin Hlen].
    split; [|split].
    - intros E. rewrite E in Hlen. discriminate Hlen.
    - apply strip_trimmed.
    - unfold findall1 in Hin. apply in_map_iff in Hin as [m [<- Hm]].
      apply scan_caps in Hm as [t [rest Hm]]. apply re_match_in in Hm.
      apply keyword_ms_in in Hm as [w [Hc [_ Hw]]]. cbn [snd] in Hc.
      unfold m_group. rewrite Hc. change (group_or_empty 1 [(1, w)]) with w.
      apply not_in_forall. apply strip_forall. apply not_in_forall. exact Hw. }
  split; [exact H1|]. split.
  - intros d xhtml_path keywords k. unfold FixKeywords.extract_keywords_from_xhtml.
    destruct (read_text d xhtml_path) as [content|e]; cbn [bind try_except];
      intros [= <-]; [apply H1|intros []].
  - intros unescape d xhtml_path citations keywords k.
    unfold FixContentLoss.extract_citations_with_regex.
    destruct (read_text d xhtml_path) as [content|e]; cbn [bind try_except];
      intros [= <- <-]; [apply H1|intros []].
Qed.

(** A keyword of the example source, padded with blanks there. *)
Lemma keywords_are_clean_witness :
  L "Dysthymia" <> [] /\ trimmed (L "Dysthymia") /\ pure_text (L "Dysthymia").
Proof.
  apply (proj1 keywords_are_clean (spans ex_source_items (L "</div>"))).
  vm_compute. right. left. reflexivity.
Defined.

End ExtractionProperties.

(** ** The index-term check *)

Module IndexFacts.
Import Text Re Sys Common TextFacts ReFacts ScanFacts BibFacts CleaningFacts.
Import FixContentLoss ExtractionFacts.
Import Notions Examples RunNotions RunExamples.
Local Open Scope re_scope.

(** Every match of a scan is a match of the pattern at a suffix of the
    text. *)
Lemma scan_at ic r m : forall s k pos,
  In m (scan ic r k pos s) ->
  exists a b rest, s = a ++ b /\ re_match ic r b = Some (rest, m_caps m).
Proof.
  induction s as [|x s IH]; intros k pos H.
  - destruct k; [|destruct H]. cbn [scan] in H.
    destruct (re_match ic r []) as [[rest c]|] eqn:E; [|destruct H].
    destruct H as [<-|[]]. exists [], [], rest. split; [reflexivity|exact E].
  - assert (Hs : forall k' pos', In m (scan ic r k' pos' s) ->
               exists a b rest, x :: s = a ++ b /\ re_match ic r b = Some (rest, m_caps m)).
    { intros k' pos' H'. destruct (IH _ _ H') as [a [b [rest [-> E]]]].
      exists (x :: a), b, rest. split; [reflexivity|exact E]. }
    destruct k as [|k]; cbn [scan] in H.
    + destruct (re_match ic r (x :: s)) as [[rest c]|] eqn:E.
      * destruct H as [<-|H]; [|apply (Hs _ _ H)].
        exists [], (x :: s), rest. split; [reflexivity|exact E].
      * apply (Hs _ _ H).
    + apply (Hs _ _ H).
Qed.

(** A scan that finds nothing: the pattern matches at no suffix. *)
Lemma scan_nil ic r : forall s pos,
  scan ic r 0 pos s = [] -> forall a b, s = a ++ b -> re_match ic r b = None.
Proof.
  induction s as [|x s IH]; intros pos H a b E.
  - symmetry in E. apply app_eq_nil in E as [_ ->]. cbn [scan] in H.
    destruct (re_match ic r []) as [[rest c]|]; [discriminate H|reflexivity].
  - rewrite scan_unfold in H.
    destruct (re_match ic r (x :: s)) as [[rest c]|] eqn:Em; [discriminate H|].
    destruct a as [|y a]; cbn [app] in E.
    + subst b. exact Em.
    + injection E as _ E. apply (IH _ H a b E).
Qed.

(** [re.search] finds something exactly when the pattern matches at a
    suffix of the text. *)
Lemma search_some ic r s :
  is_some (search ic r s) = true <->
  exists a b rest c, s = a ++ b /\ re_match ic r b = Some (rest, c).
Proof.
  unfold search, finditer. split.
  - destruct (scan ic r 0 0 s) as [|m l] eqn:E; [discriminate|]. intros _.
    destruct (scan_at ic r m s 0 0) as [a [b [rest [Es Em]]]];
      [rewrite E; left; reflexivity|].
    exists a, b, rest, (m_caps m). auto.
  - intros [a [b [rest [c [Es Em]]]]].
    destruct (scan ic r 0 0 s) as [|m l] eqn:E; [|reflexivity].
    rewrite (scan_nil ic r s 0 E a b Es) in Em. discriminate Em.
Qed.

Lemma re_match_some ic r s x : In x (ms ic r s []) -> exists y, re_match ic r s = Some y.
Proof.
  unfold re_match. destruct (ms ic r s []) as [|y l]; [intros []|]. exists y. reflexivity.
Qed.

Lemma is_space_forallb ws :
  forallb (set_match false [ISpace]) ws = forallb is_space ws.
Proof. apply MappingClaims.forallb_ext_eq. exact set_match_space. Qed.

(** Where the expected text matches. *)
Lemma expected_in text full s x :
  In x (ms false (expected_pattern text full) s []) <->
  exists ws, s = text ++ ws ++ full ++ fst x /\ forallb is_space ws = true /\ snd x = [].
Proof.
  unfold expected_pattern, escaped. rewrite ms_Cat_in. split.
  - intros [y1 [H1 H]]. apply ms_Str_in in H1 as [E1 Hc1].
    apply ms_Cat_in in H as [y2 [H2 H]].
    apply (ms_Star_in _ _ _ _ _ _ one_char_space) in H2 as [ws [E2 [Hws Hc2]]].
    apply ms_Str_in in H as [E3 Hc3].
    exists ws. rewrite E1, E2, E3. repeat split; auto. congruence.
  - intros [ws [E [Hws Hc]]].
    exists (ws ++ full ++ fst x, []). split; [apply ms_Str_in; auto|].
    apply ms_Cat_in. exists (full ++ fst x, []). split.
    + apply (ms_Star_in _ _ _ _ _ _ one_char_space). exists ws. auto.
    + apply ms_Str_in. auto.
Qed.

(** Where the paragraph-start text matches. *)
Lemma start_of_para_in text full s x :
  In x (ms false (start_of_para_pattern text full) s []) <->
  exists attrs ws1 ws2,
    s = L "<para" ++ attrs ++ L ">" ++ ws1 ++ text ++ ws2 ++ firstn 20 full ++ fst x
    /\ ~ In ">"%char attrs /\ forallb is_space ws1 = true
    /\ forallb is_space ws2 = true /\ snd x = [].
Proof.
  unfold start_of_para_pattern, escaped. rewrite ms_Cat_in. split.
  - intros [y1 [H1 H]]. apply ms_Str_in in H1 as [E1 Hc1].
    apply ms_Cat_in in H as [y2 [H2 H]].
    apply (ms_Star_in _ _ _ _ _ _ (one_char_NSet false [IChar ">"%char])) in H2
      as [attrs [E2 [Hattrs Hc2]]].
    apply ms_Cat_in in H as [y3 [H3 H]]. apply ms_Str_in in H3 as [E3 Hc3].
    apply ms_Cat_in in H as [y4 [H4 H]].
    apply (ms_Star_in _ _ _ _ _ _ one_char_space) in H4 as [ws1 [E4 [Hws1 Hc4]]].
    apply ms_Cat_in in H as [y5 [H5 H]]. apply ms_Str_in in H5 as [E5 Hc5].
    apply ms_Cat_in in H as [y6 [H6 H]].
    apply (ms_Star_in _ _ _ _ _ _ one_char_space) in H6 as [ws2 [E6 [Hws2 Hc6]]].
    apply ms_Str_in in H as [E7 Hc7].
    exists attrs, ws1, ws2. rewrite E1, E2, E3, E4, E5, E6, E7.
    repeat split; auto.
    + apply forallb_not_char. exact Hattrs.
    + congruence.
  - intros [attrs [ws1 [ws2 [E [Hattrs [Hws1 [Hws2 Hc]]]]]]].
    exists (attrs ++ L ">" ++ ws1 ++ text ++ ws2 ++ firstn 20 full ++ fst x, []).
    split; [apply ms_Str_in; auto|].
    apply ms_Cat_in. exists (L ">" ++ ws1 ++ text ++ ws2 ++ firstn 20 full ++ fst x, []).
    split.
    { apply (ms_Star_in _ _ _ _ _ _ (one_char_NSet false [IChar ">"%char])).
      exists attrs. repeat split; auto. apply forallb_not_char. exact Hattrs. }
    apply ms_Cat_in. exists (ws1 ++ text ++ ws2 ++ firstn 20 full ++ fst x, []).
    split; [apply ms_Str_in; auto|].
    apply ms_Cat_in. exists (text ++ ws2 ++ firstn 20 full ++ fst x, []).
    split; [apply (ms_Star_in _ _ _ _ _ _ one_char_space); exists ws1; auto|].
    apply ms_Cat_in. exists (ws2 ++ firstn 20 full ++ fst x, []).
    split; [apply ms_Str_in; auto|].
    apply ms_Cat_in. exists (firstn 20 full ++ fst x, []).
    split; [apply (ms_Star_in _ _ _ _ _ _ one_char_space); exists ws2; auto|].
    apply ms_Str_in. auto.
Qed.

(** What the marker pattern captures. *)
Lemma indexterm_ms_in s x :
  In x (ms false indexterm_pattern s []) ->
  exists text, snd x = [(1, text)] /\ text <> [] /\ pure_text text
    /\ exists w, s = w ++ fst x /\ w <> [].
Proof.
  unfold indexterm_pattern. intros H.
  apply ms_Cat_in in H as [y1 [H1 H]]. apply ms_Str_in in H1 as [E1 Hc1].
  apply ms_Cat_in in H as [y2 [H2 H]].
  apply (ms_Star_in _ _ _ _ _ _ (one_char_NSet false [IChar ">"%char])) in H2
    as [attrs [E2 [_ Hc2]]].
  apply ms_Cat_in in H as [y3 [H3 H]]. apply ms_Str_in in H3 as [E3 Hc3].
  apply ms_Cat_in in H as [y4 [H4 H]].
  apply (ms_Star_in _ _ _ _ _ _ one_char_space) in H4 as [ws1 [E4 [_ Hc4]]].
  apply ms_Cat_in in H as [y5 [H5 H]]. apply ms_Str_in in H5 as [E5 Hc5].
  apply ms_Cat_in in H as [y6 [H6 H]].
  apply ms_Group_in in H6 as [w [r6 [c6 [E6 [H6 ->]]]]].
  apply (ms_Plus_in _ _ _ _ _ _ (one_char_NSet false [IChar "<"%char])) in H6
    as [w' [E6' [Hne [Hp Hc6]]]].
  cbn [fst snd] in *.
  rewrite E6 in E6'. apply app_inv_tail in E6'. subst w'.
  destruct (ms_suffix false _ _ _ _ H) as [u Eu]. cbn [fst] in Eu.
  assert (Hc : snd x = [(1, w)]).
  { apply ms_Cat_in in H as [y7 [H7 H]]. apply ms_Str_in in H7 as [_ Hc7].
    apply ms_Cat_in in H as [y8 [H8 H]].
    apply (ms_Star_in _ _ _ _ _ _ one_char_space) in H8 as [_ [_ [_ Hc8]]].
    apply ms_Str_in in H as [_ Hc9]. cbn [fst snd] in *.
    rewrite Hc9, Hc8, Hc7, Hc6, Hc5, Hc4, Hc3, Hc2, Hc1. reflexivity. }
  exists w. split; [exact Hc|]. split; [exact Hne|]. split.
  - apply forallb_not_char. exact Hp.
  - exists (L "<indexterm" ++ attrs ++ L ">" ++ ws1 ++ L "<primary>" ++ w ++ u).
    split; [|discriminate].
    rewrite E1, E2, E3, E4, E5, E6, Eu. rewrite <- !app_assoc. reflexivity.
Qed.

Lemma indexterm_nonempty : nonempty false indexterm_pattern.
Proof.
  intros s rest c H. apply re_match_in in H. apply indexterm_ms_in in H
    as [_ [_ [_ [_ [w [-> Hw]]]]]].
  cbn [fst]. rewrite length_app. destruct w; [congruence|]. simpl. lia.
Qed.

(** The characters of [content[max(0, n - 50):n]]. *)
Lemma context_before (pre rest : str) :
  firstn (length pre - (length pre - 50)) (skipn (length pre - 50) (pre ++ rest))
  = skipn (length pre - 50) pre.
Proof.
  rewrite skipn_app.
  replace (length pre - 50 - length pre) with 0 by lia. cbn [skipn].
  rewrite firstn_app, length_skipn.
  replace (length pre - (length pre - 50) - (length pre - (length pre - 50))) with 0
    by lia.
  cbn [firstn]. rewrite app_nil_r. apply firstn_all2. rewrite length_skipn. lia.
Qed.

End IndexFacts.

Module IndexProperties.
Import Text Re Sys Common TextFacts ReFacts ScanFacts BibFacts CleaningFacts.
Import FixContentLoss ExtractionFacts IndexFacts Listing ContentLossRun.
Import Notions Examples RunNotions RunExamples.

(** X6.  The check of [verify_indexterm_fixes] records no issue for a
    marker exactly when the file has, at any place, the primary text,
    whitespace or nothing, and the text of the marker; or a paragraph
    tag, whitespace or nothing, the primary text, whitespace or nothing,
    and the first 20 characters of the marker. *)
Theorem indexterm_check_rule (content : str) (m : mobj) :
  indexterm_issue content m = None <->
  (exists pre ws post,
     content = pre ++ m_group 1 m ++ ws ++ m_whole m ++ post
     /\ forallb is_space ws = true)
  \/ (exists pre attrs ws1 ws2 post,
        content = pre ++ L "<para" ++ attrs ++ L ">" ++ ws1 ++ m_group 1 m ++ ws2
                  ++ firstn 20 (m_whole m) ++ post
        /\ ~ In ">"%char attrs /\ forallb is_space ws1 = true
        /\ forallb is_space ws2 = true).
Proof.
  unfold indexterm_issue.
  destruct (is_some (search false (expected_pattern (m_group 1 m) (m_whole m)) content))
    eqn:E1; cbn [negb].
  - split; [intros _|reflexivity]. left.
    apply search_some in E1 as [a [b [rest [c [Es Em]]]]].
    apply re_match_in in Em. apply expected_in in Em as [ws [Eb [Hws _]]].
    cbn [fst] in Eb. exists a, ws, rest. rewrite Es, Eb. auto.
  - destruct (is_some (search false (start_of_para_pattern (m_group 1 m) (m_whole m))
                         content)) eqn:E2; cbn [negb].
    + split; [intros _|reflexivity]. right.
      apply search_some in E2 as [a [b [rest [c [Es Em]]]]].
      apply re_match_in in Em.
      apply start_of_para_in in Em as [attrs [ws1 [ws2 [Eb [Ha [H1 [H2 _]]]]]]].
      cbn [fst] in Eb. exists a, attrs, ws1, ws2, rest. rewrite Es, Eb. auto.
    + split; [discriminate|]. intros [[pre [ws [post [Ec Hws]]]]|
                                      [pre [attrs [ws1 [ws2 [post [Ec [Ha [H1 H2]]]]]]]]].
      * assert (H : is_some (search false
                       (expected_pattern (m_group 1 m) (m_whole m)) content) = true).
        { apply search_some.
          destruct (re_match_some false (expected_pattern (m_group 1 m) (m_whole m))
                      (m_group 1 m ++ ws ++ m_whole m ++ post) (post, []))
            as [[rest c] Hy].
          - apply expected_in. exists ws. auto.
          - exists pre, (m_group 1 m ++ ws ++ m_whole m ++ post), rest, c. auto. }
        congruence.
      * assert (H : is_some (search false
                       (start_of_para_pattern (m_group 1 m) (m_whole m)) content) = true).
        { apply search_some.
          destruct (re_match_some false
                      (start_of_para_pattern (m_group 1 m) (m_whole m))
                      (L "<para" ++ attrs ++ L ">" ++ ws1 ++ m_group 1 m ++ ws2
                       ++ firstn 20 (m_whole m) ++ post) (post, []))
            as [[rest c] Hy].
          - apply start_of_para_in. exists attrs, ws1, ws2. auto 6.
          - exists pre, (L "<para" ++ attrs ++ L ">" ++ ws1 ++ m_group 1 m ++ ws2
                         ++ firstn 20 (m_whole m) ++ post), rest, c. auto. }
        congruence.
Qed.

(** The second marker of the example is not recorded: its text stands
    before the first marker. *)
Lemma indexterm_check_rule_witness :
  indexterm_issue ex_index (MObj 99 (marker (L "Anxiety")) [(1, L "Anxiety")]) = None.
Proof.
  apply (proj2 (indexterm_check_rule ex_index
                  (MObj 99 (marker (L "Anxiety")) [(1, L "Anxiety")]))).
  left. exists (L "<para>"), [],
    (L " is common.</para>" ++ L "<para>Treatment of " ++ marker (L "Anxiety")
     ++ L " varies.</para>").
  split; vm_compute; reflexivity.
Defined.

(** X7.  An issue that [verify_indexterm_fixes] records for a marker
    has the primary text of the marker, which is not empty and has no
    [<], and as context the characters of the file before the marker,
    the last 50 of them when there are more; and every issue of the run
    is an issue of a readable file of the output directory named
    [sect1.*.xml]. *)
Theorem indexterm_issue_report :
  (forall content m iss,
     In m (finditer false indexterm_pattern content) ->
     indexterm_issue content m = Some iss ->
     i_text iss = m_group 1 m /\ i_text iss <> [] /\ pure_text (i_text iss)
     /\ exists pre rest,
          content = pre ++ m_whole m ++ rest
          /\ i_context iss = skipn (length pre - 50) pre
          /\ length (i_context iss) <= 50)
  /\ (forall out fi,
        In fi (verify_indexterm_fixes out) ->
        exists content,
          out !! issue_file fi = Some (TextFile content)
          /\ glob_match (glob_pattern (L "sect1.*.xml")) (L (issue_file fi)) = true
          /\ In (issue_found fi) (indexterm_issues content)).
Proof.
  split.
  - intros content m iss Hm. unfold indexterm_issue.
    destruct (negb _); [|discriminate]. destruct (negb _); [|discriminate].
    intros [= <-]. cbn [i_text i_context].
    destruct (finditer_in _ _ _ _ indexterm_nonempty Hm) as [pre [rest [Ec [Hs [_ Hr]]]]].
    apply re_match_in in Hr. apply indexterm_ms_in in Hr as [text [Hc [Hne [Hp _]]]].
    cbn [snd] in Hc. unfold m_group. rewrite Hc.
    change (group_or_empty 1 [(1, text)]) with text.
    repeat split; auto. exists pre, rest. split; [exact Ec|].
    rewrite Hs. rewrite Ec at 1 2. rewrite context_before.
    split; [reflexivity|]. rewrite length_skipn. lia.
  - intros out fi. unfold verify_indexterm_fixes.
    assert (H : forall l acc,
              (forall f, In f l -> In f (glob out (L "sect1.*.xml"))) ->
              In fi (fold_left (verify_file out) l acc) ->
              In fi acc \/
              exists content,
                out !! issue_file fi = Some (TextFile content)
                /\ glob_match (glob_pattern (L "sect1.*.xml")) (L (issue_file fi)) = true
                /\ In (issue_found fi) (indexterm_issues content)).
    { induction l as [|f l IH]; intros acc Hl Hin; [left; exact Hin|].
      cbn [fold_left] in Hin.
      apply IH in Hin as [Hin|Hin]; [|right; exact Hin|intros g Hg; apply Hl; right; exact Hg].
      unfold verify_file, read_text in Hin.
      destruct (out !! f) as [[content|]|] eqn:Ef; try (left; exact Hin).
      apply in_app_or in Hin as [Hin|Hin]; [left; exact Hin|].
      apply in_map_iff in Hin as [iss [<- Hiss]]. right. exists content.
      cbn [issue_file issue_found]. split; [exact Ef|]. split; [|exact Hiss].
      assert (Hg : In f (glob out (L "sect1.*.xml"))) by (apply Hl; left; reflexivity).
      unfold glob in Hg. apply filter_In in Hg as [_ Hg]. exact Hg. }
    intros Hin. apply H in Hin as [[]|Hin]; [exact Hin|].
    intros f Hf. unfold sorted in Hf.
    apply (Permutation_in f (merge_sort_Permutation name_le _)). exact Hf.
Qed.

(** The issue of the example file cut before its second paragraph. *)
Lemma indexterm_issue_report_witness :
  exists pre rest,
    skipn 80 ex_index = pre ++ marker (L "Anxiety") ++ rest
    /\ L "<para>Treatment of " = skipn (length pre - 50) pre.
Proof.
  destruct (proj1 indexterm_issue_report (skipn 80 ex_index)
              (MObj 19 (marker (L "Anxiety")) [(1, L "Anxiety")])
              (Issue (L "Anxiety") (L "<para>Treatment of ")))
    as [_ [_ [_ [pre [rest [E [Hc _]]]]]]].
  - vm_compute. left. reflexivity.
  - vm_compute. reflexivity.
  - exists pre, rest. auto.
Defined.

End IndexProperties.

(** ** Numbers in file names *)

Module NumberFacts.
Import Text Re Sys Common TextFacts ReFacts ScanFacts BibFacts CleaningFacts.
Import ExtractionFacts IndexFacts Listing ContentLossRun.
Import Notions Examples RunNotions RunExamples.
Local Open Scope re_scope.

(** [int] reads back what the number formats write. *)
Lemma int_of_step (a : ascii) (s : str) (acc : Z) :
  fold_left (fun acc a => (10 * acc + digit_val a)%Z) (a :: s) acc
  = fold_left (fun acc a => (10 * acc + digit_val a)%Z) s (10 * acc + digit_val a)%Z.
Proof. reflexivity. Qed.

Lemma of_uint_acc_val (d : Decimal.uint) : forall acc : positive,
  Zpos (Pos.of_uint_acc d acc)
  = fold_left (fun acc a => (10 * acc + digit_val a)%Z)
              (L (NilEmpty.string_of_uint d)) (Zpos acc).
Proof.
  induction d as [|d IH|d IH|d IH|d IH|d IH|d IH|d IH|d IH|d IH|d IH]; intros acc;
    [reflexivity|..];
    cbn [NilEmpty.string_of_uint L list_ascii_of_string Pos.of_uint_acc];
    rewrite int_of_step, IH; f_equal; vm_compute digit_val; lia.
Qed.

Lemma of_uint_val (d : Decimal.uint) :
  Z.of_N (Pos.of_uint d) = int_of (L (NilEmpty.string_of_uint d)).
Proof.
  unfold int_of.
  induction d as [|d IH|d IH|d IH|d IH|d IH|d IH|d IH|d IH|d IH|d IH];
    [reflexivity|..];
    cbn [NilEmpty.string_of_uint L list_ascii_of_string Pos.of_uint];
    rewrite int_of_step; [exact IH|..];
    cbn [Z.of_N]; rewrite of_uint_acc_val; f_equal.
Qed.

Lemma digits_of_uint (d : Decimal.uint) :
  forallb is_digit (L (NilEmpty.string_of_uint d)) = true.
Proof.
  induction d as [|d IH|d IH|d IH|d IH|d IH|d IH|d IH|d IH|d IH|d IH];
    [reflexivity|..];
    cbn [NilEmpty.string_of_uint L list_ascii_of_string forallb];
    fold (L (NilEmpty.string_of_uint d)); rewrite IH; reflexivity.
Qed.

Lemma fmt_d_digits (n : Z) :
  fmt_d n <> [] /\ forallb is_digit (fmt_d n) = true.
Proof.
  unfold fmt_d, NilZero.string_of_uint.
  destruct (N.to_uint (Z.to_N n)) eqn:E; try (split; [discriminate|]);
    try (rewrite <- E; apply digits_of_uint).
  reflexivity.
Qed.

Lemma int_of_fmt_d (n : Z) : (0 <= n)%Z -> int_of (fmt_d n) = n.
Proof.
  intros Hn. unfold fmt_d, NilZero.string_of_uint.
  pose proof (DecimalN.Unsigned.of_to (Z.to_N n)) as H. unfold N.of_uint in H.
  destruct (N.to_uint (Z.to_N n)) eqn:E.
  - cbn in H. change (int_of (L "0")) with 0%Z. lia.
  - rewrite <- of_uint_val, H. lia.
  - rewrite <- of_uint_val, H. lia.
  - rewrite <- of_uint_val, H. lia.
  - rewrite <- of_uint_val, H. lia.
  - rewrite <- of_uint_val, H. lia.
  - rewrite <- of_uint_val, H. lia.
  - rewrite <- of_uint_val, H. lia.
  - rewrite <- of_uint_val, H. lia.
  - rewrite <- of_uint_val, H. lia.
  - rewrite <- of_uint_val, H. lia.
Qed.

Lemma int_of_zeros k (d : str) : int_of (repeat "0"%char k ++ d) = int_of d.
Proof.
  unfold int_of. induction k as [|k IH]; [reflexivity|].
  cbn [repeat app]. rewrite int_of_step. exact IH.
Qed.

Lemma fmt_0d_digits w (n : Z) :
  fmt_0d w n <> [] /\ forallb is_digit (fmt_0d w n) = true.
Proof.
  unfold fmt_0d. destruct (fmt_d_digits n) as [Hne Hd]. split.
  - intros E. apply app_eq_nil in E as [_ E]. auto.
  - rewrite forallb_app, Hd, andb_true_r.
    induction (w - length (fmt_d n)) as [|k IH]; [reflexivity|]. exact IH.
Qed.

Lemma int_of_fmt_0d w (n : Z) : (0 <= n)%Z -> int_of (fmt_0d w n) = n.
Proof. intros Hn. unfold fmt_0d. rewrite int_of_zeros. apply int_of_fmt_d. exact Hn. Qed.

(** *** Globs *)

Lemma star_match_spec (f : str -> bool) (s : str) :
  star_match f s = true <-> exists a b, s = a ++ b /\ f b = true.
Proof.
  induction s as [|x s IH]; cbn [star_match].
  - rewrite orb_false_r. split.
    + intros H. exists [], []. auto.
    + intros [a [b [E H]]]. symmetry in E. apply app_eq_nil in E as [_ ->]. exact H.
  - rewrite orb_true_iff, IH. split.
    + intros [H|[a [b [-> H]]]]; [exists [], (x :: s); auto|].
      exists (x :: a), b. auto.
    + intros [a [b [E H]]]. destruct a as [|y a]; cbn [app] in E.
      * left. rewrite E. exact H.
      * right. injection E as _ ->. exists a, b. auto.
Qed.

Lemma glob_pattern_app a b : glob_pattern (a ++ b) = glob_pattern a ++ glob_pattern b.
Proof. apply map_app. Qed.

(** A pattern that starts with a text without star. *)
Lemma glob_literal (l : str) (p : list gtok) (s : str) :
  ~ In "*"%char l ->
  glob_match (glob_pattern l ++ p) s = true <->
  exists r, s = l ++ r /\ glob_match p r = true.
Proof.
  revert s. induction l as [|c l IH]; intros s Hl; cbn [glob_pattern map app].
  - split; [intros H; exists s; auto|intros [r [-> H]]; exact H].
  - destruct (eqc c "*"%char) eqn:Ec.
    { apply eqc_true in Ec. exfalso. apply Hl. left. exact Ec. }
    cbn [glob_match]. destruct s as [|x s].
    + split; [discriminate|intros [r [E _]]; discriminate E].
    + rewrite andb_true_iff, eqc_true. fold (glob_pattern l). rewrite IH.
      * split.
        -- intros [-> [r [-> H]]]. exists r. auto.
        -- intros [r [E H]]. injection E as -> ->. split; [reflexivity|]. exists r. auto.
      * intros H. apply Hl. right. exact H.
Qed.

Lemma glob_end (s : str) : glob_match [] s = true <-> s = [].
Proof. destruct s; cbn [glob_match]; split; congruence. Qed.

(** A pattern of a text, a star and a text. *)
Lemma glob_one_star (a b s : str) :
  ~ In "*"%char a -> ~ In "*"%char b ->
  glob_match (glob_pattern (a ++ "*"%char :: b)) s = true <->
  exists m, s = a ++ m ++ b.
Proof.
  intros Ha Hb. rewrite glob_pattern_app, (glob_literal a _ s Ha).
  cbn [glob_pattern map]. change (eqc "*"%char "*"%char) with true. cbn iota.
  fold (glob_pattern b). cbn [glob_match]. split.
  - intros [r [-> H]]. apply star_match_spec in H as [m [t [-> H]]].
    rewrite <- (app_nil_r (glob_pattern b)) in H.
    apply (glob_literal b [] t Hb) in H as [r [-> H]]. apply glob_end in H. subst r.
    exists m. rewrite app_nil_r. reflexivity.
  - intros [m ->]. exists (m ++ b). split; [reflexivity|].
    apply star_match_spec. exists m, b. split; [reflexivity|].
    rewrite <- (app_nil_r (glob_pattern b)). apply (glob_literal b [] b Hb).
    exists []. rewrite app_nil_r. split; [reflexivity|]. reflexivity.
Qed.

Lemma digits_no_star ds : forallb is_digit ds = true -> ~ In "*"%char ds.
Proof.
  intros H Hin. rewrite forallb_forall in H. apply H in Hin. discriminate.
Qed.

Lemma in_sorted f l : In f (sorted l) <-> In f l.
Proof.
  unfold sorted. split; intros H.
  - apply (Permutation_in f (merge_sort_Permutation name_le l)). exact H.
  - apply (Permutation_in f (Permutation_sym (merge_sort_Permutation name_le l))).
    exact H.
Qed.

Lemma in_glob (d : dir) pattern f :
  In f (glob d pattern) <->
  (exists x, d !! f = Some x) /\ glob_match (glob_pattern pattern) (L f) = true.
Proof.
  unfold glob. rewrite filter_In. split; intros [H1 H2]; (split; [|exact H2]).
  - apply in_map_iff in H1 as [[k x] [<- H]]. exists x.
    apply list_elem_of_In, elem_of_map_to_list in H. exact H.
  - destruct H1 as [x Hx]. apply in_map_iff. exists (f, x). split; [reflexivity|].
    apply list_elem_of_In, elem_of_map_to_list. exact Hx.
Qed.

(** *** The names of the source files *)

Lemma ms_Eos_in s c x :
  In x (ms false Eos s c) <-> x = (s, c) /\ (s = [] \/ s = [nl]).
Proof.
  cbn [ms]. destruct s as [|a [|b s]].
  - split; [intros [<-|[]]; auto|intros [-> _]; left; reflexivity].
  - destruct (eqc a nl) eqn:E.
    + apply eqc_true in E. subst a.
      split; [intros [<-|[]]; auto|intros [-> _]; left; reflexivity].
    + split; [intros []|]. intros [_ [H|H]]; [discriminate H|].
      injection H as ->. discriminate E.
  - split; [intros []|]. intros [_ [H|H]]; discriminate H.
Qed.

Lemma xhtml_name_in s x :
  In x (ms false xhtml_name_pattern s []) <->
  exists ds, s = L "_" ++ ds ++ L "_Chapter.xhtml" ++ fst x
    /\ ds <> [] /\ forallb is_digit ds = true
    /\ (fst x = [] \/ fst x = [nl]) /\ snd x = [(1, ds)].
Proof.
  unfold xhtml_name_pattern. rewrite ms_Cat_in. split.
  - intros [y1 [H1 H]]. apply ms_Str_in in H1 as [E1 Hc1].
    apply ms_Cat_in in H as [y2 [H2 H]].
    apply ms_Group_in in H2 as [w [r2 [c2 [E2 [H2 ->]]]]].
    apply (ms_Plus_in _ _ _ _ _ _ one_char_digit) in H2 as [w' [E2' [Hne [Hd Hc2]]]].
    cbn [fst snd] in *. rewrite E2 in E2'. apply app_inv_tail in E2'. subst w'.
    apply ms_Cat_in in H as [y3 [H3 H]]. apply ms_Str_in in H3 as [E3 Hc3].
    apply ms_Eos_in in H as [-> Hend]. cbn [fst snd] in *.
    exists w. rewrite E1, E2, E3. repeat split; auto. congruence.
  - intros [ds [E [Hne [Hd [Hend Hc]]]]].
    exists (ds ++ L "_Chapter.xhtml" ++ fst x, []). split; [apply ms_Str_in; auto|].
    apply ms_Cat_in. exists (L "_Chapter.xhtml" ++ fst x, [(1, ds)]). split.
    + apply ms_Group_in. exists ds, (L "_Chapter.xhtml" ++ fst x), [].
      repeat split; auto.
      apply (ms_Plus_in _ _ _ _ _ _ one_char_digit). exists ds. auto.
    + apply ms_Cat_in. exists (fst x, [(1, ds)]). split; [apply ms_Str_in; auto|].
      apply ms_Eos_in. split; [|exact Hend]. destruct x. cbn [fst snd] in *. congruence.
Qed.

Lemma digits_no_underscore ds : forallb is_digit ds = true -> ~ In "_"%char ds.
Proof.
  intros H Hin. rewrite forallb_forall in H. apply H in Hin. discriminate.
Qed.

(** The text after the last match of the name pattern is empty. *)
Lemma xhtml_name_end (u v tail : str) :
  u ++ L "_Chapter.xhtml" = v ++ L "_Chapter.xhtml" ++ tail ->
  tail = [] \/ tail = [nl] -> tail = [] /\ u = v.
Proof.
  intros E [-> | ->].
  - rewrite app_nil_r in E. apply app_inv_tail in E. auto.
  - exfalso. change (L "_Chapter.xhtml") with (L "_Chapter.xhtm" ++ ["l"%char]) in E at 1.
    rewrite !app_assoc in E. apply app_inj_tail in E as [_ E]. discriminate E.
Qed.

Lemma xhtml_name_match ds :
  ds <> [] -> forallb is_digit ds = true ->
  re_match false xhtml_name_pattern (L "_" ++ ds ++ L "_Chapter.xhtml")
  = Some ([], [(1, ds)]).
Proof.
  intros Hne Hd. apply re_match_unique.
  - apply xhtml_name_in. exists ds. cbn [fst snd]. rewrite app_nil_r. auto 10.
  - intros [r c] H. apply xhtml_name_in in H as [ds' [E [_ [_ [Hend Hc]]]]].
    cbn [fst snd] in *.
    change (L "_" ++ ds ++ L "_Chapter.xhtml") with ((L "_" ++ ds) ++ L "_Chapter.xhtml")
      in E.
    change (L "_" ++ ds' ++ L "_Chapter.xhtml" ++ r)
      with ((L "_" ++ ds') ++ L "_Chapter.xhtml" ++ r) in E.
    apply xhtml_name_end in E as [-> E]; [|exact Hend].
    injection E as <-. rewrite Hc. reflexivity.
Qed.

Lemma xhtml_name_number pre ds :
  ds <> [] -> forallb is_digit ds = true ->
  get_chapter_number_from_xhtml (pre ++ L "_" ++ ds ++ L "_Chapter.xhtml")
  = Some (int_of ds).
Proof.
  intros Hne Hd. unfold get_chapter_number_from_xhtml, search, finditer.
  rewrite scan_gap.
  - rewrite scan_unfold, (xhtml_name_match ds Hne Hd). reflexivity.
  - intros a b Hab Hb. apply re_match_none. intros x Hx.
    apply xhtml_name_in in Hx as [ds' [E [_ [Hd' [Hend _]]]]].
    change (b ++ L "_" ++ ds ++ L "_Chapter.xhtml")
      with (b ++ (L "_" ++ ds) ++ L "_Chapter.xhtml") in E.
    rewrite app_assoc in E.
    change (L "_" ++ ds' ++ L "_Chapter.xhtml" ++ fst x)
      with ((L "_" ++ ds') ++ L "_Chapter.xhtml" ++ fst x) in E.
    apply xhtml_name_end in E as [_ E]; [|exact Hend].
    destruct b as [|b0 b]; [congruence|]. cbn [app] in E. injection E as _ E.
    apply (digits_no_underscore ds' Hd'). rewrite <- E.
    apply in_or_app. right. left. reflexivity.
Qed.

Lemma ends_with_spec suffix s : ends_with suffix s = true <-> exists pre, s = pre ++ suffix.
Proof.
  unfold ends_with. rewrite starts_with_spec. split.
  - intros [r E]. exists (rev r). apply (f_equal (@rev ascii)) in E.
    rewrite rev_involutive, rev_app_distr, rev_involutive in E. exact E.
  - intros [pre ->]. exists (rev pre). apply rev_app_distr.
Qed.

(** *** The names of the section files *)

Lemma section_name_number pre ds rest :
  contains (L "ch") pre = false ->
  ds <> [] -> forallb is_digit ds = true ->
  match rest with a :: _ => is_digit a = false | [] => True end ->
  get_chapter_number_from_xml (pre ++ L "ch" ++ ds ++ rest) = Some (int_of ds).
Proof.
  intros Hpre Hne Hd Hrest.
  unfold get_chapter_number_from_xml, chapter_of_name, search, finditer, ch_pattern.
  change (L "ch") with ("c"%char :: L "h"). cbn [app].
  rewrite scan_pass_prefix; [|not_in|exact Hpre].
  pose proof (number_after_literal (L "ch") 1 ds rest Hne Hd Hrest) as Hm.
  change ("c"%char :: L "h" ++ ds ++ rest) with (L "ch" ++ ds ++ rest).
  change ("c"%char :: L "h") with (L "ch").
  rewrite scan_unfold, Hm. cbn [head]. unfold m_group. reflexivity.
Qed.

End NumberFacts.

Module NumberProperties.
Import Text Re Sys Common TextFacts ReFacts ScanFacts BibFacts CleaningFacts.
Import ExtractionFacts IndexFacts NumberFacts Listing ContentLossRun.
Import Notions Examples RunNotions RunExamples.

(** X8.  [get_chapter_number_from_xhtml] reads the number that stands
    between an underscore and [_Chapter.xhtml] at the end of a name, where
    the end can be followed by one newline, and gives [None] for every
    other name; a file that the glob of [get_xhtml_file_for_chapter] or
    [get_xhtml_chapter_file] lists for a chapter number that is not
    negative has that number. *)
Theorem xhtml_chapter_number :
  (forall pre ds, ds <> [] -> forallb is_digit ds = true ->
     get_chapter_number_from_xhtml (pre ++ L "_" ++ ds ++ L "_Chapter.xhtml")
     = Some (int_of ds))
  /\ (forall filename n, get_chapter_number_from_xhtml filename = Some n ->
        exists pre ds tail,
          filename = pre ++ L "_" ++ ds ++ L "_Chapter.xhtml" ++ tail
          /\ ds <> [] /\ forallb is_digit ds = true
          /\ (tail = [] \/ tail = [nl]) /\ n = int_of ds)
  /\ (forall (xhtml : dir) (n : Z) (name : string),
        (0 <= n)%Z -> In name (glob_chapter xhtml n) ->
        get_chapter_number_from_xhtml (L name) = Some n).
Proof.
  split; [exact xhtml_name_number|]. split.
  - intros filename n. unfold get_chapter_number_from_xhtml, search, finditer.
    destruct (scan false xhtml_name_pattern 0 0 filename) as [|m l] eqn:E;
      [discriminate|].
    cbn [head]. intros [= <-].
    destruct (scan_at false xhtml_name_pattern m filename 0 0)
      as [a [b [rest [Es Em]]]]; [rewrite E; left; reflexivity|].
    apply re_match_in in Em. apply xhtml_name_in in Em as [ds [Eb [Hne [Hd [Hr Hc]]]]].
    cbn [fst snd] in *. exists a, ds, rest. rewrite Es, Eb.
    unfold m_group. rewrite Hc. auto.
  - intros xhtml n name Hn Hin. unfold glob_chapter in Hin.
    apply filter_In in Hin as [_ Hin]. apply ends_with_spec in Hin as [pre E].
    rewrite E. destruct (fmt_d_digits n) as [Hne Hd].
    rewrite (xhtml_name_number pre (fmt_d n) Hne Hd), int_of_fmt_d by exact Hn.
    reflexivity.
Qed.

(** The source file of chapter 6 of the example directory. *)
Lemma xhtml_chapter_number_witness :
  get_chapter_number_from_xhtml (L "106097_6_En_6_Chapter.xhtml") = Some 6%Z.
Proof.
  apply (proj2 (proj2 xhtml_chapter_number) ex_xhtml 6%Z "106097_6_En_6_Chapter.xhtml").
  - lia.
  - vm_compute. left. reflexivity.
Defined.

(** X9.  [get_chapter_number_from_xml] reads the first run of digits
    that follows [ch] in a name; a file that the glob of
    [find_xml_bibliography_file] or [find_xml_keywords_file] lists for a
    chapter id that is not negative has that id as its number, so both
    functions return a file of the chapter they are asked for. *)
Theorem section_chapter_number :
  (forall pre ds rest,
     contains (L "ch") pre = false ->
     ds <> [] -> forallb is_digit ds = true ->
     match rest with a :: _ => is_digit a = false | [] => True end ->
     get_chapter_number_from_xml (pre ++ L "ch" ++ ds ++ rest) = Some (int_of ds))
  /\ (forall (xml : dir) (chapter_id : Z) (name : string),
        (0 <= chapter_id)%Z ->
        In name (glob xml (section_pattern chapter_id)) ->
        get_chapter_number_from_xml (L name) = Some chapter_id)
  /\ (forall (xml : dir) (chapter_id : Z) (name : string),
        (0 <= chapter_id)%Z ->
        find_xml_bibliography_file xml chapter_id = Some name
        \/ find_xml_keywords_file xml chapter_id = Some name ->
        get_chapter_number_from_xml (L name) = Some chapter_id).
Proof.
  assert (H2 : forall (xml : dir) (chapter_id : Z) (name : string),
             (0 <= chapter_id)%Z ->
             In name (glob xml (section_pattern chapter_id)) ->
             get_chapter_number_from_xml (L name) = Some chapter_id).
  { intros xml chapter_id name Hn Hin. apply in_glob in Hin as [_ Hin].
    unfold section_pattern in Hin. destruct (fmt_0d_digits 4 chapter_id) as [Hne Hd].
    replace (L "sect1.9781071643624.ch" ++ fmt_0d 4 chapter_id ++ L "s*.xml")
      with ((L "sect1.9781071643624.ch" ++ fmt_0d 4 chapter_id ++ L "s")
            ++ "*"%char :: L ".xml") in Hin
      by (rewrite <- !app_assoc; reflexivity).
    apply glob_one_star in Hin as [m E].
    - rewrite E.
      replace ((L "sect1.9781071643624.ch" ++ fmt_0d 4 chapter_id ++ L "s")
               ++ m ++ L ".xml")
        with (L "sect1.9781071643624." ++ L "ch" ++ fmt_0d 4 chapter_id
              ++ (L "s" ++ m ++ L ".xml"))
        by (rewrite <- !app_assoc; reflexivity).
      rewrite section_name_number; [|reflexivity|exact Hne|exact Hd|reflexivity].
      rewrite int_of_fmt_0d by exact Hn. reflexivity.
    - intros Hs. apply in_app_or in Hs as [Hs|Hs]; [revert Hs; not_in|].
      apply in_app_or in Hs as [Hs|Hs]; [exact (digits_no_star _ Hd Hs)|revert Hs; not_in].
    - not_in. }
  split; [exact section_name_number|]. split; [exact H2|].
  intros xml chapter_id name Hn [H|H]; apply find_some in H as [H _].
  - apply (proj2 (in_rev _ _)) in H. apply (proj1 (in_sorted _ _)) in H.
    apply (H2 xml chapter_id name Hn H).
  - apply (proj1 (in_sorted _ _)) in H. apply (H2 xml chapter_id name Hn H).
Qed.

(** The bibliography file of the example is a section file of chapter 8. *)
Lemma section_chapter_number_witness :
  get_chapter_number_from_xml (L ex_path) = Some 8%Z.
Proof.
  apply (proj1 (proj2 section_chapter_number) (ex_out ex_short) 8%Z ex_path).
  - lia.
  - vm_compute. left. reflexivity.
Defined.

End NumberProperties.

(** ** The order of the files *)

Module OrderFacts.
Import Text Re Sys Common Citations TextFacts Listing ContentLossRun NumberFacts.
Import FixContentLoss.
Import Notions Examples RunNotions RunExamples.

Lemma compare_lt_trans (a : string) : forall b c : string,
  String.compare a b = Lt -> String.compare b c = Lt -> String.compare a c = Lt.
Proof.
  induction a as [|c1 a IH]; intros [|c2 b] [|c3 c]; cbn; try congruence.
  unfold Ascii.compare.
  destruct (N.compare_spec (N_of_ascii c1) (N_of_ascii c2)) as [E12|L12|G12];
    try discriminate;
    destruct (N.compare_spec (N_of_ascii c2) (N_of_ascii c3)) as [E23|L23|G23];
    try discriminate;
    destruct (N.compare_spec (N_of_ascii c1) (N_of_ascii c3)) as [E13|L13|G13];
    intros H1 H2; try reflexivity; try (exfalso; lia); eauto.
Qed.

Lemma name_le_refl a : name_le a a.
Proof. destruct (String.leb_total a a); assumption. Qed.

Lemma name_le_trans a b c : name_le a b -> name_le b c -> name_le a c.
Proof.
  unfold name_le, String.leb. intros H1 H2.
  destruct (String.compare a b) eqn:E1; try discriminate;
    destruct (String.compare b c) eqn:E2; try discriminate.
  - apply String.compare_eq_iff in E1. subst b. rewrite E2. reflexivity.
  - apply String.compare_eq_iff in E1. subst b. rewrite E2. reflexivity.
  - apply String.compare_eq_iff in E2. subst c. rewrite E1. reflexivity.
  - rewrite (compare_lt_trans a b c E1 E2). reflexivity.
Qed.

Lemma sorted_sorted l : StronglySorted name_le (sorted l).
Proof.
  apply StronglySorted_merge_sort.
  - intros a b c. apply name_le_trans.
  - intros a b. apply String.leb_total.
Qed.

(** The first element of a sorted list that passes a test is the least
    that passes it. *)
Lemma find_least {A} (R : relation A) (p : A -> bool) (l : list A) (f : A) :
  (forall a, R a a) -> StronglySorted R l -> List.find p l = Some f ->
  In f l /\ p f = true /\ forall g, In g l -> p g = true -> R f g.
Proof.
  intros Hrefl Hs Hf. destruct (find_some _ _ Hf) as [Hin Hp].
  split; [exact Hin|]. split; [exact Hp|]. clear Hin.
  induction Hs as [|a l Hs IH Hall]; [discriminate Hf|].
  cbn [List.find] in Hf. intros g [<-|Hg] Hpg.
  - rewrite Hpg in Hf. injection Hf as <-. apply Hrefl.
  - destruct (p a).
    + injection Hf as <-. rewrite List.Forall_forall in Hall. apply Hall. exact Hg.
    + apply (IH Hf g Hg Hpg).
Qed.

Lemma sorted_app {A} (R : relation A) (l : list A) (a : A) :
  StronglySorted R l -> (forall b, In b l -> R b a) -> StronglySorted R (l ++ [a]).
Proof.
  induction 1 as [|b l Hs IH Hall]; intros Ha; cbn [app].
  - constructor; constructor.
  - constructor.
    + apply IH. intros c Hc. apply Ha. right. exact Hc.
    + apply List.Forall_forall. intros c Hc. apply in_app_or in Hc as [Hc|[<-|[]]].
      * rewrite List.Forall_forall in Hall. apply Hall. exact Hc.
      * apply Ha. left. reflexivity.
Qed.

(** Of the reversed list, the greatest. *)
Lemma sorted_rev {A} (R : relation A) (l : list A) :
  StronglySorted R l -> StronglySorted (flip R) (rev l).
Proof.
  induction 1 as [|a l Hs IH Hall]; [constructor|]. cbn [rev].
  apply sorted_app; [exact IH|]. intros b Hb. unfold flip.
  rewrite List.Forall_forall in Hall. apply Hall. apply in_rev. exact Hb.
Qed.

Lemma find_none_iff {A} (p : A -> bool) (l : list A) :
  List.find p l = None <-> forall g, In g l -> p g = false.
Proof.
  split; [apply find_none|]. intros H.
  destruct (List.find p l) as [f|] eqn:E; [|reflexivity].
  apply find_some in E as [Hin Hp]. rewrite (H f Hin) in Hp. discriminate Hp.
Qed.

Lemma in_rev_sorted f l : In f (rev (sorted l)) <-> In f l.
Proof. rewrite <- in_rev. apply in_sorted. Qed.

(** *** Loops over files *)










Lemma texts_in_trans (names : list string) (d0 d1 d2 : dir) :
  texts_in names d0 d1 -> texts_in names d1 d2 -> texts_in names d0 d2.
Proof.
  intros [_ H1] [H2 H3]. split; [exact H2|].
  intros g Hg. rewrite (H3 g Hg). apply H1. exact Hg.
Qed.


End OrderFacts.


Module RunProperties.
Import Text Re Sys Common TextFacts Listing ContentLossRun NumberFacts OrderFacts.
Import FixContentLoss.
Import Notions Examples RunNotions RunExamples.

(** X10.  The file [find_xml_bibliography_file] returns is a section
    file of the chapter that can be read and holds a bibliography, and it
    has the highest name of these; the function returns [None] exactly
    when no section file of the chapter that can be read holds one. *)
Theorem bibliography_file_is_highest (xml : dir) (chapter_id : Z) :
  (forall f, find_xml_bibliography_file xml chapter_id = Some f ->
     In f (glob xml (section_pattern chapter_id))
     /\ (exists content, xml !! f = Some (TextFile content)
                         /\ has_bibliography content = true)
     /\ forall g content,
          In g (glob xml (section_pattern chapter_id)) ->
          xml !! g = Some (TextFile content) -> has_bibliography content = true ->
          name_le g f)
  /\ (find_xml_bibliography_file xml chapter_id = None <->
      forall g content,
        In g (glob xml (section_pattern chapter_id)) ->
        xml !! g = Some (TextFile content) -> has_bibliography content = false).
Proof.
  unfold find_xml_bibliography_file. split.
  - intros f Hf.
    apply (find_least (flip name_le)) in Hf as [Hin [Hp Hmax]];
      [|intros a; apply name_le_refl|apply sorted_rev, sorted_sorted].
    apply (proj1 (in_rev_sorted _ _)) in Hin.
    split; [exact Hin|]. split.
    + unfold file_has, read_text in Hp.
      destruct (xml !! f) as [[content|]|]; try discriminate Hp. exists content. auto.
    + intros g content Hg Eg Hb. apply (Hmax g).
      * apply in_rev_sorted. exact Hg.
      * unfold file_has, read_text. rewrite Eg. exact Hb.
  - rewrite find_none_iff. split.
    + intros H g content Hg Eg.
      assert (Hs : In g (rev (sorted (glob xml (section_pattern chapter_id)))))
        by (apply in_rev_sorted; exact Hg).
      specialize (H g Hs). unfold file_has, read_text in H. rewrite Eg in H. exact H.
    + intros H g Hg. apply (proj1 (in_rev_sorted _ _)) in Hg.
      unfold file_has, read_text. destruct (xml !! g) as [[content|]|] eqn:Eg;
        [|reflexivity|reflexivity].
      apply (H g content Hg Eg).
Qed.

(** Of the two section files of the example chapter that hold a
    bibliography the one named last is returned. *)
Lemma bibliography_file_is_highest_witness :
  name_le "sect1.9781071643624.ch0008s0009.xml" "sect1.9781071643624.ch0008s0010.xml".
Proof.
  destruct (proj1 (bibliography_file_is_highest ex_sections 8)
              "sect1.9781071643624.ch0008s0010.xml") as [_ [_ H]].
  - vm_compute. reflexivity.
  - apply (H "sect1.9781071643624.ch0008s0009.xml" (ex_doc ex_short)).
    + vm_compute. tauto.
    + vm_compute. reflexivity.
    + vm_compute. reflexivity.
Defined.

(** X11.  The file [find_xml_keywords_file] returns is a section file of
    the chapter that can be read and has an address and a topic word,
    and it has the lowest name of these; the function returns [None]
    exactly when no section file of the chapter that can be read has
    both. *)
Theorem keywords_file_is_lowest (xml : dir) (chapter_id : Z) :
  (forall f, find_xml_keywords_file xml chapter_id = Some f ->
     In f (glob xml (section_pattern chapter_id))
     /\ (exists content, xml !! f = Some (TextFile content)
                         /\ has_garbled_keywords content = true)
     /\ forall g content,
          In g (glob xml (section_pattern chapter_id)) ->
          xml !! g = Some (TextFile content) -> has_garbled_keywords content = true ->
          name_le f g)
  /\ (find_xml_keywords_file xml chapter_id = None <->
      forall g content,
        In g (glob xml (section_pattern chapter_id)) ->
        xml !! g = Some (TextFile content) -> has_garbled_keywords content = false).
Proof.
  unfold find_xml_keywords_file. split.
  - intros f Hf.
    apply (find_least name_le) in Hf as [Hin [Hp Hmin]];
      [|intros a; apply name_le_refl|apply sorted_sorted].
    apply (proj1 (in_sorted _ _)) in Hin.
    split; [exact Hin|]. split.
    + unfold file_has, read_text in Hp.
      destruct (xml !! f) as [[content|]|]; try discriminate Hp. exists content. auto.
    + intros g content Hg Eg Hb. apply (Hmin g).
      * apply in_sorted. exact Hg.
      * unfold file_has, read_text. rewrite Eg. exact Hb.
  - rewrite find_none_iff. split.
    + intros H g content Hg Eg.
      assert (Hs : In g (sorted (glob xml (section_pattern chapter_id))))
        by (apply in_sorted; exact Hg).
      specialize (H g Hs). unfold file_has, read_text in H. rewrite Eg in H. exact H.
    + intros H g Hg. apply (proj1 (in_sorted _ _)) in Hg.
      unfold file_has, read_text. destruct (xml !! g) as [[content|]|] eqn:Eg;
        [|reflexivity|reflexivity].
      apply (H g content Hg Eg).
Qed.

(** The first section file of the example chapter has the garbled
    keywords; the file that cannot be read is passed over. *)
Lemma keywords_file_is_lowest_witness :
  In "sect1.9781071643624.ch0008s0001.xml"%string (glob ex_sections (section_pattern 8))
  /\ exists content,
       ex_sections !! "sect1.9781071643624.ch0008s0001.xml"%string
       = Some (TextFile content)
       /\ has_garbled_keywords content = true.
Proof.
  destruct (proj1 (keywords_file_is_lowest ex_sections 8)
              "sect1.9781071643624.ch0008s0001.xml") as [H1 [H2 _]].
  - vm_compute. reflexivity.
  - split; [exact H1|exact H2].
Defined.





End RunProperties.

(** ** The parser class *)

Module ParserFacts.
Import Text Re Sys Common Citations TextFacts CleaningFacts CitationParser.
Import Notions Examples RunNotions RunExamples.

Lemma normalize_clean t : single_spaced (normalize t) = true /\ trimmed (normalize t).
Proof.
  unfold normalize. split; [|apply strip_trimmed].
  apply strip_spaced. rewrite sub_spaces. apply (squeeze_spaced _ false).
Qed.

Lemma run_cons p e l : run p (e :: l) = run (handle p e) l.
Proof. reflexivity. Qed.

Lemma run_app p l1 l2 : run p (l1 ++ l2) = run (run p l1) l2.
Proof. unfold run. apply fold_left_app. Qed.

(** Inside a citation the events add their text and change nothing else
    of the citation. *)
Lemma run_inside : forall middle q,
  forallb inside middle = true -> in_citation q = true ->
  in_citation (run q middle) = true
  /\ current_citation_id (run q middle) = current_citation_id q
  /\ current_citation_text (run q middle) = current_citation_text q ++ data_of middle
  /\ citations (run q middle) = citations q.
Proof.
  induction middle as [|e middle IH]; intros q Hm Hq.
  - cbn. rewrite app_nil_r. auto.
  - cbn [forallb] in Hm. apply andb_true_iff in Hm as [He Hm]. rewrite run_cons.
    assert (H : in_citation (handle q e) = true
                /\ current_citation_id (handle q e) = current_citation_id q
                /\ current_citation_text (handle q e)
                   = current_citation_text q ++ data_of [e]
                /\ citations (handle q e) = citations q).
    { destruct e as [tag attrs|tag|data]; cbn [handle inside data_of flat_map app] in *.
      - apply negb_true_iff in He. unfold handle_starttag. rewrite He, app_nil_r.
        destruct (bool_decide (tag = L "span") && class_is attrs (L "Keyword"))%bool;
          cbn; auto.
      - apply negb_true_iff in He. unfold handle_endtag. rewrite He, app_nil_r.
        cbn [andb].
        destruct (bool_decide (tag = L "span") && in_keyword q)%bool; cbn; auto.
      - unfold handle_data. rewrite Hq. cbn.
        destruct (in_keyword q); cbn; auto. }
    destruct H as [H1 [H2 [H3 H4]]].
    destruct (IH (handle q e) Hm H1) as [I1 [I2 [I3 I4]]].
    rewrite I1, I2, I3, I4, H2, H3, H4. cbn [data_of flat_map].
    rewrite app_nil_r, <- app_assoc. auto.
Qed.

Lemma handle_clean p e :
  clean_results (citations p) (keywords p) ->
  clean_results (citations (handle p e)) (keywords (handle p e)).
Proof.
  intros H. destruct e as [tag attrs|tag|data]; cbn [handle].
  - unfold handle_starttag.
    destruct (bool_decide (tag = L "div") && class_is attrs (L "CitationContent"))%bool;
      cbn [citations keywords];
      destruct (bool_decide (tag = L "span") && class_is attrs (L "Keyword"))%bool;
      cbn [citations keywords]; exact H.
  - unfold handle_endtag.
    assert (H1 : clean_results
                   (match current_citation_id p with
                    | Some (c :: id) =>
                        <[c :: id := normalize (concat (current_citation_text p))]>
                          (citations p)
                    | _ => citations p
                    end) (keywords p)).
    { destruct H as [Hc Hk]. split; [|exact Hk].
      destruct (current_citation_id p) as [[|c id]|]; try exact Hc.
      intros id' text E. destruct (decide (c :: id = id')) as [<-|Hne].
      - rewrite lookup_insert_eq in E. injection E as <-.
        split; [discriminate|apply normalize_clean].
      - rewrite lookup_insert_ne in E by exact Hne. apply (Hc _ _ E). }
    assert (H2 : forall cs ks kt, clean_results cs ks ->
                   clean_results cs
                     (match strip (concat kt) with
                      | [] => ks
                      | _ => ks ++ [strip (concat kt)]
                      end)).
    { intros cs ks kt [Hc' Hk']. split; [exact Hc'|].
      destruct (strip (concat kt)) as [|a w] eqn:E; [exact Hk'|].
      intros k Hin. apply in_app_or in Hin as [Hin|[<-|[]]]; [apply Hk'; exact Hin|].
      split; [discriminate|]. rewrite <- E. apply strip_trimmed. }
    destruct (bool_decide (tag = L "div") && in_citation p)%bool;
      cbn [citations keywords in_keyword current_keyword_text];
      destruct (bool_decide (tag = L "span") && in_keyword p)%bool;
      cbn [citations keywords in_keyword current_keyword_text];
      try (apply H2); try exact H1; exact H.
  - unfold handle_data. destruct (in_citation p); cbn [citations keywords in_keyword];
      destruct (in_keyword p); cbn [citations keywords]; exact H.
Qed.

Lemma run_clean (events : list event) :
  clean_results (citations (run init events)) (keywords (run init events)).
Proof.
  assert (H : forall p, clean_results (citations p) (keywords p) ->
                clean_results (citations (run p events)) (keywords (run p events))).
  { induction events as [|e events IH]; intros p Hp; [exact Hp|].
    rewrite run_cons. apply IH. apply handle_clean. exact Hp. }
  apply H. split.
  - intros id text E. cbn in E. rewrite lookup_empty in E. discriminate E.
  - intros k [].
Qed.

End ParserFacts.

Module ParserProperties.
Import Text Re Sys Common Citations TextFacts CitationParser ParserFacts.
Import Notions Examples RunNotions RunExamples.

(** X14.  A citation of [CitationParser] runs from the opening tag of a
    [div] of the class [CitationContent] to the next closing [div]:
    whatever tags lie between, the runs of text between the two are
    joined, runs of whitespace become one blank, the ends are trimmed,
    and the text is stored under the identifier of the opening tag.
    Without an identifier, or with an empty one, nothing is stored. *)
Theorem parser_citation_region
    (p : parser) (attrs : list (str * option str)) (middle : list event) :
  class_is attrs (L "CitationContent") = true ->
  forallb inside middle = true ->
  let p' := run p (StartTag (L "div") attrs :: middle ++ [EndTag (L "div")]) in
  citations p'
  = match attrs_get attrs (L "id") with
    | Some (Some (c :: id)) =>
        <[c :: id := normalize (concat (data_of middle))]> (citations p)
    | _ => citations p
    end
  /\ in_citation p' = false.
Proof.
  intros Hclass Hm p'. subst p'. rewrite run_cons, run_app.
  set (q := handle p (StartTag (L "div") attrs)).
  assert (Hq : in_citation q = true
               /\ current_citation_id q
                  = match attrs_get attrs (L "id") with Some v => v | None => Some [] end
               /\ current_citation_text q = [] /\ citations q = citations p).
  { subst q. cbn [handle]. unfold handle_starttag. rewrite Hclass.
    rewrite (bool_decide_eq_true_2 (L "div" = L "div")) by reflexivity. cbn [andb].
    rewrite (bool_decide_eq_false_2 (L "div" = L "span")) by discriminate.
    cbn. auto. }
  destruct Hq as [Q1 [Q2 [Q3 Q4]]].
  destruct (run_inside middle q Hm Q1) as [I1 [I2 [I3 I4]]].
  cbn [run fold_left handle]. fold (run q middle). unfold handle_endtag.
  rewrite (bool_decide_eq_true_2 (L "div" = L "div")) by reflexivity. rewrite I1. cbn [andb].
  rewrite (bool_decide_eq_false_2 (L "div" = L "span")) by discriminate.
  cbn [andb citations in_citation]. rewrite I2, I3, I4, Q2, Q3, Q4. cbn [app].
  split; [|reflexivity].
  destruct (attrs_get attrs (L "id")) as [[[|c id]|]|]; reflexivity.
Qed.

(** The text of the example citation, with a tag inside and two blanks
    in a row. *)
Lemma parser_citation_region_witness :
  citations (run init (StartTag (L "div") ex_citation_attrs
                         :: ex_citation_events ++ [EndTag (L "div")]))
  = {[ L "CR1" := L "Smith, J. Mood 2001." ]}.
Proof.
  destruct (parser_citation_region init ex_citation_attrs ex_citation_events) as [H _].
  - vm_compute. reflexivity.
  - vm_compute. reflexivity.
  - rewrite H. vm_compute. reflexivity.
Defined.

(** X15.  Whatever the events, the results of [CitationParser] are
    clean: no citation is stored under an empty identifier, every stored
    citation is single-spaced and has no whitespace at its ends, and
    every keyword is not empty and has no whitespace at its ends.
    [parse_xhtml_citations] does not raise, whatever the file and however
    the text is cut into events: it returns clean results, and nothing
    when the file cannot be read or the parser fails. *)
Theorem parser_results_clean :
  (forall events,
     clean_results (citations (run init events)) (keywords (run init events)))
  /\ (forall (tokens : str -> res (list event)) (d : dir) (xhtml_path : string),
        exists cs ks,
          parse_xhtml_citations tokens d xhtml_path = Ok (cs, ks)
          /\ clean_results cs ks
          /\ match read_text d xhtml_path with
             | Ok content =>
                 match tokens content with
                 | Ok events =>
                     cs = citations (run init events) /\ ks = keywords (run init events)
                 | Raise _ => cs = ∅ /\ ks = []
                 end
             | Raise _ => cs = ∅ /\ ks = []
             end).
Proof.
  split; [exact run_clean|]. intros tokens d xhtml_path.
  assert (He : clean_results (∅ : gmap str str) []).
  { split; [|intros k []]. intros id text E. rewrite lookup_empty in E. discriminate E. }
  unfold parse_xhtml_citations.
  destruct (read_text d xhtml_path) as [content|x]; cbn [bind try_except].
  - destruct (tokens content) as [events|x]; cbn [bind try_except].
    + exists (citations (run init events)), (keywords (run init events)).
      split; [reflexivity|]. split; [apply run_clean|auto].
    + exists ∅, []. auto.
  - exists ∅, []. auto.
Qed.

End ParserProperties.

(** ** The keyword scripts over the files *)

Module KeywordRunFacts.
Import Text Re Sys Common TextFacts ReFacts ScanFacts Listing ContentLossRun.
Import NumberFacts OrderFacts ExtractionFacts.
Import Notions Examples RunNotions RunExamples.

(** A reported match is a piece of the text. *)
Lemma scan_occurs ic r m : forall s k pos,
  In m (scan ic r k pos s) -> exists a, occurs_at (m_whole m) a s.
Proof.
  induction s as [|x s IH]; intros k pos H.
  - destruct k; [|destruct H]. cbn [scan] in H.
    destruct (re_match ic r []) as [[rest c]|]; [|destruct H].
    destruct H as [<-|[]]. exists [], []. reflexivity.
  - assert (Hs : forall k' pos', In m (scan ic r k' pos' s) ->
               exists a, occurs_at (m_whole m) a (x :: s)).
    { intros k' pos' H'. destruct (IH _ _ H') as [a [b ->]].
      exists (x :: a), b. reflexivity. }
    destruct k as [|k]; cbn [scan] in H; [|apply (Hs _ _ H)].
    destruct (re_match ic r (x :: s)) as [[rest c]|]; [|apply (Hs _ _ H)].
    destruct H as [<-|H]; [|apply (Hs _ _ H)].
    exists [], (skipn (length (x :: s) - length rest) (x :: s)). cbn [m_whole app].
    symmetry. apply firstn_skipn.
Qed.

Lemma search_occurs ic r s m :
  search ic r s = Some m -> contains (m_whole m) s = true.
Proof.
  unfold search, finditer. intros H. apply contains_spec.
  apply (scan_occurs ic r m s 0 0).
  destruct (scan ic r 0 0 s) as [|m' l]; [discriminate H|].
  injection H as ->. left. reflexivity.
Qed.

Lemma contains_prefix a b s : contains (a ++ b) s = true -> contains a s = true.
Proof.
  rewrite !contains_spec. intros [u [v ->]]. exists u, (b ++ v).
  rewrite <- app_assoc. reflexivity.
Qed.

Lemma keywords_xml_opens keywords :
  exists rest, keywords_xml keywords = L "<keywordset>" ++ rest.
Proof.
  unfold keywords_xml.
  assert (H : forall l acc, exists rest,
             fold_left (fun acc keyword =>
                          acc ++ L "      <keyword>" ++ escape keyword
                          ++ L "</keyword>" ++ [nl]) l (L "<keywordset>" ++ acc)
             = L "<keywordset>" ++ rest).
  { induction l as [|k l IH]; intros acc; [exists acc; reflexivity|].
    cbn [fold_left]. rewrite <- app_assoc. apply IH. }
  destruct (H keywords [nl]) as [rest ->]. exists (rest ++ L "   </keywordset>").
  rewrite <- app_assoc. reflexivity.
Qed.

Lemma sorted_filter {A} (R : relation A) (p : A -> bool) (l : list A) :
  StronglySorted R l -> StronglySorted R (List.filter p l).
Proof.
  induction 1 as [|a l Hs IH Hall]; cbn [List.filter]; [constructor|].
  destruct (p a); [|exact IH]. constructor; [exact IH|].
  apply List.Forall_forall. intros b Hb. apply filter_In in Hb as [Hb _].
  rewrite List.Forall_forall in Hall. apply Hall. exact Hb.
Qed.

Lemma in_xml_glob (d : dir) f :
  In f (glob d (L "*.xml")) <->
  (exists x, d !! f = Some x) /\ exists stem, L f = stem ++ L ".xml".
Proof.
  rewrite in_glob. change (L "*.xml") with ([] ++ "*"%char :: L ".xml").
  rewrite glob_one_star; [reflexivity|intros []|not_in].
Qed.

Lemma file_has_spec (d : dir) test f :
  file_has d test f = true <->
  exists content, d !! f = Some (TextFile content) /\ test content = true.
Proof.
  unfold file_has, read_text. destruct (d !! f) as [[content|]|]; split.
  - intros H. exists content. auto.
  - intros [c [[= <-] H]]. exact H.
  - discriminate.
  - intros [c [[=] _]].
  - discriminate.
  - intros [c [[=] _]].
Qed.

End KeywordRunFacts.

Module KeywordRunProperties.
Import Text Re Sys Common TextFacts Listing ContentLossRun KeywordsRun.
Import NumberFacts OrderFacts ExtractionFacts KeywordRunFacts.
Import Notions Examples RunNotions RunExamples.

(** X16.  A file in which a match of a pattern was replaced by the
    keyword list, as both keyword scripts do, has the opening tag of the
    list: [fix_all_garbled_keywords] passes it over and leaves the
    directory as it is, whatever the file contains besides. *)
Theorem rewritten_keywords_are_skipped
    (ic : bool) (pattern : re) (content : str) (m : mobj) (keywords : list str)
    (xhtml out : dir) (xml_file : string) :
  search ic pattern content = Some m ->
  out !! xml_file
  = Some (TextFile (replace_first (m_whole m) (keywords_xml keywords) content)) ->
  contains (L "<keywordset>")
           (replace_first (m_whole m) (keywords_xml keywords) content) = true
  /\ FixAllKeywords.fix_file xhtml out xml_file = Ok (out, None).
Proof.
  intros Hs Hread.
  assert (Hk : contains (L "<keywordset>")
                 (replace_first (m_whole m) (keywords_xml keywords) content) = true).
  { destruct (keywords_xml_opens keywords) as [rest E].
    apply (contains_prefix _ rest). rewrite <- E.
    apply replace_first_contains. apply (search_occurs ic pattern). exact Hs. }
  split; [exact Hk|].
  unfold FixAllKeywords.fix_file, read_text. rewrite Hread. cbn [bind try_except].
  rewrite Hk. destruct (negb _); reflexivity.
Qed.

(** The file of the example stays as it is after its repair. *)
Lemma rewritten_keywords_are_skipped_witness :
  FixAllKeywords.fix_file ex_xhtml
    {[ ex_kw_file := TextFile (L "<sect1info>" ++ keywords_xml [L "a@b.c"]
                               ++ L "</sect1info>") ]} ex_kw_file
  = Ok ({[ ex_kw_file := TextFile (L "<sect1info>" ++ keywords_xml [L "a@b.c"]
                                   ++ L "</sect1info>") ]}, None).
Proof.
  apply (rewritten_keywords_are_skipped true FixAllKeywords.full_pattern ex_garbled_edu
           (MObj 11 (L "<para>lfelicia@uccs.edu Depression Dysthymia Mood</para>")
              [(2, L "Depression Dysthymia Mood"); (1, L "lfelicia@uccs.edu")])
           [L "a@b.c"]).
  - vm_compute. reflexivity.
  - vm_compute. reflexivity.
Defined.

(** X17.  [find_garbled_keywords_files] lists, in the order of their
    names, the files of the directory with a name ending in [.xml] that
    can be read and have the garbled paragraph; a file that cannot be
    read is left out, not reported. *)
Theorem garbled_files_listing (out : dir) :
  StronglySorted name_le (find_garbled_keywords_files out)
  /\ forall f, In f (find_garbled_keywords_files out) <->
       (exists stem, L f = stem ++ L ".xml")
       /\ exists content, out !! f = Some (TextFile content)
                          /\ FixKeywords.is_garbled content = true.
Proof.
  unfold find_garbled_keywords_files. split.
  - apply sorted_filter. apply sorted_sorted.
  - intros f. rewrite filter_In, in_sorted, in_xml_glob, file_has_spec. split.
    + intros [[_ Hn] Hc]. auto.
    + intros [Hn [content [E Hc]]]. split; [|exists content; auto].
      split; [exists (TextFile content); exact E|exact Hn].
Qed.

(** X18.  [map_xhtml_to_xml_chapters] has one entry for each chapter
    file of the source directory whose name gives a number other than
    zero, with that number; the list of XML files of every entry is
    empty, whatever the XML directory holds. *)
Theorem chapter_map_entries (xhtml xml : dir) (f : string) (e : chapter_files) :
  map_xhtml_to_xml_chapters xhtml xml !! f = Some e <->
  In f (glob xhtml (L "*_Chapter.xhtml"))
  /\ exists ch_num, truthy (get_chapter_number_from_xhtml (L f)) = Some ch_num
                    /\ e = ChapterFiles ch_num [].
Proof.
  unfold map_xhtml_to_xml_chapters. cbv zeta.
  set (key := fun a : string =>
                match truthy (get_chapter_number_from_xhtml (L a)) with
                | Some _ => Some a
                | None => None
                end).
  set (val := fun a : string =>
                ChapterFiles
                  (default 0%Z (truthy (get_chapter_number_from_xhtml (L a)))) []).
  rewrite (fold_insert_lookup key val _ _ ∅ f (fun a => bool_decide (key a = Some f)));
    [| |reflexivity].
  2:{ intros m a. subst key val. cbn beta.
      destruct (truthy (get_chapter_number_from_xhtml (L a))); reflexivity. }
  unfold last_with. rewrite lookup_empty.
  assert (Hkey : forall a, key a = Some f ->
                   a = f /\ exists ch_num,
                     truthy (get_chapter_number_from_xhtml (L f)) = Some ch_num
                     /\ val a = ChapterFiles ch_num []).
  { intros a Ha. subst key val. cbn beta in *.
    destruct (truthy (get_chapter_number_from_xhtml (L a))) as [n|] eqn:E;
      [|discriminate Ha].
    injection Ha as ->. split; [reflexivity|]. exists n. rewrite E. auto. }
  split.
  - destruct (List.find _ _) as [a|] eqn:E; [|discriminate].
    intros [= <-]. apply find_some in E as [Hin Ha].
    apply bool_decide_eq_true_1 in Ha. destruct (Hkey a Ha) as [-> Hf].
    split; [|exact Hf]. apply (proj1 (in_rev_sorted _ _)). exact Hin.
  - intros [Hin [ch_num [Hn ->]]].
    destruct (List.find _ _) as [a|] eqn:E.
    + apply find_some in E as [_ Ha]. apply bool_decide_eq_true_1 in Ha.
      destruct (Hkey a Ha) as [-> [n [Hn' ->]]]. congruence.
    + exfalso. apply (proj1 (find_none_iff _ _)) with (g := f) in E.
      * apply bool_decide_eq_false_1 in E. apply E. subst key. cbn beta.
        rewrite Hn. reflexivity.
      * apply (proj2 (in_rev_sorted _ _)). exact Hin.
Qed.

(** The chapter file of the example has an entry without XML files,
    though the XML directory has the files of its chapter. *)
Lemma chapter_map_entries_witness :
  map_xhtml_to_xml_chapters ex_xhtml ex_sections !! "106097_6_En_6_Chapter.xhtml"%string
  = Some (ChapterFiles 6 []).
Proof.
  apply (proj2 (chapter_map_entries ex_xhtml ex_sections "106097_6_En_6_Chapter.xhtml"
                  (ChapterFiles 6 []))).
  split.
  - vm_compute. tauto.
  - exists 6%Z. split; [vm_compute; reflexivity|reflexivity].
Defined.

End KeywordRunProperties.
